(** * hr20-esp12-master: the MQTT topic codec and publisher of [src/mqtt.h]

    A shallow embedding of [hr20::mqtt::Path] (topic parser and composer) and
    of [hr20::mqtt::MQTTPublisher] (connection manager, publication scheduler
    and inbound command dispatcher), with the properties of the
    specification stated over it.

    Conventions of the embedding.
    - A C string is the [string] of its characters before the terminating
      NUL; reading the terminator is reading past the last character
      ([deref] yields [zero] there).
    - A [const char *] into a C string is the suffix that starts at it; the
      null pointer is [None].
    - [uint8_t] values are [Z] in [0, 256), every wrap-around is written
      out; a character count is a [nat] below 256.  *)

From Stdlib Require Import ZArith String Ascii List Bool Lia.

From stdpp Require Import base option list strings gmap.

Import ListNotations.

Local Open Scope Z_scope.

#[local] Arguments String.append !_ _ / : simpl nomatch.

#[local] Arguments Nat.modulo : simpl never.

#[local] Arguments Z.modulo : simpl never.

#[local] Arguments Z.div : simpl never.

#[local] Arguments Z.mul : simpl never.

(** ** Characters and C strings *)

Definition cstr := string.

Definition deref (p : cstr) : ascii :=
  match p with
  | EmptyString => zero
  | String c _ => c
  end.

(** [++p] on a pointer that is not at the terminator. *)
Definition next (p : cstr) : cstr :=
  match p with
  | EmptyString => EmptyString
  | String _ r => r
  end.

(** [p + n], for [n] at most the length of [p]. *)
Fixpoint advance (n : nat) (p : cstr) {struct n} : cstr :=
  match n, p with
  | S n', String _ r => advance n' r
  | _, _ => p
  end.

(** [strcmp(a, b) == 0]. *)
Definition strcmp_eq (a b : cstr) : bool := String.eqb a b.

(** [strncmp(a, b, n) == 0]. *)
Fixpoint strncmp_eq (a b : cstr) (n : nat) {struct n} : bool :=
  match n with
  | O => true
  | S n' =>
      match a, b with
      | EmptyString, EmptyString => true
      | String x a', String y b' =>
          if Ascii.eqb x y then strncmp_eq a' b' n' else false
      | _, _ => false
      end
  end.

(** ** Topic enums and their names *)

Inductive Topic :=
| AVG_TMP | BAT | ERR | LOCK | MODE | REQ_TMP | VALVE_WTD | WND
| LAST_SEEN | TIMER | STATE | INVALID_TOPIC.

Definition Topic_code (t : Topic) : Z :=
  match t with
  | AVG_TMP => 1 | BAT => 2 | ERR => 3 | LOCK => 4 | MODE => 5
  | REQ_TMP => 6 | VALVE_WTD => 7 | WND => 8 | LAST_SEEN => 9
  | TIMER => 10 | STATE => 11 | INVALID_TOPIC => 255
  end.

Inductive TimerTopic :=
| TIMER_NONE | TIMER_TIME | TIMER_MODE | INVALID_TIMER_TOPIC.

Definition TimerTopic_code (t : TimerTopic) : Z :=
  match t with
  | TIMER_NONE => 0 | TIMER_TIME => 1 | TIMER_MODE => 2
  | INVALID_TIMER_TOPIC => 255
  end.

#[global] Instance Topic_eq_dec : EqDecision Topic.
Proof. solve_decision. Defined.

#[global] Instance TimerTopic_eq_dec : EqDecision TimerTopic.
Proof. solve_decision. Defined.

Definition S_AVG_TMP : cstr := "average_temp".

Definition S_BAT : cstr := "battery".

Definition S_ERR : cstr := "error".

Definition S_LOCK : cstr := "lock".

Definition S_MODE : cstr := "mode".

Definition S_REQ_TMP : cstr := "requested_temp".

Definition S_VALVE_WTD : cstr := "valve_wanted".

Definition S_WND : cstr := "window".

Definition S_LAST_SEEN : cstr := "last_seen".

Definition S_STATE : cstr := "state".

Definition S_TIMER : cstr := "timer".

Definition S_TIMER_LEN : nat := 5.

Definition S_TIMER_MODE : cstr := "mode".

Definition S_TIMER_TIME : cstr := "time".

Definition S_SET_MODE : cstr := "set".

Definition MAX_MQTT_PATH_LENGTH : nat := 128.

Definition topic_str (topic : Topic) : cstr :=
  match topic with
  | AVG_TMP => S_AVG_TMP
  | BAT => S_BAT
  | ERR => S_ERR
  | LOCK => S_LOCK
  | MODE => S_MODE
  | REQ_TMP => S_REQ_TMP
  | VALVE_WTD => S_VALVE_WTD
  | WND => S_WND
  | LAST_SEEN => S_LAST_SEEN
  | STATE => S_STATE
  | TIMER => S_TIMER
  | INVALID_TOPIC => "invalid!"
  end.

(** [nullptr] for a sub-topic without a name. *)
Definition timer_topic_str (sub : TimerTopic) : option cstr :=
  match sub with
  | TIMER_TIME => Some S_TIMER_TIME
  | TIMER_MODE => Some S_TIMER_MODE
  | _ => None
  end.

Definition chr (s : string) : ascii := deref s.

Definition parse_topic (top : cstr) : Topic :=
  let c := deref top in
  if Ascii.eqb c (chr "a") then
    if strcmp_eq top S_AVG_TMP then AVG_TMP else INVALID_TOPIC
  else if Ascii.eqb c (chr "b") then
    if strcmp_eq top S_BAT then BAT else INVALID_TOPIC
  else if Ascii.eqb c (chr "e") then
    if strcmp_eq top S_ERR then ERR else INVALID_TOPIC
  else if Ascii.eqb c (chr "l") then
    if strcmp_eq top S_LOCK then LOCK
    else if strcmp_eq top S_LAST_SEEN then LAST_SEEN
    else INVALID_TOPIC
  else if Ascii.eqb c (chr "m") then
    if strcmp_eq top S_MODE then MODE else INVALID_TOPIC
  else if Ascii.eqb c (chr "r") then
    if strcmp_eq top S_REQ_TMP then REQ_TMP else INVALID_TOPIC
  else if Ascii.eqb c (chr "s") then
    if strcmp_eq top S_STATE then STATE else INVALID_TOPIC
  else if Ascii.eqb c (chr "t") then
    if strncmp_eq top S_TIMER S_TIMER_LEN then TIMER else INVALID_TOPIC
  else if Ascii.eqb c (chr "v") then
    if strcmp_eq top S_VALVE_WTD then VALVE_WTD else INVALID_TOPIC
  else if Ascii.eqb c (chr "w") then
    if strcmp_eq top S_WND then WND else INVALID_TOPIC
  else INVALID_TOPIC.

Definition parse_timer_topic (top : option cstr) : TimerTopic :=
  match top with
  | None => INVALID_TIMER_TOPIC
  | Some top =>
      if Ascii.eqb (deref top) (chr "t") then
        if strcmp_eq top S_TIMER_TIME then TIMER_TIME else INVALID_TIMER_TOPIC
      else if Ascii.eqb (deref top) (chr "m") then
        if strcmp_eq top S_TIMER_MODE then TIMER_MODE else INVALID_TIMER_TOPIC
      else INVALID_TIMER_TOPIC
  end.

(** ** The path value *)

Record Path := mkPath {
  addr : Z;
  day : Z;
  slot : Z;
  topic : Topic;
  timer_topic : TimerTopic;
  setter : bool
}.

(** [Path()]: the default member initialisers. *)
Definition Path_default : Path :=
  {| addr := 0; day := 0; slot := 0; topic := INVALID_TOPIC;
     timer_topic := TIMER_NONE; setter := false |}.

(** [Path(addr, t, set_mode, st, day, slot)] with its default arguments. *)
Definition Path_make (a : Z) (t : Topic) (set_mode : bool)
    (st : TimerTopic) (d s : Z) : Path :=
  {| addr := a; day := d; slot := s; topic := t; timer_topic := st;
     setter := set_mode |}.

Definition Path_make3 (a : Z) (t : Topic) (set_mode : bool) : Path :=
  Path_make a t set_mode TIMER_NONE 0 0.

Definition valid (p : Path) : bool := negb (addr p =? 0).

(** The operands are promoted to [int]; the result is cut to [uint16_t]. *)
Definition as_uint (p : Path) : Z :=
  Z.lor (addr p)
    (Z.lor (Z.shiftl (Topic_code (topic p)) 5)
           (Z.shiftl (TimerTopic_code (timer_topic p)) 9)) mod 65536.

Definition SEPARATOR : ascii := chr "/".

Definition WILDCARD : ascii := chr "#".

Definition is_sep (c : ascii) : bool := Ascii.eqb c SEPARATOR.

(** ** Tokens

    [Token] is [std::pair<const char*, uint8_t>]: the length of a token is
    stored in eight bits. *)

Definition Token : Type := cstr * nat.

(** The number of characters before the first separator or the end. *)
Fixpoint span (p : cstr) : nat :=
  match p with
  | EmptyString => O
  | String c r => if is_sep c then O else S (span r)
  end.

Definition token (p : cstr) : Token := (p, (span p mod 256)%nat).

(** Skips a separator; [None] when nothing follows it, [other] when the
    separator is missing (the terminator included). *)
Definition skip_separator (p : option cstr) (other : option cstr)
    : option cstr :=
  match p with
  | None => None
  | Some p =>
      if negb (is_sep (deref p)) then other
      else
        let p := next p in
        match p with
        | EmptyString => None
        | _ => Some p
        end
  end.

Definition skip_token (t : Token) : option cstr :=
  let end_ := advance (snd t) (fst t) in
  skip_separator (Some end_) None.

Definition cmp_tokens (a b : Token) : option cstr :=
  if negb (Nat.eqb (snd a) (snd b)) then None
  else if strncmp_eq (fst a) (fst b) (snd a)
       then Some (advance (snd a) (fst a))
       else None.

(** The [while] loop of [skip_prefix] and the two returns that follow it.
    Every round either returns or leaves a strictly shorter [p], so [fuel]
    above the length of [p] is never used up ([skip_prefix_loop_fuel]);
    the outer [None] is "out of fuel", the inner option is the pointer
    returned. *)
Fixpoint skip_prefix_loop (fuel : nat) (p pfx : option cstr) {struct fuel}
    : option (option cstr) :=
  match p, pfx with
  | Some p0, Some pfx0 =>
      match fuel with
      | O => None
      | S fuel' =>
          let p_t := token p0 in
          let pfx_t := token pfx0 in
          match cmp_tokens p_t pfx_t with
          | None => Some None
          | Some _ => skip_prefix_loop fuel' (skip_token p_t) (skip_token pfx_t)
          end
      end
  | _, Some _ => Some None
  | _, None => Some p
  end.

Definition skip_prefix (p pfx : cstr) : option cstr :=
  let p1 := skip_separator (Some p) (Some p) in
  let pfx1 := skip_separator (Some pfx) (Some pfx) in
  match skip_prefix_loop (S (String.length p)) p1 pfx1 with
  | Some r => r
  | None => None
  end.

(** ** Numbers *)

Definition digit_val (c : ascii) : option Z :=
  let n := Z.of_N (N_of_ascii c) in
  if (48 <=? n) && (n <=? 57) then Some (n - 48) else None.

(** [to_num(&p, cnt)]: the value and the position it leaves in [*p]. *)
Fixpoint to_num_loop (cnt : nat) (p : cstr) (res : Z) {struct cnt}
    : Z * cstr :=
  match cnt with
  | O => (res, p)
  | S cnt' =>
      match p with
      | EmptyString => (res, p)
      | String c r =>
          match digit_val c with
          | Some d => to_num_loop cnt' r ((res * 10 mod 256 + d) mod 256)
          | None => (res, p)
          end
      end
  end.

Definition to_num (p : cstr) (cnt : nat) : Z * cstr := to_num_loop cnt p 0.

(** ** Parsing

    Every [return {}] of [Path::parse] is a [ParseError]; [parse] turns it
    into the default-constructed [Path], as the source does. *)

Inductive ParseError :=
| PrefixMismatch      (* prefix does not match, or prefix left over *)
| PrematureEnd        (* just the prefix *)
| NothingAfterSet     (* nothing after the set branch token *)
| MissingSeparator    (* the character after a number or token is not '/' *)
| UnknownTopic
| UnknownTimerTopic.

Definition S_SET_TOK : Token := (S_SET_MODE, String.length S_SET_MODE).

(** The timer branch of [Path::parse], from the topic token on. *)
Definition parse_timer (address : Z) (set_mode : bool) (pos : cstr)
    : ParseError + Path :=
  let tt_topic_t := token pos in
  let pos := advance (snd tt_topic_t) (fst tt_topic_t) in
  if negb (is_sep (deref pos)) then inl MissingSeparator else
  let pos := next pos in
  let d_t := token pos in
  let '(d, pos) := to_num pos (snd d_t) in
  if negb (is_sep (deref pos)) then inl MissingSeparator else
  let pos := next pos in
  let s_t := token pos in
  let '(s, pos) := to_num pos (snd s_t) in
  if negb (is_sep (deref pos)) then inl MissingSeparator else
  let pos := next pos in
  let tt := parse_timer_topic (Some pos) in
  if decide (tt = INVALID_TIMER_TOPIC) then inl UnknownTimerTopic else
  inr (Path_make address TIMER set_mode tt d s).

(** [Path::parse] once the prefix has been skipped. *)
Definition parse_after_prefix (pos : cstr) : ParseError + Path :=
  match pos with
  | EmptyString => inl PrematureEnd
  | _ =>
      let addr_t := token pos in
      let branch :=
        match cmp_tokens addr_t S_SET_TOK with
        | Some _ =>
            match skip_token addr_t with
            | None => None
            | Some pos' => Some (true, pos', token pos')
            end
        | None => Some (false, pos, addr_t)
        end in
      match branch with
      | None => inl NothingAfterSet
      | Some (set_mode, pos, addr_t) =>
          let '(address, pos) := to_num pos (snd addr_t) in
          if negb (is_sep (deref pos)) then inl MissingSeparator else
          let pos := next pos in
          let top := parse_topic pos in
          if decide (top = INVALID_TOPIC) then inl UnknownTopic else
          if decide (top = TIMER) then parse_timer address set_mode pos
          else inr (Path_make3 address top set_mode)
      end
  end.

Definition parse_result (prefix p : cstr) : ParseError + Path :=
  match skip_prefix p prefix with
  | None => inl PrefixMismatch
  | Some pos => parse_after_prefix pos
  end.

Definition parse (prefix p : cstr) : Path :=
  match parse_result prefix p with
  | inl _ => Path_default
  | inr path => path
  end.

(** ** Composing *)

(** Modelled from the spec: [StrMaker] and [Buffer] of [str.h], which is
    not part of [mqtt.h].  The maker appends text to a caller-supplied
    buffer; composing "fails if buffer too small", a [uint8_t] is written
    as its decimal numeral, and a null string pointer adds nothing.  A
    buffer of [size] bytes holds [size - 1] characters and the
    terminator. *)
Definition dec_digit (d : Z) : ascii := ascii_of_N (Z.to_N (48 + d)).

Definition dec_u8 (n : Z) : string :=
  if n <? 10 then String (dec_digit n) EmptyString
  else if n <? 100 then
    String (dec_digit (n / 10)) (String (dec_digit (n mod 10)) EmptyString)
  else
    String (dec_digit (n / 100))
      (String (dec_digit (n / 10 mod 10))
         (String (dec_digit (n mod 10)) EmptyString)).

Definition Str := option string.

Definition StrMaker_str (size : nat) (rv : string) : Str :=
  if (String.length rv <? size)%nat then Some rv else None.

Definition append_opt (rv : string) (s : option cstr) : string :=
  match s with
  | Some s => rv +:+ s
  | None => rv
  end.

Definition compose_set_prefix_wildcard (prefix : cstr) (b : nat) : Str :=
  let rv := EmptyString in
  let rv := rv +:+ prefix in
  let rv := rv +:+ String SEPARATOR EmptyString in
  let rv := rv +:+ S_SET_MODE in
  let rv := rv +:+ String SEPARATOR EmptyString in
  let rv := rv +:+ String WILDCARD EmptyString in
  StrMaker_str b rv.

Definition compose_text (prefix : cstr) (p : Path) : string :=
  let rv := EmptyString in
  let rv := rv +:+ prefix in
  let rv := rv +:+ String SEPARATOR EmptyString in
  let rv :=
    if setter p
    then (rv +:+ S_SET_MODE) +:+ String SEPARATOR EmptyString
    else rv in
  let rv := rv +:+ dec_u8 (addr p) in
  let rv := rv +:+ String SEPARATOR EmptyString in
  let rv := rv +:+ topic_str (topic p) in
  if decide (topic p = TIMER) then
    let rv := rv +:+ String SEPARATOR EmptyString in
    let rv := rv +:+ dec_u8 (day p) in
    let rv := rv +:+ String SEPARATOR EmptyString in
    let rv := rv +:+ dec_u8 (slot p) in
    let rv := rv +:+ String SEPARATOR EmptyString in
    append_opt rv (timer_topic_str (timer_topic p))
  else rv.

Definition compose (prefix : cstr) (b : nat) (p : Path) : Str :=
  StrMaker_str b (compose_text prefix p).

(** * The publisher *)

Abbreviation Path_addr := addr.

(** ** Collaborators of [MQTTPublisher]

    [config.h], [master.h], [error.h] and the transport are not part of
    [mqtt.h]; the publisher is modelled over their interfaces. *)

(** Compile-time constants and the configuration the publisher reads. *)
Class Config := {
  MAX_HR_ADDR : Z;
  MQTT_RECONNECT_TIME : Z;
  MQTT_RETAIN : bool;
  MQTT_JSON : bool;
  TIMER_DAYS : Z;
  TIMER_SLOTS_PER_DAY : Z;
  prefix : cstr;
  mqtt_client_id : cstr;
  mqtt_user : cstr;
  mqtt_pass : cstr;
  sizeof_mqtt_user : nat
}.

(** Modelled from the spec: the change mask of [master.h], "1 bit frequent
    group changed, 8 bits timer day d changed (d = 0..7)". *)
Definition CHANGE_FREQUENT : Z := 1.

Definition CHANGE_TIMER_MASK : Z := 0x1FE.

Definition timer_day_2_change (d : Z) : Z := Z.shiftl 2 d.

Definition change_get_timer_mask (mask : Z) : Z :=
  Z.land (Z.shiftr mask 1) 0xFF.

Inductive Code :=
| MQTT_CONN | MQTT_PUBLISH | MQTT_CALLBACK
| MQTT_CANNOT_CONNECT | MQTT_CANT_PUBLISH | MQTT_INVALID_CLIENT
| MQTT_INVALID_TOPIC | MQTT_CALLBACK_BAD_ADDR | MQTT_INVALID_TIMER_TOPIC
| MQTT_INVALID_TOPIC_VALUE.

(** A value of the device model with its flags; the conversion layer is
    outside, a value is carried as the text it converts to. *)
Record CachedValue := mkCachedValue {
  published : bool;
  remote_valid : bool;
  to_str : string
}.

Definition set_published (b : bool) (v : CachedValue) : CachedValue :=
  {| published := b; remote_valid := remote_valid v; to_str := to_str v |}.

Record TimerSlot := mkTimerSlot {
  slot_published : bool;
  slot_remote_valid : bool;
  remote_mode : string;
  remote_time : string
}.

Definition set_slot_published (b : bool) (v : TimerSlot) : TimerSlot :=
  {| slot_published := b; slot_remote_valid := slot_remote_valid v;
     remote_mode := remote_mode v; remote_time := remote_time v |}.

(** The fields of [HR20] that the publisher uses; [timers] is the table
    [timers[day][slot]]. *)
Record HR20 := mkHR20 {
  auto_mode : CachedValue;
  menu_locked : CachedValue;
  mode_window : CachedValue;
  temp_avg : CachedValue;
  bat_avg : CachedValue;
  temp_wanted : CachedValue;
  cur_valve_wtd : CachedValue;
  ctl_err : CachedValue;
  last_contact : string;
  client_attr : string;
  timers : Z -> Z -> TimerSlot
}.

Inductive Field :=
| F_auto_mode | F_menu_locked | F_mode_window | F_temp_avg | F_bat_avg
| F_temp_wanted | F_cur_valve_wtd | F_ctl_err.

Definition get_field (f : Field) (hr : HR20) : CachedValue :=
  match f with
  | F_auto_mode => auto_mode hr
  | F_menu_locked => menu_locked hr
  | F_mode_window => mode_window hr
  | F_temp_avg => temp_avg hr
  | F_bat_avg => bat_avg hr
  | F_temp_wanted => temp_wanted hr
  | F_cur_valve_wtd => cur_valve_wtd hr
  | F_ctl_err => ctl_err hr
  end.

Definition set_field (f : Field) (v : CachedValue) (hr : HR20) : HR20 :=
  {| auto_mode := if f is F_auto_mode then v else auto_mode hr;
     menu_locked := if f is F_menu_locked then v else menu_locked hr;
     mode_window := if f is F_mode_window then v else mode_window hr;
     temp_avg := if f is F_temp_avg then v else temp_avg hr;
     bat_avg := if f is F_bat_avg then v else bat_avg hr;
     temp_wanted := if f is F_temp_wanted then v else temp_wanted hr;
     cur_valve_wtd := if f is F_cur_valve_wtd then v else cur_valve_wtd hr;
     ctl_err := if f is F_ctl_err then v else ctl_err hr;
     last_contact := last_contact hr;
     client_attr := client_attr hr;
     timers := timers hr |}.

Definition set_timer (d s : Z) (v : TimerSlot) (hr : HR20) : HR20 :=
  {| auto_mode := auto_mode hr; menu_locked := menu_locked hr;
     mode_window := mode_window hr; temp_avg := temp_avg hr;
     bat_avg := bat_avg hr; temp_wanted := temp_wanted hr;
     cur_valve_wtd := cur_valve_wtd hr; ctl_err := ctl_err hr;
     last_contact := last_contact hr; client_attr := client_attr hr;
     timers := fun d' s' =>
       if (d' =? d) && (s' =? s) then v else timers hr d' s' |}.

(** The setters of the device model that the dispatcher calls: each
    reports whether the text converted and leaves the new value. *)
Class DeviceOps := {
  set_requested_from_str : CachedValue -> string -> bool * CachedValue;
  set_timer_mode : HR20 -> Z -> Z -> string -> bool * HR20;
  set_timer_time : HR20 -> Z -> Z -> string -> bool * HR20
}.

(** What the publisher does to its collaborators, in order. *)
Inductive Event :=
| EvConnect (id : cstr) (user pass : option cstr) (ok : bool)
| EvSubscribe (topic : Str)
| EvPublish (topic : Str) (payload : string) (retained : bool) (ok : bool)
| EvERR (code : Code)
| EvERR_ARG (code : Code) (arg : Z)
| EvEVENT (code : Code)
| EvEVENT_ARG (code : Code) (arg : Z)
| EvSetRequested (f : Field) (val : string)
| EvSetTimerMode (d s : Z) (val : string)
| EvSetTimerTime (d s : Z) (val : string).

(** The transport: whether it is connected, what its next calls will
    report, and the messages its next [loop()] delivers. *)
Record PubSubClient := mkClient {
  connected : bool;
  connect_result : bool;
  publish_result : nat -> bool;
  publish_calls : nat;
  inbox : list (cstr * string)
}.

(** ** [struct MQTTPublisher] *)

Module MQTTPublisher.

Inductive StateMajor := STM_FREQ | STM_TIMER | STM_NEXT_CLIENT.

Definition StateMajor_code (m : StateMajor) : Z :=
  match m with
  | STM_FREQ => 0
  | STM_TIMER => 1
  | STM_NEXT_CLIENT => 2
  end.

(** The members of the publisher, the device model it refers to, and the
    log of what it has done. *)
Record t := mk {
  states : list Z;
  addr : Z;
  state_maj : Z;
  state_min : Z;
  last_conn : Z;
  model : gmap Z HR20;
  client : PubSubClient;
  log : list Event
}.

Definition with_states (v : list Z) (w : t) : t :=
  mk v (addr w) (state_maj w) (state_min w) (last_conn w) (model w)
     (client w) (log w).

Definition with_addr (v : Z) (w : t) : t :=
  mk (states w) v (state_maj w) (state_min w) (last_conn w) (model w)
     (client w) (log w).

Definition with_state_maj (v : Z) (w : t) : t :=
  mk (states w) (addr w) v (state_min w) (last_conn w) (model w)
     (client w) (log w).

Definition with_state_min (v : Z) (w : t) : t :=
  mk (states w) (addr w) (state_maj w) v (last_conn w) (model w)
     (client w) (log w).

Definition with_last_conn (v : Z) (w : t) : t :=
  mk (states w) (addr w) (state_maj w) (state_min w) v (model w)
     (client w) (log w).

Definition with_model (v : gmap Z HR20) (w : t) : t :=
  mk (states w) (addr w) (state_maj w) (state_min w) (last_conn w) v
     (client w) (log w).

Definition with_client (v : PubSubClient) (w : t) : t :=
  mk (states w) (addr w) (state_maj w) (state_min w) (last_conn w) (model w)
     v (log w).

Definition emit (e : Event) (w : t) : t :=
  mk (states w) (addr w) (state_maj w) (state_min w) (last_conn w) (model w)
     (client w) (log w ++ [e]).

(** [states[a]] and [states[a] = v]; [a] is below [MAX_HR_ADDR], the
    length of the array, wherever the publisher indexes it. *)
Definition states_get (a : Z) (w : t) : Z :=
  default 0 (states w !! Z.to_nat a).

Definition states_set (a : Z) (v : Z) (w : t) : t :=
  with_states (<[Z.to_nat a := v]> (states w)) w.

Definition u8 (z : Z) : Z := z mod 256.

Section Publisher.

Context `{cfg : Config} `{ops : DeviceOps}.

(** *** The transport *)

Definition client_connect (id : cstr) (user pass : option cstr) (w : t)
    : bool * t :=
  let c := client w in
  let ok := connect_result c in
  (ok,
   emit (EvConnect id user pass ok)
     (with_client
        (mkClient ok (connect_result c) (publish_result c) (publish_calls c)
           (inbox c)) w)).

Definition client_subscribe (topic : Str) (w : t) : t :=
  emit (EvSubscribe topic) w.

Definition client_publish (topic : Str) (payload : string) (retained : bool)
    (w : t) : bool * t :=
  let c := client w in
  let ok := publish_result c (publish_calls c) in
  (ok,
   emit (EvPublish topic payload retained ok)
     (with_client
        (mkClient (connected c) (connect_result c) (publish_result c)
           (S (publish_calls c)) (inbox c)) w)).

(** *** The connection manager *)

Definition strnlen (s : cstr) (maxlen : nat) : nat :=
  Nat.min (String.length s) maxlen.

Definition reconnect (now : Z) (w : t) : bool * t :=
  if negb (connected (client w)) then
    if now - last_conn w <? MQTT_RECONNECT_TIME then (false, w)
    else
      let w := with_last_conn now w in
      let unl := strnlen mqtt_user sizeof_mqtt_user in
      let '(user, pass) :=
        if (0 <? unl)%nat && (unl <? sizeof_mqtt_user)%nat
        then (Some mqtt_user, Some mqtt_pass)
        else (None, None) in
      let '(ok, w) := client_connect mqtt_client_id user pass w in
      if negb ok then (false, emit (EvERR MQTT_CANNOT_CONNECT) w)
      else
        let w := emit (EvEVENT MQTT_CONN) w in
        let path := compose_set_prefix_wildcard prefix MAX_MQTT_PATH_LENGTH in
        (true, client_subscribe path w)
  else (true, w).

(** *** The cursor *)

Definition next_client (w : t) : t :=
  let a := u8 (addr w + 1) in
  let a := if MAX_HR_ADDR <=? a then 0 else a in
  with_state_min 0 (with_state_maj (StateMajor_code STM_FREQ) (with_addr a w)).

Definition next_major (w : t) : t :=
  let w := with_state_min 0 w in
  let w := with_state_maj (u8 (state_maj w + 1)) w in
  if StateMajor_code STM_NEXT_CLIENT <=? state_maj w then next_client w else w.

(** *** Publishing *)

(** [publish(const Str &path, CachedValue &val, hint)]: the value with its
    flag as the call leaves it. *)
Definition publish_value (path : Str) (val : CachedValue) (hint : Z) (w : t)
    : CachedValue * t :=
  if published val || negb (remote_valid val) then (val, w)
  else
    let '(ok, w) := client_publish path (to_str val) MQTT_RETAIN w in
    let w :=
      if ok then emit (EvEVENT_ARG MQTT_PUBLISH hint) w
      else emit (EvERR_ARG MQTT_CANT_PUBLISH hint) w in
    (set_published true val, w).

(** [publish(const Path &p, CachedValue &val)] and [publish_synced]: [val]
    is the field [f] of the device [hr], which the model holds at [a]. *)
Definition publish (p : Path) (f : Field) (a : Z) (hr : HR20) (w : t) : t :=
  let path := compose prefix MAX_MQTT_PATH_LENGTH p in
  let '(val, w) := publish_value path (get_field f hr) (as_uint p) w in
  with_model (<[a := set_field f val hr]> (model w)) w.

Definition publish_synced (p : Path) (f : Field) (a : Z) (hr : HR20) (w : t)
    : t :=
  publish p f a hr w.

(** [publish(const Path &p, const Str &val)]. *)
Definition publish_str (p : Path) (val : string) (w : t) : t :=
  let path := compose prefix MAX_MQTT_PATH_LENGTH p in
  let '(ok, w) := client_publish path val MQTT_RETAIN w in
  if ok then emit (EvEVENT_ARG MQTT_PUBLISH (as_uint p)) w
  else emit (EvERR_ARG MQTT_CANT_PUBLISH (as_uint p)) w.

Definition with_topic (tp : Topic) (p : Path) : Path :=
  mkPath (Path_addr p) (day p) (slot p) tp (timer_topic p) (setter p).

Definition with_timer_topic (tt : TimerTopic) (p : Path) : Path :=
  mkPath (Path_addr p) (day p) (slot p) (topic p) tt (setter p).

Definition publish_timer_slot (p : Path) (val : TimerSlot) (w : t)
    : TimerSlot * t :=
  let mode_path := with_timer_topic TIMER_MODE p in
  let time_path := with_timer_topic TIMER_TIME p in
  if negb (slot_published val) && slot_remote_valid val then
    let mode := remote_mode val in
    let path := compose prefix MAX_MQTT_PATH_LENGTH mode_path in
    let '(err, w) := client_publish path mode MQTT_RETAIN w in
    let path := compose prefix MAX_MQTT_PATH_LENGTH time_path in
    let time := remote_time val in
    let '(err1, w) := client_publish path time MQTT_RETAIN w in
    let w :=
      if negb err || negb err1
      then emit (EvERR_ARG MQTT_CANT_PUBLISH (as_uint p)) w
      else emit (EvEVENT_ARG MQTT_PUBLISH (as_uint p)) w in
    (set_slot_published true val, w)
  else (val, w).

Definition next_min_state (w : t) : t :=
  with_state_min (u8 (state_min w + 1)) w.

(** The [switch (state_min)] of the frequent walk: every case ends in
    [break], the case 9 exists under [MQTT_JSON] only. *)
Definition publish_frequent (w : t) : t :=
  if Z.land (states_get (addr w) w) CHANGE_FREQUENT =? 0 then next_major w
  else
    let a := addr w in
    match model w !! a with
    | None => emit (EvERR MQTT_INVALID_CLIENT) w
    | Some hr =>
        let p := Path_make3 a INVALID_TOPIC false in
        let n := state_min w in
        if n =? 0 then
          next_min_state (publish_synced (with_topic MODE p) F_auto_mode a hr w)
        else if n =? 1 then
          next_min_state (publish_synced (with_topic LOCK p) F_menu_locked a hr w)
        else if n =? 2 then
          next_min_state (publish (with_topic WND p) F_mode_window a hr w)
        else if n =? 3 then
          next_min_state (publish (with_topic AVG_TMP p) F_temp_avg a hr w)
        else if n =? 4 then
          next_min_state (publish (with_topic BAT p) F_bat_avg a hr w)
        else if n =? 5 then
          next_min_state
            (publish_synced (with_topic REQ_TMP p) F_temp_wanted a hr w)
        else if n =? 6 then
          next_min_state (publish (with_topic VALVE_WTD p) F_cur_valve_wtd a hr w)
        else if n =? 7 then
          next_min_state (publish (with_topic ERR p) F_ctl_err a hr w)
        else if n =? 8 then
          next_min_state
            (publish_str (with_topic LAST_SEEN p) (last_contact hr) w)
        else if (n =? 9) && MQTT_JSON then
          next_min_state (publish_str (with_topic STATE p) (client_attr hr) w)
        else
          next_major
            (states_set a (Z.land (states_get a w) (Z.lnot CHANGE_FREQUENT)) w)
    end.

Definition publish_timers (w : t) : t :=
  let a := addr w in
  match model w !! a with
  | None => emit (EvERR MQTT_INVALID_CLIENT) w
  | Some hr =>
      if Z.land (states_get a w) CHANGE_TIMER_MASK =? 0
      then next_major w
      else
        let day := Z.shiftr (state_min w) 3 in
        let slot := Z.land (state_min w) 0x7 in
        let w := next_min_state w in
        let mask := change_get_timer_mask (states_get a w) in
        if 8 <=? day then next_major w
        else if Z.land (Z.shiftl 1 day) mask =? 0 then w
        else
          let w :=
            if slot =? 7
            then states_set a
                   (Z.land (states_get a w) (Z.lnot (timer_day_2_change day))) w
            else w in
          let p := Path_make a TIMER false TIMER_NONE day slot in
          let '(val, w) := publish_timer_slot p (timers hr day slot) w in
          with_model (<[a := set_timer day slot val hr]> (model w)) w
  end.

(** *** The dispatcher *)

Definition store (a : Z) (hr : HR20) (w : t) : t :=
  with_model (<[a := hr]> (model w)) w.

(** [hr->f.set_requested_from_str(val)]. *)
Definition call_set_requested (a : Z) (f : Field) (hr : HR20) (val : string)
    (w : t) : bool * t :=
  let '(ok, v) := set_requested_from_str (get_field f hr) val in
  (ok, store a (set_field f v hr) (emit (EvSetRequested f val) w)).

Definition call_set_timer_mode (a : Z) (hr : HR20) (d s : Z) (val : string)
    (w : t) : bool * t :=
  let '(ok, hr') := set_timer_mode hr d s val in
  (ok, store a hr' (emit (EvSetTimerMode d s val) w)).

Definition call_set_timer_time (a : Z) (hr : HR20) (d s : Z) (val : string)
    (w : t) : bool * t :=
  let '(ok, hr') := set_timer_time hr d s val in
  (ok, store a hr' (emit (EvSetTimerTime d s val) w)).

(** The end of [callback], behind its [switch]. *)
Definition callback_done (p : Path) (ok : bool) (w : t) : t :=
  let w := emit (EvEVENT_ARG MQTT_CALLBACK (as_uint p)) w in
  if negb ok then emit (EvERR_ARG MQTT_INVALID_TOPIC_VALUE (as_uint p)) w
  else w.

Definition callback (topic_ : cstr) (payload : string) (w : t) : t :=
  let p := parse prefix topic_ in
  if negb (valid p) then emit (EvERR MQTT_INVALID_TOPIC) w
  else if negb (setter p) then emit (EvERR MQTT_INVALID_TOPIC) w
  else
    match model w !! Path_addr p with
    | None => emit (EvERR MQTT_CALLBACK_BAD_ADDR) w
    | Some hr =>
        let a := Path_addr p in
        let val := payload in
        match topic p with
        | REQ_TMP =>
            let '(ok, w) := call_set_requested a F_temp_wanted hr val w in
            callback_done p ok w
        | MODE =>
            let '(ok, w) := call_set_requested a F_auto_mode hr val w in
            callback_done p ok w
        | LOCK =>
            let '(ok, w) := call_set_requested a F_menu_locked hr val w in
            callback_done p ok w
        | TIMER =>
            if TIMER_DAYS <=? day p then
              callback_done p true
                (emit (EvERR_ARG MQTT_INVALID_TIMER_TOPIC (Z.lor (day p) 0x10)) w)
            else if TIMER_SLOTS_PER_DAY <=? slot p then
              callback_done p true
                (emit (EvERR_ARG MQTT_INVALID_TIMER_TOPIC (Z.lor (slot p) 0x20)) w)
            else
              match timer_topic p with
              | TIMER_MODE =>
                  let '(ok, w) :=
                    call_set_timer_mode a hr (day p) (slot p) val w in
                  callback_done p ok w
              | TIMER_TIME =>
                  let '(ok, w) :=
                    call_set_timer_time a hr (day p) (slot p) val w in
                  callback_done p ok w
              | _ =>
                  callback_done p true
                    (emit (EvERR MQTT_INVALID_TIMER_TOPIC) w)
              end
        | _ => emit (EvERR MQTT_INVALID_TOPIC) w
        end
    end.

(** [client.loop()]: the transport hands every message it has received to
    the callback. *)
Definition client_loop (w : t) : t :=
  let c := client w in
  let w :=
    with_client
      (mkClient (connected c) (connect_result c) (publish_result c)
         (publish_calls c) []) w in
  fold_left (fun w m => callback (fst m) (snd m) w) (inbox c) w.

(** *** The scheduler tick *)

Definition update (now : Z) (w : t) : t :=
  let '(ready, w) := reconnect now w in
  if negb ready then w
  else
    let w := client_loop w in
    if states_get (addr w) w =? 0 then next_client w
    else if state_maj w =? StateMajor_code STM_FREQ then publish_frequent w
    else if state_maj w =? StateMajor_code STM_TIMER then publish_timers w
    else next_client w.

(** *** Construction and the change notification *)

(** [MQTTPublisher(config, master)]: the loop of the constructor clears
    the [MAX_HR_ADDR] change masks, the cursor and [last_conn] have their
    member initialisers; [md] and [c] are the device model and the
    transport the publisher is built on. *)
Definition construct (md : gmap Z HR20) (c : PubSubClient) : t :=
  mk (replicate (Z.to_nat MAX_HR_ADDR) 0) 0 0 0 0 md c [].

(** The function [begin] registers with [master.proto.set_callback]:
    [states[addr] |= mask].  The protocol reports addresses below
    [MAX_HR_ADDR]; the masks are [uint32_t], as is their union. *)
Definition change_callback (a : Z) (mask : Z) (w : t) : t :=
  states_set a (Z.lor (states_get a w) mask) w.

End Publisher.

(** The cursor of the scheduler. *)
Definition cursor (w : t) : Z * Z * Z := (addr w, state_maj w, state_min w).

Definition is_publish (e : Event) : bool :=
  match e with
  | EvPublish _ _ _ _ => true
  | _ => false
  end.

Fixpoint publishes (l : list Event) : nat :=
  match l with
  | [] => O
  | e :: r => ((if is_publish e then 1 else 0) + publishes r)%nat
  end.

(** The publish calls made so far. *)
Definition attempts (w : t) : nat := publishes (log w).

End MQTTPublisher.

(** * Notions for the statements

    What the properties below are stated with: texts and their parts,
    numerals, the valid paths, and for the publisher the
    frame of a call, the order of the cursor and a small installation to
    run it on. *)

(** ** Texts *)

(** The first [n] characters of [p]. *)
Fixpoint take_n (n : nat) (p : cstr) {struct n} : cstr :=
  match n, p with
  | S n', String c r => String c (take_n n' r)
  | _, _ => EmptyString
  end.

(** The separator as a text. *)
Definition sep_str : cstr := String SEPARATOR EmptyString.

(** No separator occurs in [t]. *)
Definition no_sep (t : cstr) : Prop := span t = String.length t.

(** [p] is at the end of a token or at a separator. *)
Definition at_boundary (p : cstr) : Prop :=
  p = EmptyString \/ is_sep (deref p) = true.

(** [a] is what remains of [b] from some position on. *)
Definition suffix_of (a b : cstr) : Prop := exists y, b = y +:+ a.

Fixpoint last_char (s : cstr) : ascii :=
  match s with
  | EmptyString => zero
  | String c EmptyString => c
  | String _ r => last_char r
  end.

(** A prefix the composer and the parser agree on: it ends in a token (so
    it is not empty and has no trailing separator) and its length fits the
    eight bits of a token length. *)
Fixpoint ends_in_token (s : cstr) : bool :=
  match s with
  | EmptyString => false
  | String c EmptyString => negb (is_sep c)
  | String _ r => ends_in_token r
  end.

Definition good_prefix (pfx : cstr) : Prop :=
  ends_in_token pfx = true /\ (String.length pfx < 256)%nat.

(** ** Numerals *)

Definition is_digit (c : ascii) : bool :=
  match digit_val c with
  | Some _ => true
  | None => false
  end.

Fixpoint all_digits (ds : cstr) : bool :=
  match ds with
  | EmptyString => true
  | String c r => is_digit c && all_digits r
  end.

(** The number a string of digits denotes, read on from [acc]. *)
Fixpoint digits_value (ds : cstr) (acc : Z) : Z :=
  match ds with
  | EmptyString => acc
  | String c r =>
      match digit_val c with
      | Some d => digits_value r (acc * 10 + d)
      | None => acc
      end
  end.

(** The numerals the composer writes, checked for every [uint8_t]. *)
Definition dec_u8_ok (n : Z) : bool :=
  all_digits (dec_u8 n)
  && (digits_value (dec_u8 n) 0 =? n)
  && (1 <=? String.length (dec_u8 n))%nat
  && (String.length (dec_u8 n) <=? 3)%nat.

(** ** Paths *)

(** What [Path::parse] does from the topic name on, once the address has
    been read. *)
Definition topic_part (address : Z) (set_mode : bool) (pos : cstr)
    : ParseError + Path :=
  let top := parse_topic pos in
  if decide (top = INVALID_TOPIC) then inl UnknownTopic else
  if decide (top = TIMER) then parse_timer address set_mode pos
  else inr (Path_make3 address top set_mode).

Definition timer_sub (tt : TimerTopic) : Prop :=
  tt = TIMER_TIME \/ tt = TIMER_MODE.

(** The valid paths of the specification: an address in 1..31, a real
    topic, and timer fields that fit the topic. *)
Definition valid_Path (p : Path) : Prop :=
  1 <= addr p <= 31
  /\ topic p <> INVALID_TOPIC
  /\ (topic p <> TIMER ->
      day p = 0 /\ slot p = 0 /\ timer_topic p = TIMER_NONE)
  /\ (topic p = TIMER ->
      0 <= day p < 8 /\ 0 <= slot p < 8 /\ timer_sub (timer_topic p)).

(** The paths the codec can carry: every number fits its [uint8_t]. *)
Definition Path_wf (p : Path) : Prop :=
  0 <= addr p < 256
  /\ topic p <> INVALID_TOPIC
  /\ (topic p <> TIMER ->
      day p = 0 /\ slot p = 0 /\ timer_topic p = TIMER_NONE)
  /\ (topic p = TIMER ->
      0 <= day p < 256 /\ 0 <= slot p < 256 /\ timer_sub (timer_topic p)).

(** What [compose] writes behind the prefix and its separator. *)
Definition compose_tail (p : Path) : string :=
  (if setter p then S_SET_MODE +:+ sep_str else EmptyString)
  +:+ dec_u8 (addr p)
  +:+ String SEPARATOR
        (topic_str (topic p)
         +:+ (if decide (topic p = TIMER)
              then String SEPARATOR
                     (dec_u8 (day p)
                      +:+ String SEPARATOR
                            (dec_u8 (slot p)
                             +:+ String SEPARATOR
                                   (default EmptyString
                                      (timer_topic_str (timer_topic p)))))
              else EmptyString)).

(** A path the parser returns, described field by field, with the name
    that ends the text it was read from. *)
Definition parsed_from (pos : cstr) (p : Path) : Prop :=
  0 <= addr p < 256
  /\ topic p <> INVALID_TOPIC
  /\ ((topic p <> TIMER /\ day p = 0 /\ slot p = 0
       /\ timer_topic p = TIMER_NONE /\ suffix_of (topic_str (topic p)) pos)
      \/ (topic p = TIMER /\ timer_sub (timer_topic p)
          /\ 0 <= day p < 256 /\ 0 <= slot p < 256
          /\ exists sub, timer_topic_str (timer_topic p) = Some sub
                         /\ suffix_of sub pos)).

(** The last character of a topic or timer sub-topic name. *)
Definition name_end (c : ascii) : bool :=
  existsb (Ascii.eqb c)
    (map chr ["p"; "y"; "r"; "k"; "e"; "d"; "w"; "n"]%string).

Definition wrong_topic : cstr := "wrongprefix/5/lock".

(** A path with its [setter] flag replaced. *)
Definition with_setter (b : bool) (p : Path) : Path :=
  mkPath (addr p) (day p) (slot p) (topic p) (timer_topic p) b.

(** What stands in front of the address token: the set branch or nothing. *)
Definition branch_text (sm : bool) : cstr :=
  if sm then S_SET_MODE +:+ sep_str else EmptyString.

(** The texts [Path::parse] reads behind the prefix, and the path each is
    read as.  The address, the day and the slot are any run of fewer than
    256 digits, the empty run included, and count modulo 256; a plain topic
    is named in full; a timer topic is a token that starts with "timer",
    followed by day, slot and the name of the sub-topic. *)
Inductive topic_text : cstr -> Path -> Prop :=
| text_plain (sm : bool) (ds : cstr) (t : Topic) :
    all_digits ds = true -> (String.length ds < 256)%nat ->
    t <> INVALID_TOPIC -> t <> TIMER ->
    topic_text
      (branch_text sm +:+ ds +:+ String SEPARATOR (topic_str t))
      (Path_make3 (digits_value ds 0 mod 256) t sm)
| text_timer (sm : bool) (ds junk d sl : cstr) (tt : TimerTopic) (sub : cstr) :
    all_digits ds = true -> (String.length ds < 256)%nat ->
    no_sep junk -> (String.length junk < 251)%nat ->
    all_digits d = true -> (String.length d < 256)%nat ->
    all_digits sl = true -> (String.length sl < 256)%nat ->
    timer_topic_str tt = Some sub ->
    topic_text
      (branch_text sm +:+ ds
       +:+ String SEPARATOR
             ((S_TIMER +:+ junk)
              +:+ String SEPARATOR
                    (d +:+ String SEPARATOR (sl +:+ String SEPARATOR sub))))
      (Path_make (digits_value ds 0 mod 256) TIMER sm tt
         (digits_value d 0 mod 256) (digits_value sl 0 mod 256)).

(** ** The publisher *)

Module PublisherDefs.
Import MQTTPublisher.

(** What the connection manager and the dispatcher leave alone: the change
    masks, the cursor, the number of publish calls, and which addresses
    have a device. *)
Definition frame (w w' : t) : Prop :=
  states w' = states w /\ cursor w' = cursor w
  /\ attempts w' = attempts w /\ dom (model w') = dom (model w).

(** Whether [reconnect] passes the configured user and password on: the
    user name is not empty and is terminated inside its field. *)
Definition has_credentials `{cfg : Config} : bool :=
  let unl := strnlen mqtt_user sizeof_mqtt_user in
  (0 <? unl)%nat && (unl <? sizeof_mqtt_user)%nat.

(** [w] with a transport that answers the publish calls by [results]. *)
Definition with_publish_result (results : nat -> bool) (w : t) : t :=
  with_client
    (mkClient (connected (client w)) (connect_result (client w)) results
       (publish_calls (client w)) (inbox (client w))) w.

(** A small installation to run the publisher on: 29 addresses, 8 days of
    8 slots, the prefix "hr20", no credentials. *)
Definition demo_config : Config :=
  {| MAX_HR_ADDR := 29; MQTT_RECONNECT_TIME := 10; MQTT_RETAIN := true;
     MQTT_JSON := false; TIMER_DAYS := 8; TIMER_SLOTS_PER_DAY := 8;
     prefix := "hr20"; mqtt_client_id := "hr20"; mqtt_user := "";
     mqtt_pass := ""; sizeof_mqtt_user := 20 |}.

(** Setters that accept every text and leave the device as it is. *)
Definition demo_ops : DeviceOps :=
  {| set_requested_from_str := fun v _ => (true, v);
     set_timer_mode := fun hr _ _ _ => (true, hr);
     set_timer_time := fun hr _ _ _ => (true, hr) |}.

Definition demo_value (text : string) : CachedValue :=
  {| published := false; remote_valid := true; to_str := text |}.

Definition demo_device : HR20 :=
  {| auto_mode := demo_value "auto"; menu_locked := demo_value "0";
     mode_window := demo_value "0"; temp_avg := demo_value "2150";
     bat_avg := demo_value "2900"; temp_wanted := demo_value "42";
     cur_valve_wtd := demo_value "30"; ctl_err := demo_value "0";
     last_contact := "1700000000"; client_attr := "{}";
     timers := fun _ _ =>
       {| slot_published := false; slot_remote_valid := true;
          remote_mode := "1"; remote_time := "06:30" |} |}.

Definition demo_client (conn : bool) (results : nat -> bool) : PubSubClient :=
  {| connected := conn; connect_result := true; publish_result := results;
     publish_calls := 0; inbox := [] |}.

(** A publisher at address 3, with a device at 3 only. *)
Definition demo (mask maj min : Z) (conn : bool) (results : nat -> bool) : t :=
  {| states := [0; 0; 0; mask; 0]; addr := 3; state_maj := maj;
     state_min := min; last_conn := 0; model := {[3 := demo_device]};
     client := demo_client conn results; log := [] |}.

(** As [demo], with a device at address 1 and none at address 3. *)
Definition demo_no_device (mask maj min : Z) : t :=
  {| states := [0; 0; 0; mask; 0]; addr := 3; state_maj := maj;
     state_min := min; last_conn := 0; model := {[1 := demo_device]};
     client := demo_client true (fun _ => true); log := [] |}.

Section Scheduler.
Context `{cfg : Config} `{ops : DeviceOps}.

(** [update] behind the connection manager and the poll of the
    transport. *)
Definition schedule (w : t) : t :=
  if states_get (addr w) w =? 0 then next_client w
  else if state_maj w =? StateMajor_code STM_FREQ then publish_frequent w
  else if state_maj w =? StateMajor_code STM_TIMER then publish_timers w
  else next_client w.

(** The address after [a] in the round over the devices. *)
Definition next_addr (a : Z) : Z :=
  let a := u8 (a + 1) in
  if MAX_HR_ADDR <=? a then 0 else a.

(** The minor states at which the frequent walk handles a field. *)
Definition in_frequent_walk (n : Z) : bool :=
  (n =? 0) || (n =? 1) || (n =? 2) || (n =? 3) || (n =? 4) || (n =? 5)
  || (n =? 6) || (n =? 7) || (n =? 8) || ((n =? 9) && MQTT_JSON).

(** The position that follows the cursor of [w] in the order address,
    major state, minor state: the next field or slot, else the next major
    state, and behind the timers the next address. *)
Definition successor (w : t) : Z * Z * Z :=
  if state_maj w =? StateMajor_code STM_FREQ then
    if Z.land (states_get (addr w) w) CHANGE_FREQUENT =? 0
    then (addr w, StateMajor_code STM_TIMER, 0)
    else if in_frequent_walk (state_min w)
         then (addr w, StateMajor_code STM_FREQ, u8 (state_min w + 1))
         else (addr w, StateMajor_code STM_TIMER, 0)
  else
    if (Z.land (states_get (addr w) w) CHANGE_TIMER_MASK =? 0)
       || (8 <=? Z.shiftr (state_min w) 3)
    then (next_addr (addr w), StateMajor_code STM_FREQ, 0)
    else (addr w, StateMajor_code STM_TIMER, u8 (state_min w + 1)).

End Scheduler.

End PublisherDefs.

(** ** Serving the devices *)

Module ServiceDefs.
Import MQTTPublisher PublisherDefs.

(** A timer slot the timer walk has nothing left to do for. *)
Definition slot_done (v : TimerSlot) : Prop :=
  slot_published v = true \/ slot_remote_valid v = false.

(** A cached value the frequent walk has nothing left to do for. *)
Definition value_done (v : CachedValue) : Prop :=
  published v = true \/ remote_valid v = false.

(** What a publish call leaves of the transport as it was. *)
Definition same_transport (c c' : PubSubClient) : Prop :=
  connected c' = connected c /\ connect_result c' = connect_result c
  /\ publish_result c' = publish_result c /\ inbox c' = inbox c.

#[global] Instance Field_eq_dec : EqDecision Field.
Proof. solve_decision. Defined.

(** The minor state at which the frequent walk handles a cached value,
    and the topic it publishes the value under. *)
Definition field_state (f : Field) : Z :=
  match f with
  | F_auto_mode => 0 | F_menu_locked => 1 | F_mode_window => 2
  | F_temp_avg => 3 | F_bat_avg => 4 | F_temp_wanted => 5
  | F_cur_valve_wtd => 6 | F_ctl_err => 7
  end.

Definition field_topic (f : Field) : Topic :=
  match f with
  | F_auto_mode => MODE | F_menu_locked => LOCK | F_mode_window => WND
  | F_temp_avg => AVG_TMP | F_bat_avg => BAT | F_temp_wanted => REQ_TMP
  | F_cur_valve_wtd => VALVE_WTD | F_ctl_err => ERR
  end.

Section Service.
Context `{cfg : Config} `{ops : DeviceOps}.

(** A publication about the device at [a]: retained as configured, on the
    topic composed for a path of that address outside the set branch. *)
Definition about_device (a : Z) (e : Event) : Prop :=
  match e with
  | EvPublish tp _ retained _ =>
      retained = MQTT_RETAIN
      /\ exists p, Path_addr p = a /\ setter p = false
                   /\ tp = compose prefix MAX_MQTT_PATH_LENGTH p
  | _ => True
  end.

(** [w'] has the log of [w] and, behind it, entries that satisfy [P]. *)
Definition log_extends (P : Event -> Prop) (w w' : t) : Prop :=
  exists l, log w' = log w ++ l /\ Forall P l.

(** One call of [update] per entry of [nows], the times of the ticks. *)
Definition ticks (nows : list Z) (w : t) : t :=
  fold_left (fun w now => update now w) nows w.

(** The calls of [publish_frequent] from minor state 0 to the end of the
    frequent walk: one per minor state and the one that ends the walk. *)
Definition frequent_steps : nat := if MQTT_JSON then 11%nat else 10%nat.

(** The cursor is on an address of the installation, in one of the two
    walks and inside it. *)
Definition cursor_ok (w : t) : Prop :=
  0 <= addr w < MAX_HR_ADDR
  /\ ((state_maj w = StateMajor_code STM_FREQ /\ 0 <= state_min w <= 10)
      \/ (state_maj w = StateMajor_code STM_TIMER /\ 0 <= state_min w <= 64)).

(** The change bits the two walks serve. *)
Definition CHANGE_SERVED : Z := Z.lor CHANGE_FREQUENT CHANGE_TIMER_MASK.

(** The walks are at work on the device at [a]: the transport is
    connected, the device exists, and the timer walk has left behind it no
    frequent bit and no bit of a day it has passed. *)
Definition serving (a : Z) (w : t) : Prop :=
  addr w = a /\ 0 <= a /\ (Z.to_nat a < length (states w))%nat
  /\ connected (client w) = true /\ is_Some (model w !! a)
  /\ ((state_maj w = StateMajor_code STM_FREQ /\ 0 <= state_min w <= 10)
      \/ (state_maj w = StateMajor_code STM_TIMER /\ 0 <= state_min w <= 64
          /\ Z.land (states_get a w) CHANGE_FREQUENT = 0
          /\ forall d, 0 <= d < Z.shiftr (state_min w) 3 ->
                       Z.testbit (states_get a w) (d + 1) = false)).

(** The ticks the walks can still take on the device at the cursor. *)
Definition ticks_left (w : t) : nat :=
  if state_maj w =? StateMajor_code STM_FREQ
  then Z.to_nat (76 - state_min w) else Z.to_nat (65 - state_min w).

(** The states of a publisher in use: built by the constructor, then
    ticked by the main loop, notified of changes by the protocol, with the
    device model and the transport changing under it. *)
Inductive reachable : t -> Prop :=
| reach_construct md c : reachable (construct md c)
| reach_update now w : reachable w -> reachable (update now w)
| reach_change a mask w :
    reachable w -> 0 <= a < MAX_HR_ADDR -> reachable (change_callback a mask w)
| reach_model md w : reachable w -> reachable (with_model md w)
| reach_client c w : reachable w -> reachable (with_client c w).

End Service.
End ServiceDefs.

(** * Properties of the codec *)

Example parse_mode :
  parse "hr20" "hr20/5/mode" = Path_make3 5 MODE false.
Proof. reflexivity. Qed.

Example parse_set_timer :
  parse "hr20" "hr20/set/12/timer/3/7/time"
  = Path_make 12 TIMER true TIMER_TIME 3 7.
Proof. reflexivity. Qed.

Example compose_timer :
  compose "hr20" 128 (Path_make 12 TIMER true TIMER_TIME 3 7)
  = Some "hr20/set/12/timer/3/7/time".
Proof. reflexivity. Qed.

Example parse_trailing_prefix :
  parse "hr20/" "hr20//5/mode" = Path_default
  /\ parse "hr20/" "hr20/5/mode" = Path_make3 5 MODE false
  /\ parse "/hr20" "/hr20/5/mode" = Path_make3 5 MODE false
  /\ parse "" "/5/mode" = Path_default
  /\ parse "a//b" "a//b/5/mode" = Path_make3 5 MODE false
  /\ parse "/wrongprefix" "wrongprefix/5/lock" = Path_make3 5 LOCK false
  /\ parse "hr20" "hr20/0/mode" = Path_make3 0 MODE false
  /\ parse "hr20" "hr20/257/mode" = Path_make3 1 MODE false
  /\ parse "hr20" "hr20/5/timerXYZ/9/200/mode"
     = Path_make 5 TIMER false TIMER_MODE 9 200.
Proof. repeat split; reflexivity. Qed.

(** ** Strings, spans and suffixes *)

Lemma append_nil_l (s : string) : EmptyString +:+ s = s.
Proof. reflexivity. Qed.

Lemma append_cons (c : ascii) (a b : string) :
  String c a +:+ b = String c (a +:+ b).
Proof. reflexivity. Qed.

Lemma append_nil_r (s : string) : s +:+ EmptyString = s.
Proof. induction s as [|c s IH]; simpl; [reflexivity | now rewrite IH]. Qed.

Lemma append_assoc (a b c : string) : (a +:+ b) +:+ c = a +:+ (b +:+ c).
Proof. induction a as [|x a IH]; simpl; [reflexivity | now rewrite IH]. Qed.

Lemma length_append (a b : string) :
  String.length (a +:+ b) = (String.length a + String.length b)%nat.
Proof. induction a as [|x a IH]; simpl; [reflexivity | now rewrite IH]. Qed.

Lemma take_advance (n : nat) (p : cstr) : take_n n p +:+ advance n p = p.
Proof.
  revert p; induction n as [|n IH]; intros [|c r]; simpl; try reflexivity.
  now rewrite IH.
Qed.

Lemma span_le (p : cstr) : (span p <= String.length p)%nat.
Proof.
  induction p as [|c r IH]; simpl; [lia |].
  destruct (is_sep c); lia.
Qed.

Lemma span_boundary (r : cstr) : at_boundary r -> span r = O.
Proof.
  intros [-> | H]; [reflexivity |].
  destruct r; simpl in *; [reflexivity | now rewrite H].
Qed.

Lemma span_no_sep_append (t r : cstr) :
  no_sep t -> at_boundary r -> span (t +:+ r) = String.length t.
Proof.
  unfold no_sep. intros Ht Hr.
  induction t as [|c t IH]; simpl in *; [now apply span_boundary |].
  destruct (is_sep c); [discriminate |].
  f_equal. apply IH. lia.
Qed.

Lemma span_append_sep (s r : cstr) : span (s +:+ String SEPARATOR r) = span s.
Proof.
  induction s as [|c s IH]; simpl; [reflexivity |].
  destruct (is_sep c); [reflexivity | now rewrite IH].
Qed.

Lemma advance_append (n : nat) (s r : cstr) :
  (n <= String.length s)%nat -> advance n (s +:+ r) = advance n s +:+ r.
Proof.
  revert s; induction n as [|n IH]; intros s H; [reflexivity |].
  destruct s as [|c s]; simpl in *; [lia |].
  apply IH; lia.
Qed.

Lemma advance_length (s r : cstr) : advance (String.length s) (s +:+ r) = r.
Proof. induction s as [|c s IH]; simpl; [now destruct r | exact IH]. Qed.

Lemma advance_span_boundary (q : cstr) : at_boundary (advance (span q) q).
Proof.
  induction q as [|c q IH]; simpl; [now left |].
  destruct (is_sep c) eqn:E; simpl; [right; exact E | exact IH].
Qed.

Lemma strncmp_eq_append (q r : cstr) (n : nat) :
  (n <= String.length q)%nat -> strncmp_eq (q +:+ r) q n = true.
Proof.
  revert q; induction n as [|n IH]; intros q H; [reflexivity |].
  destruct q as [|c q]; simpl in *; [lia |].
  rewrite Ascii.eqb_refl. apply IH; lia.
Qed.

Lemma strncmp_eq_take (a b : cstr) (n : nat) :
  (n <= String.length a)%nat -> (n <= String.length b)%nat ->
  strncmp_eq a b n = true -> take_n n a = take_n n b.
Proof.
  revert a b; induction n as [|n IH]; intros a b Ha Hb H; [reflexivity |].
  destruct a as [|x a]; destruct b as [|y b]; simpl in *; try lia.
  destruct (Ascii.eqb x y) eqn:E; [|discriminate].
  apply Ascii.eqb_eq in E. subst y. f_equal. apply IH; [lia | lia | exact H].
Qed.

Lemma suffix_of_refl (a : cstr) : suffix_of a a.
Proof. now exists EmptyString. Qed.

Lemma suffix_of_trans (a b c : cstr) :
  suffix_of a b -> suffix_of b c -> suffix_of a c.
Proof.
  intros [y ->] [z ->]. exists (z +:+ y). now rewrite append_assoc.
Qed.

Lemma suffix_of_cons (c : ascii) (r : cstr) : suffix_of r (String c r).
Proof. now exists (String c EmptyString). Qed.

Lemma suffix_of_next (p : cstr) : suffix_of (next p) p.
Proof. destruct p; [apply suffix_of_refl | apply suffix_of_cons]. Qed.

Lemma suffix_of_advance (n : nat) (p : cstr) : suffix_of (advance n p) p.
Proof. exists (take_n n p). symmetry. apply take_advance. Qed.

Lemma last_char_append (y a : cstr) :
  a <> EmptyString -> last_char (y +:+ a) = last_char a.
Proof.
  intros Ha. induction y as [|c y IH]; simpl; [reflexivity |].
  destruct (y +:+ a) eqn:E; [|exact IH].
  destruct y; simpl in E; [congruence | discriminate].
Qed.

Lemma last_char_suffix (a b : cstr) :
  suffix_of a b -> a <> EmptyString -> last_char b = last_char a.
Proof. intros [y ->] Ha. now apply last_char_append. Qed.

(** ** The prefix loop *)

Lemma suffix_of_length (a b : cstr) :
  suffix_of a b -> (String.length a <= String.length b)%nat.
Proof. intros [y ->]. rewrite length_append. lia. Qed.

Lemma skip_separator_Some (p : cstr) (r : cstr) :
  skip_separator (Some p) None = Some r ->
  p = String SEPARATOR r /\ r <> EmptyString.
Proof.
  unfold skip_separator. destruct p as [|c p]; simpl; [discriminate |].
  destruct (is_sep c) eqn:E; simpl; [|discriminate].
  apply Ascii.eqb_eq in E. subst c.
  destruct p; [discriminate |]. intros [= <-]. split; [reflexivity | discriminate].
Qed.

Lemma skip_separator_sep (r : cstr) (other : option cstr) :
  r <> EmptyString -> skip_separator (Some (String SEPARATOR r)) other = Some r.
Proof. intros H. unfold skip_separator. simpl. destruct r; [congruence | reflexivity]. Qed.

Lemma skip_separator_other (p : cstr) (other : option cstr) :
  is_sep (deref p) = false -> skip_separator (Some p) other = other.
Proof. intros H. unfold skip_separator. now rewrite H. Qed.

Lemma skip_token_Some (t : Token) (r : cstr) :
  skip_token t = Some r ->
  advance (snd t) (fst t) = String SEPARATOR r /\ r <> EmptyString.
Proof. unfold skip_token. apply skip_separator_Some. Qed.

Lemma skip_token_shorter (p r : cstr) :
  skip_token (token p) = Some r -> (String.length r < String.length p)%nat.
Proof.
  intros H. apply skip_token_Some in H as [H _]. simpl in H.
  pose proof (suffix_of_length _ _ (suffix_of_advance (span p mod 256) p)) as L.
  rewrite H in L. simpl in L. lia.
Qed.

(** The loop never runs out of the fuel [skip_prefix] gives it. *)
Lemma skip_prefix_loop_fuel (fuel : nat) (p pfx : option cstr) :
  (forall p0, p = Some p0 -> (String.length p0 < fuel)%nat) ->
  skip_prefix_loop fuel p pfx <> None.
Proof.
  revert p pfx; induction fuel as [|fuel IH]; intros p pfx H.
  - destruct p as [p0|]; [specialize (H p0 eq_refl); lia |].
    destruct pfx; discriminate.
  - destruct p as [p0|]; [|destruct pfx; discriminate].
    destruct pfx as [pfx0|]; [|discriminate]. simpl.
    destruct (cmp_tokens _ _); [|discriminate].
    apply IH. intros r Hr. apply skip_token_shorter in Hr.
    specialize (H p0 eq_refl). lia.
Qed.

Lemma skip_prefix_loop_more_fuel (fuel : nat) (p pfx : option cstr) r :
  skip_prefix_loop fuel p pfx = Some r ->
  forall fuel', (fuel <= fuel')%nat -> skip_prefix_loop fuel' p pfx = Some r.
Proof.
  revert p pfx; induction fuel as [|fuel IH]; intros p pfx H fuel' L.
  - destruct p as [p0|]; [|destruct fuel'; exact H].
    destruct pfx as [pfx0|]; [discriminate | destruct fuel'; exact H].
  - destruct fuel' as [|fuel']; [lia |].
    destruct p as [p0|]; [|exact H].
    destruct pfx as [pfx0|]; [|exact H]. simpl in *.
    destruct (cmp_tokens _ _); [|exact H].
    apply IH; [exact H | lia].
Qed.

Lemma skip_separator_self_length (p r : cstr) :
  skip_separator (Some p) (Some p) = Some r ->
  (String.length r <= String.length p)%nat.
Proof.
  unfold skip_separator. destruct p as [|c p]; simpl.
  - intros [= <-]. simpl. lia.
  - destruct (is_sep c); simpl.
    + destruct p; [discriminate |]. intros [= <-]. simpl. lia.
    + intros [= <-]. simpl. lia.
Qed.

(** [skip_prefix] terminates: its loop returns within the fuel. *)
Lemma skip_prefix_terminates (p pfx : cstr) :
  exists r,
    skip_prefix_loop (S (String.length p))
      (skip_separator (Some p) (Some p))
      (skip_separator (Some pfx) (Some pfx)) = Some r
    /\ skip_prefix p pfx = r.
Proof.
  unfold skip_prefix.
  destruct (skip_prefix_loop _ _ _) as [r|] eqn:E; [now exists r |].
  exfalso. revert E. apply skip_prefix_loop_fuel.
  intros p0 H. apply skip_separator_self_length in H. lia.
Qed.

Lemma ends_in_token_cons (c : ascii) (r : cstr) :
  r <> EmptyString -> ends_in_token (String c r) = ends_in_token r.
Proof. destruct r; [congruence | reflexivity]. Qed.

Lemma ends_in_token_advance (n : nat) (q : cstr) :
  advance n q <> EmptyString -> ends_in_token (advance n q) = ends_in_token q.
Proof.
  revert q; induction n as [|n IH]; intros q H; [reflexivity |].
  destruct q as [|c q]; [reflexivity |]. simpl in H.
  change (advance (S n) (String c q)) with (advance n q).
  rewrite IH by exact H. symmetry. apply ends_in_token_cons.
  intros ->. destruct n; simpl in H; congruence.
Qed.

Lemma skip_prefix_loop_step (fuel : nat) (p0 pfx0 : cstr) :
  skip_prefix_loop (S fuel) (Some p0) (Some pfx0)
  = match cmp_tokens (token p0) (token pfx0) with
    | None => Some None
    | Some _ =>
        skip_prefix_loop fuel (skip_token (token p0)) (skip_token (token pfx0))
    end.
Proof. reflexivity. Qed.

Lemma skip_token_token (p : cstr) :
  skip_token (token p)
  = skip_separator (Some (advance (span p mod 256)%nat p)) None.
Proof. reflexivity. Qed.

Lemma cmp_tokens_token (p q : cstr) :
  cmp_tokens (token p) (token q)
  = if negb (Nat.eqb (span p mod 256) (span q mod 256)) then None
    else if strncmp_eq p q (span p mod 256)
         then Some (advance (span p mod 256)%nat p) else None.
Proof. reflexivity. Qed.

Lemma skip_prefix_loop_good (fuel : nat) (q rest : cstr) :
  ends_in_token q = true -> (String.length q < 256)%nat ->
  rest <> EmptyString ->
  (String.length q < fuel)%nat ->
  skip_prefix_loop fuel (Some (q +:+ String SEPARATOR rest)) (Some q)
  = Some (Some rest).
Proof.
  revert q; induction fuel as [|fuel IH]; intros q Hq Hlen Hrest Hfuel; [lia |].
  pose proof (span_le q) as Hsp.
  rewrite skip_prefix_loop_step, cmp_tokens_token, !skip_token_token.
  rewrite span_append_sep, Nat.eqb_refl.
  rewrite (Nat.mod_small (span q) 256) by lia.
  rewrite strncmp_eq_append by lia. cbv beta iota delta [negb].
  rewrite advance_append by lia.
  destruct (advance_span_boundary q) as [E | E].
  - rewrite E, append_nil_l, skip_separator_sep by exact Hrest.
    destruct fuel; reflexivity.
  - assert (Hne : advance (span q) q <> EmptyString)
      by (intros E'; rewrite E' in E; discriminate).
    pose proof (ends_in_token_advance _ _ Hne) as Hend. rewrite Hq in Hend.
    pose proof (suffix_of_length _ _ (suffix_of_advance (span q) q)) as Hl.
    destruct (advance (span q) q) as [|c r] eqn:Eadv; [congruence |].
    simpl in E. apply Ascii.eqb_eq in E. subst c.
    assert (Hr : r <> EmptyString) by (intros ->; discriminate).
    rewrite ends_in_token_cons in Hend by exact Hr.
    rewrite append_cons, !skip_separator_sep;
      [| exact Hr | destruct r; [congruence | discriminate]].
    simpl in Hl. apply IH; [exact Hend | lia | exact Hrest | lia].
Qed.

(** What the composer writes after a good prefix is what the parser finds
    behind it. *)
Lemma skip_prefix_good (pfx rest : cstr) :
  good_prefix pfx -> rest <> EmptyString ->
  skip_prefix (pfx +:+ String SEPARATOR rest) pfx = Some rest.
Proof.
  intros [Hend Hlen] Hrest.
  destruct (skip_prefix_terminates (pfx +:+ String SEPARATOR rest) pfx)
    as (r & Hloop & ->).
  enough (Hgoal : forall fuel, (String.length pfx < fuel)%nat ->
            skip_prefix_loop fuel
              (skip_separator (Some (pfx +:+ String SEPARATOR rest))
                 (Some (pfx +:+ String SEPARATOR rest)))
              (skip_separator (Some pfx) (Some pfx)) = Some (Some rest)).
  { rewrite Hgoal in Hloop; [congruence |]. rewrite length_append. simpl. lia. }
  intros fuel Hfuel.
  destruct pfx as [|c pfx]; [discriminate |].
  destruct (is_sep c) eqn:E.
  - apply Ascii.eqb_eq in E. subst c.
    assert (Hp : pfx <> EmptyString) by (intros ->; discriminate).
    rewrite ends_in_token_cons in Hend by exact Hp.
    rewrite append_cons, !skip_separator_sep;
      [| exact Hp | destruct pfx; [congruence | discriminate]].
    simpl in Hlen, Hfuel.
    apply skip_prefix_loop_good; [exact Hend | lia | exact Hrest | lia].
  - rewrite !skip_separator_other by (simpl; now rewrite E).
    apply skip_prefix_loop_good; assumption.
Qed.

(** ** Decimal numerals *)

Lemma digit_val_range (c : ascii) (d : Z) : digit_val c = Some d -> 0 <= d <= 9.
Proof.
  unfold digit_val. destruct (_ && _) eqn:E; [|discriminate].
  intros [= <-]. lia.
Qed.

Lemma is_digit_not_sep (c : ascii) : is_digit c = true -> is_sep c = false.
Proof.
  unfold is_digit, is_sep. destruct (Ascii.eqb c SEPARATOR) eqn:E; [|reflexivity].
  apply Ascii.eqb_eq in E. subst c. discriminate.
Qed.

Lemma all_digits_no_sep (ds : cstr) : all_digits ds = true -> no_sep ds.
Proof.
  unfold no_sep. induction ds as [|c r IH]; simpl; [reflexivity |].
  intros [Hc Hr]%andb_prop. rewrite (is_digit_not_sep c Hc). f_equal. apply IH, Hr.
Qed.

Lemma at_boundary_not_digit (r : cstr) :
  at_boundary r -> r = EmptyString \/ digit_val (deref r) = None.
Proof.
  intros [-> | H]; [now left | right].
  destruct (digit_val (deref r)) eqn:E; [|reflexivity].
  assert (Hd : is_digit (deref r) = true) by (unfold is_digit; now rewrite E).
  apply is_digit_not_sep in Hd. congruence.
Qed.

Lemma to_num_loop_digits (ds r : cstr) (cnt : nat) (acc : Z) :
  all_digits ds = true -> (String.length ds <= cnt)%nat ->
  r = EmptyString \/ digit_val (deref r) = None ->
  to_num_loop cnt (ds +:+ r) (acc mod 256) = (digits_value ds acc mod 256, r).
Proof.
  revert cnt acc; induction ds as [|c ds IH]; intros cnt acc Hd Hc Hr.
  - rewrite append_nil_l. simpl.
    destruct cnt; [reflexivity |]. simpl.
    destruct Hr as [-> | Hr]; [reflexivity |].
    destruct r; [reflexivity |]. simpl in Hr. now rewrite Hr.
  - simpl in Hd. apply andb_prop in Hd as [Hc1 Hd]. unfold is_digit in Hc1.
    destruct cnt as [|cnt]; [simpl in Hc; lia |].
    rewrite append_cons. simpl.
    destruct (digit_val c) as [d|] eqn:E; [|discriminate].
    replace ((acc mod 256 * 10 mod 256 + d) mod 256) with ((acc * 10 + d) mod 256).
    + apply IH; [exact Hd | simpl in Hc; lia | exact Hr].
    + rewrite Z.mul_mod_idemp_l by lia.
      rewrite Z.add_mod_idemp_l by lia. reflexivity.
Qed.

Lemma to_num_loop_range (cnt : nat) (p : cstr) (res : Z) :
  0 <= res < 256 -> 0 <= fst (to_num_loop cnt p res) < 256.
Proof.
  revert p res; induction cnt as [|cnt IH]; intros p res H; simpl; [exact H |].
  destruct p as [|c r]; [exact H |].
  destruct (digit_val c); [|exact H].
  apply IH. apply Z.mod_pos_bound. lia.
Qed.

Lemma to_num_loop_suffix (cnt : nat) (p : cstr) (res : Z) :
  suffix_of (snd (to_num_loop cnt p res)) p.
Proof.
  revert p res; induction cnt as [|cnt IH]; intros p res; simpl;
    [apply suffix_of_refl |].
  destruct p as [|c r]; [apply suffix_of_refl |].
  destruct (digit_val c); [|apply suffix_of_refl].
  eapply suffix_of_trans; [apply IH | apply suffix_of_cons].
Qed.

Lemma dec_u8_ok_all (n : Z) : 0 <= n < 256 -> dec_u8_ok n = true.
Proof.
  intros H.
  assert (Hall : forallb (fun k => dec_u8_ok (Z.of_nat k)) (seq 0 256) = true)
    by (vm_compute; reflexivity).
  rewrite forallb_forall in Hall.
  specialize (Hall (Z.to_nat n)). rewrite Z2Nat.id in Hall by lia.
  apply Hall. apply in_seq. lia.
Qed.

Lemma dec_u8_spec (n : Z) :
  0 <= n < 256 ->
  all_digits (dec_u8 n) = true /\ digits_value (dec_u8 n) 0 = n
  /\ (1 <= String.length (dec_u8 n) <= 3)%nat.
Proof.
  intros H. pose proof (dec_u8_ok_all n H) as Hok. unfold dec_u8_ok in Hok.
  repeat (apply andb_prop in Hok as [Hok ?]).
  repeat split; [assumption | lia | apply Nat.leb_le; assumption
                | apply Nat.leb_le; assumption].
Qed.

(** [to_num] over a token of digits that is followed by a separator or by
    the end of the string. *)
Lemma to_num_digits (ds r : cstr) :
  all_digits ds = true -> (String.length ds < 256)%nat -> at_boundary r ->
  to_num (ds +:+ r) (snd (token (ds +:+ r))) = (digits_value ds 0 mod 256, r).
Proof.
  intros Hd Hl Hr. unfold to_num, token. cbn [snd].
  rewrite span_no_sep_append by (auto using all_digits_no_sep).
  rewrite Nat.mod_small by lia.
  change 0 with (0 mod 256) at 1.
  apply to_num_loop_digits; [exact Hd | lia | now apply at_boundary_not_digit].
Qed.

Lemma to_num_dec_u8 (n : Z) (r : cstr) :
  0 <= n < 256 -> at_boundary r ->
  to_num (dec_u8 n +:+ r) (snd (token (dec_u8 n +:+ r))) = (n, r).
Proof.
  intros Hn Hr. destruct (dec_u8_spec n Hn) as (Hd & Hv & Hl).
  rewrite to_num_digits by (try assumption; lia).
  rewrite Hv, Z.mod_small by lia. reflexivity.
Qed.

(** ** Parsing behind the prefix *)

Lemma at_boundary_sep (r : cstr) : at_boundary (String SEPARATOR r).
Proof. now right. Qed.

Lemma all_digits_head_not (ds : cstr) (c : ascii) :
  all_digits ds = true -> is_digit c = false ->
  ds = EmptyString \/ Ascii.eqb (deref ds) c = false.
Proof.
  destruct ds as [|x ds]; [now left |]. simpl.
  intros [Hx _]%andb_prop Hc. right.
  destruct (Ascii.eqb x c) eqn:E; [|reflexivity].
  apply Ascii.eqb_eq in E. congruence.
Qed.

Lemma cmp_tokens_digits_set (ds r : cstr) :
  all_digits ds = true -> (String.length ds < 256)%nat ->
  cmp_tokens (token (ds +:+ String SEPARATOR r)) S_SET_TOK = None.
Proof.
  intros Hd Hl. unfold cmp_tokens, token. cbn [fst snd].
  rewrite span_append_sep. pose proof (all_digits_no_sep ds Hd) as Hn.
  unfold no_sep in Hn. rewrite Hn, Nat.mod_small by lia.
  destruct (Nat.eqb (String.length ds) (snd S_SET_TOK)) eqn:E; [|reflexivity].
  apply Nat.eqb_eq in E. rewrite E. cbn [negb].
  destruct (all_digits_head_not ds (chr "s") Hd eq_refl) as [-> | H];
    [discriminate |].
  destruct ds as [|x ds]; [discriminate |]. simpl in H.
  unfold S_SET_TOK, S_SET_MODE. simpl. now rewrite H.
Qed.

Lemma parse_after_prefix_digits (ds r : cstr) :
  all_digits ds = true -> (String.length ds < 256)%nat ->
  parse_after_prefix (ds +:+ String SEPARATOR r)
  = topic_part (digits_value ds 0 mod 256) false r.
Proof.
  intros Hd Hl. unfold parse_after_prefix.
  rewrite cmp_tokens_digits_set by assumption.
  rewrite to_num_digits by (try assumption; apply at_boundary_sep).
  destruct (ds +:+ String SEPARATOR r) eqn:E;
    [destruct ds; discriminate |].
  cbn [deref next is_sep]. unfold is_sep. rewrite Ascii.eqb_refl. reflexivity.
Qed.

Lemma parse_after_prefix_set_digits (ds r : cstr) :
  all_digits ds = true -> (String.length ds < 256)%nat ->
  parse_after_prefix ((S_SET_MODE +:+ sep_str) +:+ ds +:+ String SEPARATOR r)
  = topic_part (digits_value ds 0 mod 256) true r.
Proof.
  intros Hd Hl. unfold parse_after_prefix.
  change ((S_SET_MODE +:+ sep_str) +:+ ds +:+ String SEPARATOR r)
    with (String (chr "s") (String (chr "e") (String (chr "t")
           (String SEPARATOR (ds +:+ String SEPARATOR r))))).
  set (tl := ds +:+ String SEPARATOR r).
  assert (Htl : tl <> EmptyString) by (subst tl; destruct ds; discriminate).
  replace (cmp_tokens _ S_SET_TOK) with (Some (String SEPARATOR tl))
    by reflexivity.
  replace (skip_token _) with (skip_separator (Some (String SEPARATOR tl)) None)
    by reflexivity.
  rewrite skip_separator_sep by exact Htl. subst tl.
  rewrite to_num_digits by (try assumption; apply at_boundary_sep).
  cbn [deref next]. unfold is_sep. rewrite Ascii.eqb_refl. reflexivity.
Qed.

Lemma is_sep_SEPARATOR : is_sep SEPARATOR = true.
Proof. reflexivity. Qed.

Lemma token_end (seg r : cstr) :
  no_sep seg -> (String.length seg < 256)%nat -> at_boundary r ->
  advance (snd (token (seg +:+ r))) (fst (token (seg +:+ r))) = r.
Proof.
  intros Hseg Hl Hr. unfold token. cbn [fst snd].
  rewrite span_no_sep_append by assumption.
  rewrite Nat.mod_small by lia. apply advance_length.
Qed.

(** The timer grammar behind a topic token [seg]: whatever the token is,
    only its length is used. *)
Lemma parse_timer_digits (a : Z) (sm : bool) (seg d s : cstr) (tt : TimerTopic)
    (sub : cstr) :
  no_sep seg -> (String.length seg < 256)%nat ->
  all_digits d = true -> (String.length d < 256)%nat ->
  all_digits s = true -> (String.length s < 256)%nat ->
  timer_sub tt -> timer_topic_str tt = Some sub ->
  parse_timer a sm
    (seg +:+ String SEPARATOR (d +:+ String SEPARATOR (s +:+ String SEPARATOR sub)))
  = inr (Path_make a TIMER sm tt
           (digits_value d 0 mod 256) (digits_value s 0 mod 256)).
Proof.
  intros Hseg Hlseg Hd Hld Hs Hls Htt Hsub. unfold parse_timer.
  rewrite token_end by (try assumption; apply at_boundary_sep).
  cbn [deref next]. rewrite is_sep_SEPARATOR. cbn [negb].
  rewrite to_num_digits by (try assumption; apply at_boundary_sep).
  cbn [deref next]. rewrite is_sep_SEPARATOR. cbn [negb].
  rewrite to_num_digits by (try assumption; apply at_boundary_sep).
  cbn [deref next]. rewrite is_sep_SEPARATOR. cbn [negb].
  destruct Htt as [-> | ->]; simpl in Hsub; injection Hsub as <-; reflexivity.
Qed.

Lemma topic_part_plain (a : Z) (sm : bool) (t : Topic) :
  t <> INVALID_TOPIC -> t <> TIMER ->
  topic_part a sm (topic_str t) = inr (Path_make3 a t sm).
Proof. intros H1 H2. destruct t; try congruence; reflexivity. Qed.

Lemma strncmp_eq_timer (top : cstr) :
  strncmp_eq top S_TIMER S_TIMER_LEN = true <-> exists r, top = S_TIMER +:+ r.
Proof.
  split.
  - intros H.
    destruct top as [|c1 [|c2 [|c3 [|c4 [|c5 r]]]]]; simpl in H;
      repeat match type of H with
             | (if Ascii.eqb ?x ?y then _ else _) = true =>
                 destruct (Ascii.eqb x y) eqn:E; [|discriminate];
                 apply Ascii.eqb_eq in E; subst x
             end; try discriminate.
    now exists r.
  - intros [r ->]. reflexivity.
Qed.

Lemma parse_topic_timer (top : cstr) :
  parse_topic top = TIMER <-> exists r, top = S_TIMER +:+ r.
Proof.
  rewrite <- strncmp_eq_timer. unfold parse_topic.
  split.
  - repeat match goal with
           | |- (if ?b then _ else _) = _ -> _ => destruct b eqn:?
           end; try discriminate; auto.
  - intros H.
    assert (E : exists r, top = S_TIMER +:+ r) by now apply strncmp_eq_timer.
    destruct E as [r ->]. reflexivity.
Qed.

Lemma topic_part_timer (a : Z) (sm : bool) (r : cstr) :
  topic_part a sm (S_TIMER +:+ r) = parse_timer a sm (S_TIMER +:+ r).
Proof.
  unfold topic_part.
  assert (E : parse_topic (S_TIMER +:+ r) = TIMER)
    by (apply parse_topic_timer; now exists r).
  rewrite E. reflexivity.
Qed.

(** ** Composing, then parsing *)

Lemma valid_Path_wf (p : Path) : valid_Path p -> Path_wf p.
Proof.
  intros (Ha & Ht & Hn & Htm). repeat split; try lia; try assumption.
  - now apply Hn.
  - now apply Hn.
  - now apply Hn.
  - apply Htm in H. lia.
  - apply Htm in H. lia.
  - apply Htm in H. lia.
  - apply Htm in H. lia.
  - now apply Htm.
Qed.

Lemma compose_text_tail (prefix : cstr) (p : Path) :
  compose_text prefix p = prefix +:+ String SEPARATOR (compose_tail p).
Proof.
  unfold compose_text, compose_tail, append_opt.
  destruct (setter p), (decide (topic p = TIMER)),
    (timer_topic_str (timer_topic p));
    cbn [default]; rewrite ?append_assoc, ?append_nil_r; reflexivity.
Qed.

Lemma compose_tail_not_empty (p : Path) : compose_tail p <> EmptyString.
Proof.
  unfold compose_tail. destruct (setter p); [discriminate |].
  rewrite append_nil_l. destruct (dec_u8 (addr p)); discriminate.
Qed.

Lemma parse_after_prefix_head (sm : bool) (a : Z) (r : cstr) :
  0 <= a < 256 ->
  parse_after_prefix
    ((if sm then S_SET_MODE +:+ sep_str else EmptyString)
     +:+ dec_u8 a +:+ String SEPARATOR r)
  = topic_part a sm r.
Proof.
  intros Ha. destruct (dec_u8_spec a Ha) as (Hda & Hva & Hla).
  destruct sm.
  - rewrite parse_after_prefix_set_digits by (try assumption; lia).
    rewrite Hva, Z.mod_small by lia. reflexivity.
  - rewrite append_nil_l.
    rewrite parse_after_prefix_digits by (try assumption; lia).
    rewrite Hva, Z.mod_small by lia. reflexivity.
Qed.

Lemma parse_after_prefix_compose_tail (p : Path) :
  Path_wf p -> parse_after_prefix (compose_tail p) = inr p.
Proof.
  destruct p as [a d s t tt sm]. unfold Path_wf, compose_tail.
  cbn [addr day slot topic timer_topic setter].
  intros (Ha & Ht & Hn & Htm).
  rewrite parse_after_prefix_head by exact Ha.
  destruct (decide (t = TIMER)) as [-> | Hnt].
  - destruct (Htm eq_refl) as (Hd & Hs & Hsub).
    destruct (dec_u8_spec d Hd) as (Hdd & Hvd & Hld).
    destruct (dec_u8_spec s Hs) as (Hds & Hvs & Hls).
    change (topic_str TIMER) with S_TIMER. rewrite topic_part_timer.
    assert (Hstr : exists sub, timer_topic_str tt = Some sub)
      by (destruct Hsub as [-> | ->]; eexists; reflexivity).
    destruct Hstr as [sub Hstr]. rewrite Hstr.
    change (default EmptyString (Some sub)) with sub.
    rewrite (parse_timer_digits a sm S_TIMER (dec_u8 d) (dec_u8 s) tt sub);
      try assumption; try lia; try reflexivity.
    + rewrite Hvd, Hvs, !Z.mod_small by lia. reflexivity.
    + simpl. lia.
  - destruct (Hn Hnt) as (-> & -> & ->).
    rewrite append_nil_r. now apply topic_part_plain.
Qed.

Lemma parse_compose_text (prefix : cstr) (p : Path) :
  good_prefix prefix -> Path_wf p -> parse prefix (compose_text prefix p) = p.
Proof.
  intros Hp Hwf. unfold parse, parse_result.
  rewrite compose_text_tail.
  rewrite skip_prefix_good by (try assumption; apply compose_tail_not_empty).
  now rewrite parse_after_prefix_compose_tail.
Qed.

(** C2, as the code has it: for a configured prefix that ends in a token
    (it is not empty and does not end with a separator) and is shorter
    than 256 characters, every valid path is read back from the topic that
    [compose] writes into a buffer large enough for it: address, topic,
    setter flag and, for a timer path, day, slot and sub-topic. *)
Theorem compose_parse_roundtrip (prefix : cstr) (b : nat) (p : Path) (s : string) :
  good_prefix prefix -> valid_Path p ->
  compose prefix b p = Some s ->
  parse prefix s = p.
Proof.
  intros Hp Hv. unfold compose, StrMaker_str.
  destruct (_ <? _)%nat; [|discriminate]. intros [= <-].
  apply parse_compose_text; [exact Hp | now apply valid_Path_wf].
Qed.

Lemma compose_parse_roundtrip_witness :
  good_prefix "hr20"
  /\ valid_Path (Path_make 12 TIMER true TIMER_TIME 3 7)
  /\ compose "hr20" 128 (Path_make 12 TIMER true TIMER_TIME 3 7)
     = Some "hr20/set/12/timer/3/7/time"
  /\ parse "hr20" "hr20/set/12/timer/3/7/time"
     = Path_make 12 TIMER true TIMER_TIME 3 7.
Proof.
  assert (Hg : good_prefix "hr20") by (split; [reflexivity | simpl; lia]).
  assert (Hv : valid_Path (Path_make 12 TIMER true TIMER_TIME 3 7)).
  { unfold valid_Path, timer_sub; cbn.
    repeat split; try lia; try discriminate; try congruence. now left. }
  split; [exact Hg | split; [exact Hv | split; [reflexivity |]]].
  apply (compose_parse_roundtrip "hr20" 128 _ _ Hg Hv). reflexivity.
Defined.

(** C2 as stated fails when the configured prefix ends with a separator:
    the composer writes two separators in a row and the parser rejects the
    topic. *)
Lemma roundtrip_fails_trailing_separator :
  valid_Path (Path_make3 5 MODE false)
  /\ compose "hr20/" 128 (Path_make3 5 MODE false) = Some "hr20//5/mode"
  /\ parse "hr20/" "hr20//5/mode" <> Path_make3 5 MODE false.
Proof.
  split; [| split; [reflexivity | discriminate]].
  unfold valid_Path, timer_sub; cbn.
  repeat split; try lia; try discriminate; try congruence.
Qed.

(** ** What a parsed path carries *)

Lemma parse_topic_exact (top : cstr) (t : Topic) :
  t <> TIMER -> t <> INVALID_TOPIC ->
  parse_topic top = t <-> top = topic_str t.
Proof.
  intros H1 H2. split.
  - unfold parse_topic, strcmp_eq.
    repeat match goal with
           | |- (if ?b then _ else _) = _ -> _ => destruct b eqn:?
           end; intros <-; try congruence;
      match goal with
      | H : String.eqb _ _ = true |- _ => apply String.eqb_eq in H; exact H
      end.
  - intros ->. destruct t; try congruence; reflexivity.
Qed.

Lemma parse_timer_topic_Some (x : cstr) (tt : TimerTopic) :
  parse_timer_topic (Some x) = tt -> tt <> INVALID_TIMER_TOPIC ->
  timer_sub tt /\ timer_topic_str tt = Some x.
Proof.
  unfold parse_timer_topic, strcmp_eq, timer_sub.
  repeat match goal with
         | |- (if ?b then _ else _) = _ -> _ => destruct b eqn:?
         end; intros <- H; try congruence;
    match goal with
    | H : String.eqb _ _ = true |- _ => apply String.eqb_eq in H; subst x
    end; split; auto.
Qed.

Lemma to_num_range (p : cstr) (cnt : nat) : 0 <= fst (to_num p cnt) < 256.
Proof. apply to_num_loop_range. lia. Qed.

Lemma to_num_suffix (p : cstr) (cnt : nat) : suffix_of (snd (to_num p cnt)) p.
Proof. apply to_num_loop_suffix. Qed.

Lemma parse_timer_inr (a : Z) (sm : bool) (pos : cstr) (p : Path) :
  0 <= a < 256 -> parse_timer a sm pos = inr p -> parsed_from pos p.
Proof.
  intros Ha. unfold parse_timer.
  set (p0 := advance (snd (token pos)) (fst (token pos))).
  assert (S0 : suffix_of p0 pos) by apply suffix_of_advance.
  destruct (negb (is_sep (deref p0))); [discriminate |].
  pose proof (to_num_range (next p0) (snd (token (next p0)))) as Rd.
  pose proof (to_num_suffix (next p0) (snd (token (next p0)))) as Sd.
  destruct (to_num (next p0) (snd (token (next p0)))) as [d p1].
  cbn [fst snd] in Rd, Sd.
  destruct (negb (is_sep (deref p1))); [discriminate |].
  pose proof (to_num_range (next p1) (snd (token (next p1)))) as Rs.
  pose proof (to_num_suffix (next p1) (snd (token (next p1)))) as Ss.
  destruct (to_num (next p1) (snd (token (next p1)))) as [s p2].
  cbn [fst snd] in Rs, Ss.
  destruct (negb (is_sep (deref p2))); [discriminate |].
  destruct (decide _) as [|Htt]; [discriminate |].
  intros [= <-].
  destruct (parse_timer_topic_Some _ _ eq_refl Htt) as [Hsub Hstr].
  unfold parsed_from. cbn.
  split; [exact Ha | split; [discriminate | right]].
  split; [reflexivity |]. split; [exact Hsub |].
  split; [exact Rd |]. split; [exact Rs |].
  exists (next p2). split; [exact Hstr |].
  eapply suffix_of_trans; [| exact S0].
  eapply suffix_of_trans; [apply suffix_of_next |].
  eapply suffix_of_trans; [exact Ss |].
  eapply suffix_of_trans; [apply suffix_of_next |].
  eapply suffix_of_trans; [exact Sd |]. apply suffix_of_next.
Qed.

Lemma topic_part_inr (a : Z) (sm : bool) (pos : cstr) (p : Path) :
  0 <= a < 256 -> topic_part a sm pos = inr p -> parsed_from pos p.
Proof.
  intros Ha. unfold topic_part.
  destruct (decide (parse_topic pos = INVALID_TOPIC)) as [|Hi]; [discriminate |].
  destruct (decide (parse_topic pos = TIMER)) as [|Ht].
  - now apply parse_timer_inr.
  - intros [= <-]. unfold parsed_from. cbn.
    split; [exact Ha | split; [exact Hi | left]].
    repeat split; try assumption.
    assert (E : pos = topic_str (parse_topic pos))
      by (now apply parse_topic_exact).
    rewrite <- E. apply suffix_of_refl.
Qed.

Lemma parsed_from_suffix (a b : cstr) (p : Path) :
  suffix_of a b -> parsed_from a p -> parsed_from b p.
Proof.
  intros Hs (Ha & Ht & [H | H]); (split; [exact Ha | split; [exact Ht |]]).
  - left. destruct H as (H1 & H2 & H3 & H4 & H).
    do 4 (split; [assumption |]). eapply suffix_of_trans; eassumption.
  - right. destruct H as (H1 & H2 & H3 & H4 & sub & H5 & H).
    do 4 (split; [assumption |]). exists sub. split; [assumption |].
    eapply suffix_of_trans; eassumption.
Qed.

Lemma parse_after_prefix_inr (pos : cstr) (p : Path) :
  parse_after_prefix pos = inr p -> parsed_from pos p.
Proof.
  unfold parse_after_prefix. destruct pos as [|c0 r0]; [discriminate |].
  set (pos := String c0 r0).
  destruct (cmp_tokens (token pos) S_SET_TOK).
  - destruct (skip_token (token pos)) as [pos'|] eqn:Esk; [|discriminate].
    assert (S1 : suffix_of pos' pos).
    { apply skip_token_Some in Esk as [Esk _].
      eapply suffix_of_trans; [| apply (suffix_of_advance (snd (token pos)))].
      change (fst (token pos)) with pos in Esk. rewrite Esk.
      apply suffix_of_cons. }
    pose proof (to_num_range pos' (snd (token pos'))) as Ra.
    pose proof (to_num_suffix pos' (snd (token pos'))) as Sa.
    destruct (to_num pos' (snd (token pos'))) as [a p1]. cbn [fst snd] in Ra, Sa.
    destruct (negb (is_sep (deref p1))); [discriminate |].
    intros H. apply topic_part_inr in H; [| exact Ra].
    eapply parsed_from_suffix; [| exact H].
    eapply suffix_of_trans; [apply suffix_of_next |].
    eapply suffix_of_trans; eassumption.
  - pose proof (to_num_range pos (snd (token pos))) as Ra.
    pose proof (to_num_suffix pos (snd (token pos))) as Sa.
    destruct (to_num pos (snd (token pos))) as [a p1]. cbn [fst snd] in Ra, Sa.
    destruct (negb (is_sep (deref p1))); [discriminate |].
    intros H. apply topic_part_inr in H; [| exact Ra].
    eapply parsed_from_suffix; [| exact H].
    eapply suffix_of_trans; [apply suffix_of_next | exact Sa].
Qed.

Lemma parse_result_inr (prefix s : cstr) (p : Path) :
  parse_result prefix s = inr p ->
  exists pos, skip_prefix s prefix = Some pos /\ parsed_from pos p.
Proof.
  unfold parse_result. destruct (skip_prefix s prefix) as [pos|]; [|discriminate].
  intros H. exists pos. split; [reflexivity | now apply parse_after_prefix_inr].
Qed.

Lemma parsed_from_wf (pos : cstr) (p : Path) : parsed_from pos p -> Path_wf p.
Proof.
  intros (Ha & Ht & [(Hn & Hd & Hs & Htt & _) | (Htm & Hsub & Hd & Hs & _)]);
    (split; [exact Ha | split; [exact Ht | split]]); intros; try congruence;
    repeat split; try assumption; try lia.
Qed.

Lemma parse_cases (prefix s : cstr) :
  (exists e, parse_result prefix s = inl e /\ parse prefix s = Path_default)
  \/ (exists pos, skip_prefix s prefix = Some pos
                  /\ parsed_from pos (parse prefix s)).
Proof.
  unfold parse. destruct (parse_result prefix s) as [e | p] eqn:E.
  - left. now exists e.
  - right. now apply parse_result_inr.
Qed.

(** C3, as the code has it: a timer path that [Path::parse] returns has its
    sub-topic resolved to TIME or MODE, and a day and a slot that are any
    [uint8_t]; the parser does not compare them with 8. *)
Theorem parse_timer_path_fields (prefix s : cstr) :
  topic (parse prefix s) = TIMER ->
  timer_sub (timer_topic (parse prefix s))
  /\ 0 <= day (parse prefix s) < 256
  /\ 0 <= slot (parse prefix s) < 256.
Proof.
  intros Ht. destruct (parse_cases prefix s) as [(e & _ & E) | (pos & _ & H)].
  - rewrite E in Ht. discriminate.
  - destruct H as (_ & _ & [(Hn & _) | (_ & Hsub & Hd & Hs & _)]);
      [congruence | auto].
Qed.

Lemma parse_timer_path_fields_witness :
  topic (parse "hr20" "hr20/5/timer/9/200/mode") = TIMER
  /\ timer_sub (timer_topic (parse "hr20" "hr20/5/timer/9/200/mode"))
  /\ 0 <= day (parse "hr20" "hr20/5/timer/9/200/mode") < 256
  /\ 0 <= slot (parse "hr20" "hr20/5/timer/9/200/mode") < 256.
Proof.
  split; [reflexivity |].
  apply (parse_timer_path_fields "hr20" "hr20/5/timer/9/200/mode").
  reflexivity.
Defined.

(** C3 as stated fails: the parser returns a timer path with day 9 and
    slot 200. *)
Lemma parse_returns_timer_day_slot_above_7 :
  parse "hr20" "hr20/5/timer/9/200/mode"
  = Path_make 5 TIMER false TIMER_MODE 9 200
  /\ topic (parse "hr20" "hr20/5/timer/9/200/mode") = TIMER
  /\ ~ (day (parse "hr20" "hr20/5/timer/9/200/mode") < 8)
  /\ ~ (slot (parse "hr20" "hr20/5/timer/9/200/mode") < 8).
Proof.
  split; [reflexivity | split; [reflexivity | split]];
    intros H; vm_compute in H; discriminate H.
Qed.

(** Every day and slot of eight bits is reached by some topic. *)
Lemma parse_timer_any_day_slot (d s : Z) :
  0 <= d < 256 -> 0 <= s < 256 ->
  exists text, parse "hr20" text = Path_make 1 TIMER false TIMER_MODE d s.
Proof.
  intros Hd Hs.
  exists (compose_text "hr20" (Path_make 1 TIMER false TIMER_MODE d s)).
  apply parse_compose_text; [split; [reflexivity | simpl; lia] |].
  unfold Path_wf, timer_sub. cbn.
  repeat split; try lia; try discriminate; try congruence. now right.
Qed.

Example parse_failures :
  parse_result "hr20" "other/5/lock" = inl PrefixMismatch
  /\ parse_result "hr20/x" "hr20/5/lock" = inl PrefixMismatch
  /\ parse_result "hr20" "hr20/set" = inl NothingAfterSet
  /\ parse_result "hr20" "hr20/5lock" = inl MissingSeparator
  /\ parse_result "hr20" "hr20/5/nope" = inl UnknownTopic
  /\ parse_result "hr20" "hr20/5/timer/1/2/nope" = inl UnknownTimerTopic
  /\ parse_result "hr20" "hr20/5/timer/1" = inl MissingSeparator.
Proof. repeat split; reflexivity. Qed.

(** ** Rejected topics *)

Lemma skip_prefix_loop_suffix (fuel : nat) (p0 : cstr) (pfx : option cstr)
    (r : cstr) :
  skip_prefix_loop fuel (Some p0) pfx = Some (Some r) -> suffix_of r p0.
Proof.
  revert p0 pfx; induction fuel as [|fuel IH]; intros p0 pfx.
  - destruct pfx; simpl; [discriminate |]. intros [= <-]. apply suffix_of_refl.
  - destruct pfx as [pfx0|]; [| simpl; intros [= <-]; apply suffix_of_refl].
    rewrite skip_prefix_loop_step.
    destruct (cmp_tokens _ _); [|discriminate].
    destruct (skip_token (token p0)) as [p1|] eqn:E.
    + intros H. apply IH in H. apply skip_token_Some in E as [E _].
      eapply suffix_of_trans; [exact H |].
      eapply suffix_of_trans; [| apply (suffix_of_advance (snd (token p0)))].
      change (fst (token p0)) with p0 in E. rewrite E. apply suffix_of_cons.
    + destruct fuel; simpl; destruct (skip_token (token pfx0)); discriminate.
Qed.

Lemma skip_separator_self (p r : cstr) :
  skip_separator (Some p) (Some p) = Some r ->
  r = p \/ (p = String SEPARATOR r /\ r <> EmptyString).
Proof.
  unfold skip_separator. destruct (is_sep (deref p)) eqn:E; cbn [negb].
  - destruct p as [|c p]; [discriminate |]. simpl in E.
    apply Ascii.eqb_eq in E. subst c. simpl.
    destruct p; [discriminate |]. intros [= <-]. right. split; [reflexivity | discriminate].
  - intros [= <-]. now left.
Qed.

Lemma skip_prefix_suffix (s prefix r : cstr) :
  skip_prefix s prefix = Some r -> suffix_of r s.
Proof.
  unfold skip_prefix.
  destruct (skip_separator (Some s) (Some s)) as [p1|] eqn:E1.
  - destruct (skip_prefix_loop _ _ _) as [[r'|]|] eqn:E; try discriminate.
    intros [= ->]. apply skip_prefix_loop_suffix in E.
    eapply suffix_of_trans; [exact E |].
    apply skip_separator_self in E1 as [-> | [-> _]];
      [apply suffix_of_refl | apply suffix_of_cons].
  - destruct (skip_separator (Some prefix) (Some prefix)); simpl; discriminate.
Qed.

Lemma parsed_from_name_end (pos : cstr) (p : Path) :
  parsed_from pos p -> pos <> EmptyString /\ name_end (last_char pos) = true.
Proof.
  intros (_ & Ht & [(_ & _ & _ & _ & Hs) | (_ & Hsub & _ & _ & sub & Hstr & Hs)]).
  - assert (Hne : topic_str (topic p) <> EmptyString) by (destruct (topic p); discriminate).
    split.
    + intros ->. apply suffix_of_length in Hs.
      destruct (topic_str (topic p)); [congruence | simpl in Hs; lia].
    + rewrite (last_char_suffix _ _ Hs Hne). destruct (topic p); try congruence; reflexivity.
  - assert (Hne : sub <> EmptyString)
      by (destruct Hsub as [E | E]; rewrite E in Hstr; injection Hstr as <-; discriminate).
    split.
    + intros ->. apply suffix_of_length in Hs.
      destruct sub; [congruence | simpl in Hs; lia].
    + rewrite (last_char_suffix _ _ Hs Hne).
      destruct Hsub as [E | E]; rewrite E in Hstr; injection Hstr as <-; reflexivity.
Qed.

(** A topic that does not end like a name is rejected, whatever the
    prefix. *)
Lemma parse_rejects_by_last_char (prefix s : cstr) :
  name_end (last_char s) = false -> parse prefix s = Path_default.
Proof.
  intros Hl. destruct (parse_cases prefix s) as [(e & _ & E) | (pos & Hp & H)];
    [exact E | exfalso].
  apply skip_prefix_suffix in Hp.
  apply parsed_from_name_end in H as [Hne H].
  rewrite <- (last_char_suffix _ _ Hp Hne) in H. congruence.
Qed.

Lemma cmp_tokens_Some_inv (p q r : cstr) :
  cmp_tokens (token p) (token q) = Some r ->
  (span p < 256)%nat -> (String.length q < 256)%nat ->
  span q = span p /\ take_n (span p) q = take_n (span p) p.
Proof.
  rewrite cmp_tokens_token. intros H Hp Hq.
  pose proof (span_le q) as Lq. pose proof (span_le p) as Lp.
  rewrite !Nat.mod_small in H by lia.
  destruct (Nat.eqb (span p) (span q)) eqn:E; [|discriminate].
  apply Nat.eqb_eq in E. cbn [negb] in H.
  destruct (strncmp_eq p q (span p)) eqn:Es; [|discriminate].
  split; [lia |]. symmetry. apply strncmp_eq_take; [lia | lia | exact Es].
Qed.

Lemma suffix_of_inv (a : cstr) (c : ascii) (r : cstr) :
  suffix_of a (String c r) -> a = String c r \/ suffix_of a r.
Proof.
  intros [[|y0 y] E]; simpl in E; [left; congruence | right].
  injection E as _ E. now exists y.
Qed.

Lemma suffix_of_nil (a : cstr) : suffix_of a EmptyString -> a = EmptyString.
Proof. intros [[|y0 y] E]; simpl in E; [congruence | discriminate]. Qed.

(** The prefixes under which [wrong_topic] leaves "5/lock" to parse. *)
Lemma skip_prefix_wrong_topic (prefix : cstr) :
  (String.length prefix < 256)%nat ->
  skip_prefix wrong_topic prefix = Some "5/lock"%string ->
  In prefix ["wrongprefix"; "/wrongprefix"; "wrongprefix/"; "/wrongprefix/"]%string.
Proof.
  intros Hl. unfold skip_prefix.
  change (skip_separator (Some wrong_topic) (Some wrong_topic))
    with (Some wrong_topic).
  change (S (String.length wrong_topic)) with (S (S 17)).
  destruct (skip_separator (Some prefix) (Some prefix)) as [q|] eqn:Eq;
    [| simpl; discriminate].
  assert (Hlq : (String.length q < 256)%nat).
  { apply skip_separator_self_length in Eq. lia. }
  rewrite skip_prefix_loop_step.
  destruct (cmp_tokens (token wrong_topic) (token q)) eqn:Ec; [|discriminate].
  apply cmp_tokens_Some_inv in Ec as [Hspan Htake];
    [| vm_compute; lia | exact Hlq].
  change (span wrong_topic) with 11%nat in Hspan, Htake.
  change (take_n 11 wrong_topic) with "wrongprefix"%string in Htake.
  change (skip_token (token wrong_topic)) with (Some "5/lock"%string).
  destruct (skip_token (token q)) as [q3|] eqn:Eq3.
  - rewrite skip_prefix_loop_step.
    destruct (cmp_tokens _ _); [|discriminate].
    change (skip_token (token "5/lock")) with (Some "lock"%string).
    destruct (skip_prefix_loop 17 (Some "lock"%string) _) as [[r|]|] eqn:E;
      try discriminate.
    intros [= ->]. apply skip_prefix_loop_suffix, suffix_of_length in E.
    simpl in E. lia.
  - intros _. rewrite skip_token_token, Hspan, Nat.mod_small in Eq3 by lia.
    pose proof (advance_span_boundary q) as Hb. rewrite Hspan in Hb.
    pose proof (take_advance 11 q) as Hq. rewrite Htake in Hq.
    assert (Hq' : advance 11 q = EmptyString \/ advance 11 q = sep_str).
    { destruct Hb as [Hb | Hb]; [now left | right].
      destruct (advance 11 q) as [|c0 r0]; [discriminate |].
      simpl in Hb. apply Ascii.eqb_eq in Hb. subst c0.
      destruct r0; [reflexivity |].
      rewrite skip_separator_sep in Eq3 by discriminate. discriminate. }
    assert (Hq2 : q = "wrongprefix"%string \/ q = "wrongprefix/"%string).
    { destruct Hq' as [E | E]; rewrite E in Hq; subst q; [now left | now right]. }
    apply skip_separator_self in Eq as [-> | [-> _]];
      destruct Hq2 as [-> | ->]; simpl; auto.
Qed.

(** C6, as the code has it.  For every configured prefix the topic
    "<prefix>/99/zzz" parses to the default path: invalid, address 0, topic
    INVALID.  The topic "wrongprefix/5/lock" parses to address 0 when the
    configured prefix is shorter than 256 characters and is none of
    "wrongprefix", "/wrongprefix", "wrongprefix/" and "/wrongprefix/". *)
Theorem parse_rejection (prefix : cstr) :
  (parse prefix (prefix +:+ "/99/zzz") = Path_default
   /\ valid (parse prefix (prefix +:+ "/99/zzz")) = false
   /\ topic (parse prefix (prefix +:+ "/99/zzz")) = INVALID_TOPIC)
  /\ ((String.length prefix < 256)%nat ->
      ~ In prefix ["wrongprefix"; "/wrongprefix"; "wrongprefix/";
                   "/wrongprefix/"]%string ->
      addr (parse prefix wrong_topic) = 0).
Proof.
  split.
  - assert (E : parse prefix (prefix +:+ "/99/zzz") = Path_default).
    { apply parse_rejects_by_last_char.
      rewrite last_char_append by discriminate. reflexivity. }
    rewrite E. repeat split.
  - intros Hl Hn. unfold parse, parse_result.
    destruct (skip_prefix wrong_topic prefix) as [pos|] eqn:E; [|reflexivity].
    pose proof (skip_prefix_suffix _ _ _ E) as Hs. unfold wrong_topic in Hs.
    repeat (apply suffix_of_inv in Hs; destruct Hs as [-> | Hs]);
      try (apply suffix_of_nil in Hs; subst pos);
      try reflexivity.
    exfalso. apply Hn. now apply skip_prefix_wrong_topic.
Qed.

Lemma parse_rejection_witness :
  ((String.length "hr20" < 256)%nat
   /\ ~ In "hr20"%string ["wrongprefix"; "/wrongprefix"; "wrongprefix/";
                          "/wrongprefix/"]%string)
  /\ parse "hr20" "hr20/99/zzz" = Path_default
  /\ addr (parse "hr20" wrong_topic) = 0.
Proof.
  assert (Hl : (String.length "hr20" < 256)%nat) by (simpl; lia).
  assert (Hn : ~ In "hr20"%string ["wrongprefix"; "/wrongprefix";
                                   "wrongprefix/"; "/wrongprefix/"]%string)
    by (simpl; intros [H | [H | [H | [H | []]]]]; discriminate H).
  split; [split; [exact Hl | exact Hn] |].
  destruct (parse_rejection "hr20") as [(H1 & _) H2].
  split; [exact H1 | exact (H2 Hl Hn)].
Defined.

(** C6 as stated fails: a configured prefix that differs from
    "wrongprefix" by a leading or trailing separator matches the topic, and
    the path has address 5. *)
Lemma wrongprefix_matches_with_separator :
  "/wrongprefix"%string <> "wrongprefix"%string
  /\ parse "/wrongprefix" "wrongprefix/5/lock" = Path_make3 5 LOCK false
  /\ addr (parse "/wrongprefix" "wrongprefix/5/lock") <> 0
  /\ "wrongprefix/"%string <> "wrongprefix"%string
  /\ addr (parse "wrongprefix/" "wrongprefix/5/lock") <> 0.
Proof.
  split; [discriminate | split; [reflexivity | split; [| split; [discriminate |]]]];
    intros H; vm_compute in H; discriminate H.
Qed.

(** ** The address and the timer topic name *)

Lemma parse_of_skip_prefix (prefix s pos : cstr) :
  skip_prefix s prefix = Some pos ->
  parse prefix s
  = match parse_after_prefix pos with
    | inl _ => Path_default
    | inr path => path
    end.
Proof. intros H. unfold parse, parse_result. now rewrite H. Qed.

Lemma parse_behind_good_prefix (pfx rest : cstr) :
  good_prefix pfx -> rest <> EmptyString ->
  parse pfx (pfx +:+ String SEPARATOR rest)
  = match parse_after_prefix rest with
    | inl _ => Path_default
    | inr path => path
    end.
Proof.
  intros Hg Hr. apply parse_of_skip_prefix. now apply skip_prefix_good.
Qed.

(** C10: the address token is read into eight bits.  For a topic whose
    text behind the configured prefix is a token of digits (fewer than 256
    of them, the length of a token being eight bits as well) followed by
    "/mode", the path has the value of the digits modulo 256 as its
    address, without a check against 31; it is valid unless that is 0.  So
    "<prefix>/257/mode" is a valid path with address 1 and
    "<prefix>/256/mode" has address 0 and is invalid. *)
Theorem address_wraps_mod_256 (prefix : cstr) :
  (forall s ds,
     all_digits ds = true -> (String.length ds < 256)%nat ->
     skip_prefix s prefix = Some (ds +:+ "/mode") ->
     parse prefix s = Path_make3 (digits_value ds 0 mod 256) MODE false
     /\ valid (parse prefix s) = negb (digits_value ds 0 mod 256 =? 0))
  /\ (good_prefix prefix ->
      parse prefix (prefix +:+ "/257/mode") = Path_make3 1 MODE false
      /\ valid (parse prefix (prefix +:+ "/257/mode")) = true
      /\ parse prefix (prefix +:+ "/256/mode") = Path_make3 0 MODE false
      /\ valid (parse prefix (prefix +:+ "/256/mode")) = false).
Proof.
  assert (Hgen : forall s ds,
     all_digits ds = true -> (String.length ds < 256)%nat ->
     skip_prefix s prefix = Some (ds +:+ "/mode") ->
     parse prefix s = Path_make3 (digits_value ds 0 mod 256) MODE false).
  { intros s ds Hd Hl Hs. rewrite (parse_of_skip_prefix _ _ _ Hs).
    change (ds +:+ "/mode") with (ds +:+ String SEPARATOR S_MODE).
    rewrite parse_after_prefix_digits by assumption. reflexivity. }
  split.
  - intros s ds Hd Hl Hs. rewrite (Hgen s ds Hd Hl Hs). split; reflexivity.
  - intros Hg.
    assert (H257 : parse prefix (prefix +:+ "/257/mode") = Path_make3 1 MODE false).
    { apply (Hgen _ "257"%string); [reflexivity | simpl; lia |].
      apply (skip_prefix_good prefix "257/mode"); [exact Hg | discriminate]. }
    assert (H256 : parse prefix (prefix +:+ "/256/mode") = Path_make3 0 MODE false).
    { apply (Hgen _ "256"%string); [reflexivity | simpl; lia |].
      apply (skip_prefix_good prefix "256/mode"); [exact Hg | discriminate]. }
    rewrite H257, H256. repeat split.
Qed.

Lemma address_wraps_mod_256_witness :
  (all_digits "300" = true /\ (String.length "300" < 256)%nat
   /\ skip_prefix "hr20/300/mode" "hr20" = Some ("300" +:+ "/mode"))
  /\ good_prefix "hr20"
  /\ parse "hr20" "hr20/300/mode" = Path_make3 44 MODE false
  /\ parse "hr20" "hr20/257/mode" = Path_make3 1 MODE false
  /\ valid (parse "hr20" "hr20/256/mode") = false.
Proof.
  assert (Hl : (String.length "300" < 256)%nat) by (simpl; lia).
  assert (Hg : good_prefix "hr20") by (split; [reflexivity | simpl; lia]).
  split; [split; [reflexivity | split; [exact Hl | reflexivity]] |].
  split; [exact Hg |].
  destruct (address_wraps_mod_256 "hr20") as [H1 H2].
  destruct (H1 "hr20/300/mode"%string "300"%string eq_refl Hl eq_refl) as [E _].
  destruct (H2 Hg) as (E1 & _ & _ & E2).
  split; [exact E | split; [exact E1 | exact E2]].
Defined.

(** What [parse_timer] does behind the topic token. *)
Lemma parse_timer_token_only (a : Z) (sm : bool) (seg1 seg2 r : cstr) :
  no_sep seg1 -> (String.length seg1 < 256)%nat ->
  no_sep seg2 -> (String.length seg2 < 256)%nat ->
  at_boundary r ->
  parse_timer a sm (seg1 +:+ r) = parse_timer a sm (seg2 +:+ r).
Proof.
  intros H1 L1 H2 L2 Hr. unfold parse_timer.
  rewrite !token_end by assumption. reflexivity.
Qed.

Lemma no_sep_append (a b : cstr) : no_sep a -> no_sep b -> no_sep (a +:+ b).
Proof.
  unfold no_sep. intros Ha Hb. induction a as [|c a IH]; simpl in *; [exact Hb |].
  destruct (is_sep c); [discriminate |]. f_equal. apply IH. lia.
Qed.

(** C9: the name of the TIMER topic is matched on its first five
    characters, every other name on the whole rest of the topic.  A topic
    token that starts with "timer" leads into the day and slot grammar:
    with any text [junk] after "timer" in the token (the token being
    shorter than 256 characters) the topic parses as it does without it,
    and a well-formed "/day/slot/sub" behind it yields the timer path.  So
    "<prefix>/5/timerXYZ/3/4/mode" is the timer path of day 3 and slot 4,
    while "<prefix>/5/modeXYZ" is rejected. *)
Theorem timer_topic_prefix_match :
  (forall top, parse_topic top = TIMER <-> exists r, top = S_TIMER +:+ r)
  /\ (forall top t, t <> TIMER -> t <> INVALID_TOPIC ->
        (parse_topic top = t <-> top = topic_str t))
  /\ (forall prefix s s' a junk r,
        all_digits a = true -> (String.length a < 256)%nat ->
        no_sep junk -> (String.length junk < 251)%nat -> at_boundary r ->
        skip_prefix s prefix
          = Some (a +:+ String SEPARATOR (S_TIMER +:+ junk +:+ r)) ->
        skip_prefix s' prefix
          = Some (a +:+ String SEPARATOR (S_TIMER +:+ r)) ->
        parse prefix s = parse prefix s')
  /\ (forall prefix s a junk d sl tt sub,
        all_digits a = true -> (String.length a < 256)%nat ->
        no_sep junk -> (String.length junk < 251)%nat ->
        all_digits d = true -> (String.length d < 256)%nat ->
        all_digits sl = true -> (String.length sl < 256)%nat ->
        timer_sub tt -> timer_topic_str tt = Some sub ->
        skip_prefix s prefix
          = Some (a +:+ String SEPARATOR
                    ((S_TIMER +:+ junk) +:+ String SEPARATOR
                       (d +:+ String SEPARATOR (sl +:+ String SEPARATOR sub)))) ->
        parse prefix s
        = Path_make (digits_value a 0 mod 256) TIMER false tt
            (digits_value d 0 mod 256) (digits_value sl 0 mod 256))
  /\ (forall prefix,
        good_prefix prefix ->
        parse prefix (prefix +:+ "/5/timerXYZ/3/4/mode")
        = Path_make 5 TIMER false TIMER_MODE 3 4
        /\ parse prefix (prefix +:+ "/5/timerXYZ") = Path_default
        /\ parse prefix (prefix +:+ "/5/modeXYZ") = Path_default
        /\ parse prefix (prefix +:+ "/5/mode") = Path_make3 5 MODE false).
Proof.
  split; [exact parse_topic_timer |].
  split; [intros top t H1 H2; now apply parse_topic_exact |].
  assert (Hseg : forall junk, no_sep junk -> (String.length junk < 251)%nat ->
            no_sep (S_TIMER +:+ junk) /\ (String.length (S_TIMER +:+ junk) < 256)%nat).
  { intros junk Hj Hl. split; [apply no_sep_append; [reflexivity | exact Hj] |].
    rewrite length_append. simpl. lia. }
  split; [| split].
  - intros prefix s s' a junk r Ha La Hj Lj Hr Hs Hs'.
    destruct (Hseg junk Hj Lj) as [Hn Hl].
    rewrite (parse_of_skip_prefix _ _ _ Hs), (parse_of_skip_prefix _ _ _ Hs').
    rewrite !parse_after_prefix_digits by assumption.
    rewrite !topic_part_timer.
    rewrite <- (append_assoc S_TIMER junk r).
    rewrite (parse_timer_token_only _ _ (S_TIMER +:+ junk) S_TIMER r);
      try assumption; try reflexivity. simpl. lia.
  - intros prefix s a junk d sl tt sub Ha La Hj Lj Hd Ld Hs Ls Htt Hsub Hp.
    destruct (Hseg junk Hj Lj) as [Hn Hl].
    rewrite (parse_of_skip_prefix _ _ _ Hp).
    rewrite parse_after_prefix_digits by assumption.
    rewrite append_assoc, topic_part_timer, <- append_assoc.
    rewrite (parse_timer_digits _ _ (S_TIMER +:+ junk) d sl tt sub);
      try assumption. reflexivity.
  - intros prefix Hg. repeat split;
      (etransitivity;
       [eapply (parse_behind_good_prefix prefix _ Hg); discriminate
       | reflexivity]).
Qed.

Lemma timer_topic_prefix_match_witness :
  parse_topic "timerXYZ" = TIMER
  /\ parse_topic "modeXYZ" = INVALID_TOPIC
  /\ parse "hr20" "hr20/5/timerXYZ/3/4/mode"
     = Path_make 5 TIMER false TIMER_MODE 3 4
  /\ parse "hr20" "hr20/5/timerXYZ" = parse "hr20" "hr20/5/timer".
Proof.
  destruct timer_topic_prefix_match as (H1 & H2 & H3 & H4 & _).
  split; [apply H1; now exists "XYZ"%string |].
  split; [reflexivity |].
  assert (Hj : no_sep "XYZ") by reflexivity.
  assert (Lj : (String.length "XYZ" < 251)%nat) by (simpl; lia).
  assert (L1 : (String.length "5" < 256)%nat) by (simpl; lia).
  assert (L3 : (String.length "3" < 256)%nat) by (simpl; lia).
  assert (L4 : (String.length "4" < 256)%nat) by (simpl; lia).
  split.
  - apply (H4 "hr20" "hr20/5/timerXYZ/3/4/mode" "5" "XYZ" "3" "4" TIMER_MODE "mode")%string;
      try assumption; try reflexivity. now right.
  - apply (H3 "hr20" "hr20/5/timerXYZ" "hr20/5/timer" "5" "XYZ" "")%string;
      try assumption; try reflexivity. now left.
Defined.

(** * More of the codec *)

(** ** Names *)

(** X1: the name of every topic parses back to the topic:
    [parse_topic (topic_str t) = t] for each of the twelve values of
    [Topic], the text of [INVALID_TOPIC] included, so two topics never
    share a name. *)
Theorem topic_name_roundtrip :
  (forall t, parse_topic (topic_str t) = t)
  /\ (forall t t', topic_str t = topic_str t' -> t = t').
Proof.
  assert (H : forall t, parse_topic (topic_str t) = t)
    by (intros t; destruct t; reflexivity).
  split; [exact H |].
  intros t t' E. rewrite <- (H t), <- (H t'). now rewrite E.
Qed.

(** X2: [parse_timer_topic] returns a sub-topic other than
    [INVALID_TIMER_TOPIC] exactly for the name [timer_topic_str] gives that
    sub-topic: TIME for "time" and MODE for "mode", compared in full; the
    null pointer and every other text give [INVALID_TIMER_TOPIC], and
    [TIMER_NONE] is never returned. *)
Theorem timer_topic_name_exact (top : option cstr) (tt : TimerTopic) :
  parse_timer_topic top = tt /\ tt <> INVALID_TIMER_TOPIC
  <-> timer_sub tt /\ timer_topic_str tt = top.
Proof.
  split.
  - intros [H Hn]. destruct top as [x|].
    + now apply parse_timer_topic_Some.
    + simpl in H. congruence.
  - intros [[-> | ->] <-]; split; (reflexivity || discriminate).
Qed.

(** ** The hint *)

Lemma as_uint_table (a : Z) (t : Topic) (tt : TimerTopic) :
  0 <= a < 32 -> t <> INVALID_TOPIC -> tt <> INVALID_TIMER_TOPIC ->
  let u := as_uint (Path_make a t false tt 0 0) in
  Z.land u 31 = a /\ Z.land (Z.shiftr u 5) 15 = Topic_code t
  /\ Z.shiftr u 9 = TimerTopic_code tt /\ 0 <= u < 2048.
Proof.
  intros Ha Ht Htt.
  assert (Hall :
    forallb (fun k =>
      forallb (fun t =>
        forallb (fun tt =>
          let u := as_uint (Path_make (Z.of_nat k) t false tt 0 0) in
          (Z.land u 31 =? Z.of_nat k)
          && (Z.land (Z.shiftr u 5) 15 =? Topic_code t)
          && (Z.shiftr u 9 =? TimerTopic_code tt)
          && (0 <=? u) && (u <? 2048))
          [TIMER_NONE; TIMER_TIME; TIMER_MODE])
        [AVG_TMP; BAT; ERR; LOCK; MODE; REQ_TMP; VALVE_WTD; WND; LAST_SEEN;
         TIMER; STATE])
      (seq 0 32) = true) by (vm_compute; reflexivity).
  rewrite forallb_forall in Hall.
  specialize (Hall (Z.to_nat a)). rewrite Z2Nat.id in Hall by lia.
  assert (Hin : In (Z.to_nat a) (seq 0 32)) by (apply in_seq; lia).
  specialize (Hall Hin). rewrite forallb_forall in Hall.
  assert (Hint : In t [AVG_TMP; BAT; ERR; LOCK; MODE; REQ_TMP; VALVE_WTD; WND;
                       LAST_SEEN; TIMER; STATE])
    by (destruct t; simpl; tauto).
  specialize (Hall t Hint). rewrite forallb_forall in Hall.
  assert (Hintt : In tt [TIMER_NONE; TIMER_TIME; TIMER_MODE])
    by (destruct tt; simpl; tauto).
  specialize (Hall tt Hintt). cbv zeta in Hall.
  repeat (apply andb_prop in Hall as [Hall ?]).
  intros u. subst u.
  repeat split; try (apply Z.eqb_eq; assumption);
    [apply Z.leb_le | apply Z.ltb_lt]; assumption.
Qed.

(** X3: for an address below 32, a real topic and a timer sub-topic other
    than [INVALID_TIMER_TOPIC], the debugging code [as_uint] packs the three
    without overlap: the address is its low 5 bits, the topic code the next
    4 bits, the sub-topic code the bits from 9 up, and the code is below
    2048. *)
Theorem as_uint_decode (p : Path) :
  0 <= addr p < 32 -> topic p <> INVALID_TOPIC ->
  timer_topic p <> INVALID_TIMER_TOPIC ->
  Z.land (as_uint p) 31 = addr p
  /\ Z.land (Z.shiftr (as_uint p) 5) 15 = Topic_code (topic p)
  /\ Z.shiftr (as_uint p) 9 = TimerTopic_code (timer_topic p)
  /\ 0 <= as_uint p < 2048.
Proof.
  intros Ha Ht Htt.
  exact (as_uint_table (addr p) (topic p) (timer_topic p) Ha Ht Htt).
Qed.

Lemma as_uint_decode_witness :
  (0 <= addr (Path_make 12 TIMER true TIMER_TIME 3 7) < 32
   /\ topic (Path_make 12 TIMER true TIMER_TIME 3 7) <> INVALID_TOPIC
   /\ timer_topic (Path_make 12 TIMER true TIMER_TIME 3 7)
      <> INVALID_TIMER_TOPIC)
  /\ as_uint (Path_make 12 TIMER true TIMER_TIME 3 7) = 844
  /\ Z.land 844 31 = 12 /\ Z.land (Z.shiftr 844 5) 15 = 10
  /\ Z.shiftr 844 9 = 1.
Proof.
  assert (H1 : 0 <= addr (Path_make 12 TIMER true TIMER_TIME 3 7) < 32)
    by (simpl; lia).
  assert (H2 : topic (Path_make 12 TIMER true TIMER_TIME 3 7) <> INVALID_TOPIC)
    by discriminate.
  assert (H3 : timer_topic (Path_make 12 TIMER true TIMER_TIME 3 7)
               <> INVALID_TIMER_TOPIC) by discriminate.
  split; [split; [exact H1 | split; [exact H2 | exact H3]] |].
  destruct (as_uint_decode _ H1 H2 H3) as (Ha & Ht & Htt & _).
  split; [reflexivity |].
  split; [exact Ha | split; [exact Ht | exact Htt]].
Defined.

(** ** Tokens *)

Lemma no_sep_take_n (n : nat) (p : cstr) :
  (n <= span p)%nat -> no_sep (take_n n p).
Proof.
  unfold no_sep. revert p; induction n as [|n IH]; intros p H; [reflexivity |].
  destruct p as [|c r]; [reflexivity |]. simpl in H |- *.
  destruct (is_sep c) eqn:E; [lia |]. f_equal. apply IH. lia.
Qed.

Lemma advance_inside_span (n : nat) (p : cstr) :
  (n < span p)%nat ->
  exists c r, advance n p = String c r /\ is_sep c = false.
Proof.
  revert p; induction n as [|n IH]; intros p H.
  - destruct p as [|c r]; simpl in H; [lia |].
    destruct (is_sep c) eqn:E; [lia |]. now exists c, r.
  - destruct p as [|c r]; simpl in H; [lia |].
    destruct (is_sep c) eqn:E; [lia |].
    change (advance (S n) (String c r)) with (advance n r). apply IH. lia.
Qed.

(** X4: [token p] starts at [p] and has a length below 256 that is at most
    the number of characters before the first separator; the characters
    it spans hold no separator, and it ends at a separator or at the end of
    the string exactly when fewer than 256 characters precede the first
    separator (the length is cut to eight bits). *)
Theorem token_splits (p : cstr) :
  fst (token p) = p
  /\ (snd (token p) < 256)%nat
  /\ (snd (token p) <= span p)%nat
  /\ no_sep (take_n (snd (token p)) p)
  /\ take_n (snd (token p)) p +:+ advance (snd (token p)) p = p
  /\ (at_boundary (advance (snd (token p)) p) <-> (span p < 256)%nat).
Proof.
  unfold token. cbn [fst snd].
  assert (Hlt : (span p mod 256 < 256)%nat) by (apply Nat.mod_upper_bound; lia).
  assert (Hle : (span p mod 256 <= span p)%nat) by (apply Nat.Div0.mod_le).
  split; [reflexivity |]. split; [exact Hlt |]. split; [exact Hle |].
  split; [now apply no_sep_take_n |]. split; [apply take_advance |].
  split.
  - intros Hb. destruct (Nat.lt_ge_cases (span p) 256) as [H | H]; [exact H |].
    exfalso.
    destruct (advance_inside_span (span p mod 256) p) as (c & r & E & Hc);
      [lia |].
    rewrite E in Hb. destruct Hb as [Hb | Hb]; [discriminate |].
    simpl in Hb. congruence.
  - intros H. rewrite Nat.mod_small by exact H. apply advance_span_boundary.
Qed.

(** ** The prefix *)

Lemma skip_prefix_loop_boundary (fuel : nat) (p0 : cstr) (pfx : option cstr)
    (r : cstr) :
  skip_prefix_loop fuel (Some p0) pfx = Some (Some r) ->
  r = p0 \/ (r <> EmptyString /\ exists y, p0 = y +:+ String SEPARATOR r).
Proof.
  revert p0 pfx; induction fuel as [|fuel IH]; intros p0 pfx.
  - destruct pfx; simpl; [discriminate |]. intros [= <-]. now left.
  - destruct pfx as [pfx0|]; [| simpl; intros [= <-]; now left].
    rewrite skip_prefix_loop_step.
    destruct (cmp_tokens _ _); [|discriminate].
    destruct (skip_token (token p0)) as [p1|] eqn:E.
    + intros H. apply IH in H. apply skip_token_Some in E as [E Hp1].
      change (fst (token p0)) with p0 in E.
      pose proof (take_advance (snd (token p0)) p0) as Hsplit.
      rewrite E in Hsplit. right.
      destruct H as [-> | (Hr & y & ->)].
      * split; [exact Hp1 |]. eexists. symmetry. exact Hsplit.
      * split; [exact Hr |].
        exists (take_n (snd (token p0)) p0 +:+ String SEPARATOR y).
        rewrite <- Hsplit at 1. rewrite append_assoc, append_cons. reflexivity.
    + destruct fuel; simpl; destruct (skip_token (token pfx0)); discriminate.
Qed.

(** X5: a pointer returned by [skip_prefix] points into the topic it was
    given: what it points at is a suffix of the topic, and it is either the
    whole topic or a non-empty remainder that follows a separator. *)
Theorem skip_prefix_points_into_topic (p pfx r : cstr) :
  skip_prefix p pfx = Some r ->
  suffix_of r p
  /\ (r = p \/ (r <> EmptyString /\ exists y, p = y +:+ String SEPARATOR r)).
Proof.
  intros H. split; [now apply skip_prefix_suffix in H |].
  unfold skip_prefix in H.
  destruct (skip_separator (Some p) (Some p)) as [p1|] eqn:E1.
  - destruct (skip_prefix_loop _ _ _) as [[r'|]|] eqn:E; try discriminate.
    injection H as ->. apply skip_prefix_loop_boundary in E.
    apply skip_separator_self in E1 as [-> | [-> Hp1]]; [exact E |].
    right. destruct E as [-> | (Hr & y & ->)].
    + split; [exact Hp1 |]. now exists EmptyString.
    + split; [exact Hr |]. exists (String SEPARATOR y). reflexivity.
  - destruct (skip_separator (Some pfx) (Some pfx)); simpl in H; discriminate.
Qed.

Lemma skip_prefix_points_into_topic_witness :
  skip_prefix "/hr20/a/5/mode" "hr20/a" = Some "5/mode"%string
  /\ suffix_of "5/mode" "/hr20/a/5/mode"
  /\ ("5/mode"%string = "/hr20/a/5/mode"%string
      \/ ("5/mode"%string <> EmptyString
          /\ exists y, "/hr20/a/5/mode"%string
                       = y +:+ String SEPARATOR "5/mode")).
Proof.
  assert (H : skip_prefix "/hr20/a/5/mode" "hr20/a" = Some "5/mode"%string)
    by reflexivity.
  split; [exact H |].
  exact (skip_prefix_points_into_topic _ _ _ H).
Defined.

(** X6: the loop of [skip_prefix] terminates: with the fuel [skip_prefix]
    gives it, and with any larger amount, it returns, and what it returns
    is the result of [skip_prefix]. *)
Theorem skip_prefix_fuel_suffices (p pfx : cstr) (extra : nat) :
  skip_prefix_loop (S (String.length p) + extra)
    (skip_separator (Some p) (Some p))
    (skip_separator (Some pfx) (Some pfx))
  = Some (skip_prefix p pfx).
Proof.
  destruct (skip_prefix_terminates p pfx) as (r & Hloop & <-).
  apply (skip_prefix_loop_more_fuel _ _ _ _ Hloop). lia.
Qed.

Lemma skip_prefix_lead_prefix (s pfx : cstr) :
  pfx <> EmptyString -> is_sep (deref pfx) = false ->
  skip_prefix s (String SEPARATOR pfx) = skip_prefix s pfx.
Proof.
  intros Hne Hs. unfold skip_prefix.
  rewrite (skip_separator_sep pfx) by exact Hne.
  rewrite (skip_separator_other pfx) by exact Hs. reflexivity.
Qed.

Lemma skip_prefix_lead_topic (s pfx : cstr) :
  s <> EmptyString -> is_sep (deref s) = false ->
  skip_prefix (String SEPARATOR s) pfx = skip_prefix s pfx.
Proof.
  intros Hne Hs.
  destruct (skip_prefix_terminates s pfx) as (r & Hloop & <-).
  rewrite (skip_separator_other s) in Hloop by exact Hs.
  unfold skip_prefix.
  rewrite (skip_separator_sep s) by exact Hne.
  rewrite (skip_prefix_loop_more_fuel _ _ _ _ Hloop); [reflexivity |].
  simpl. lia.
Qed.

(** X7: one leading separator is ignored, of the configured prefix and of
    the topic: a prefix "/x" parses every topic as the prefix "x" does, and
    a topic "/t" is parsed as "t" is (for non-empty x and t that do not
    start with a separator). *)
Theorem leading_separator_ignored (pfx s : cstr) :
  (pfx <> EmptyString -> is_sep (deref pfx) = false ->
   parse (String SEPARATOR pfx) s = parse pfx s)
  /\ (s <> EmptyString -> is_sep (deref s) = false ->
      parse pfx (String SEPARATOR s) = parse pfx s).
Proof.
  split; intros Hne Hs; unfold parse, parse_result.
  - now rewrite skip_prefix_lead_prefix.
  - now rewrite skip_prefix_lead_topic.
Qed.

Lemma leading_separator_ignored_witness :
  ("hr20"%string <> EmptyString /\ is_sep (deref "hr20") = false
   /\ "hr20/5/mode"%string <> EmptyString
   /\ is_sep (deref "hr20/5/mode") = false)
  /\ parse "/hr20" "hr20/5/mode" = Path_make3 5 MODE false
  /\ parse "hr20" "/hr20/5/mode" = Path_make3 5 MODE false.
Proof.
  assert (H1 : "hr20"%string <> EmptyString) by discriminate.
  assert (H2 : is_sep (deref "hr20") = false) by reflexivity.
  assert (H3 : "hr20/5/mode"%string <> EmptyString) by discriminate.
  assert (H4 : is_sep (deref "hr20/5/mode") = false) by reflexivity.
  split; [split; [exact H1 | split; [exact H2 | split; [exact H3 | exact H4]]] |].
  destruct (leading_separator_ignored "hr20" "hr20/5/mode") as [Ha Hb].
  split; [exact (Ha H1 H2) | exact (Hb H3 H4)].
Defined.

Lemma strncmp_eq_append_r (a b x : cstr) (n : nat) :
  (n <= String.length b)%nat ->
  strncmp_eq a (b +:+ x) n = strncmp_eq a b n.
Proof.
  revert a b; induction n as [|n IH]; intros a b H; [reflexivity |].
  destruct b as [|y b]; [simpl in H; lia |]. rewrite append_cons.
  destruct a as [|z a]; [reflexivity |]. simpl.
  destruct (Ascii.eqb z y); [| reflexivity]. apply IH. simpl in H. lia.
Qed.

Lemma ends_in_token_not_empty (q : cstr) :
  ends_in_token q = true -> q <> EmptyString.
Proof. intros H ->. discriminate. Qed.

Lemma ends_in_token_sep (r : cstr) :
  ends_in_token (String SEPARATOR r) = true ->
  r <> EmptyString /\ ends_in_token r = true.
Proof.
  intros H. assert (Hr : r <> EmptyString) by (intros ->; discriminate).
  split; [exact Hr |]. now rewrite ends_in_token_cons in H.
Qed.

Lemma skip_prefix_loop_trail (fuel : nat) (p : option cstr) (q : cstr) :
  ends_in_token q = true ->
  skip_prefix_loop fuel p (Some (q +:+ sep_str))
  = skip_prefix_loop fuel p (Some q).
Proof.
  revert p q; induction fuel as [|fuel IH]; intros p q Hq;
    [destruct p; reflexivity |].
  destruct p as [p0|]; [| reflexivity].
  rewrite !skip_prefix_loop_step, !cmp_tokens_token, !skip_token_token.
  unfold sep_str. rewrite span_append_sep.
  assert (Hle : (span q mod 256 <= String.length q)%nat).
  { pose proof (span_le q). pose proof (Nat.Div0.mod_le (span q) 256). lia. }
  destruct (Nat.eqb (span p0 mod 256) (span q mod 256)) eqn:En;
    [| reflexivity].
  apply Nat.eqb_eq in En. cbn [negb].
  rewrite strncmp_eq_append_r by (rewrite En; exact Hle).
  destruct (strncmp_eq _ _ _); [| reflexivity].
  rewrite advance_append by exact Hle.
  destruct (advance (span q mod 256) q) as [|c r] eqn:E.
  - reflexivity.
  - assert (Hend : ends_in_token (String c r) = true).
    { rewrite <- E. rewrite ends_in_token_advance; [exact Hq |].
      rewrite E. discriminate. }
    rewrite append_cons.
    destruct (is_sep c) eqn:Ec.
    + apply Ascii.eqb_eq in Ec. subst c.
      apply ends_in_token_sep in Hend as [Hr Hend].
      rewrite !skip_separator_sep;
        [| exact Hr | destruct r; [congruence | discriminate]].
      apply IH, Hend.
    + rewrite (skip_separator_other (String c (r +:+ String SEPARATOR ""))),
        (skip_separator_other (String c r)) by exact Ec.
      reflexivity.
Qed.

Lemma skip_prefix_trail (s q : cstr) :
  ends_in_token q = true -> skip_prefix s (q +:+ sep_str) = skip_prefix s q.
Proof.
  intros Hq. unfold skip_prefix.
  destruct q as [|c q]; [discriminate |]. rewrite append_cons.
  destruct (is_sep c) eqn:Ec.
  - apply Ascii.eqb_eq in Ec. subst c.
    apply ends_in_token_sep in Hq as [Hr Hq].
    rewrite !skip_separator_sep;
      [| exact Hr | destruct q; [congruence | discriminate]].
    now rewrite skip_prefix_loop_trail.
  - rewrite (skip_separator_other (String c (q +:+ sep_str))),
      (skip_separator_other (String c q)) by exact Ec.
    rewrite <- append_cons. now rewrite skip_prefix_loop_trail.
Qed.

(** X8: a trailing separator of the configured prefix is ignored by the
    parser: for a prefix that ends in a token, the prefix followed by a
    separator parses every topic as the prefix itself does. *)
Theorem trailing_separator_of_prefix_ignored (pfx s : cstr) :
  ends_in_token pfx = true -> parse (pfx +:+ sep_str) s = parse pfx s.
Proof.
  intros H. unfold parse, parse_result. now rewrite skip_prefix_trail.
Qed.

Lemma trailing_separator_of_prefix_ignored_witness :
  ends_in_token "hr20" = true
  /\ parse "hr20/" "hr20/5/mode" = Path_make3 5 MODE false.
Proof.
  split; [reflexivity |].
  exact (trailing_separator_of_prefix_ignored "hr20" "hr20/5/mode" eq_refl).
Defined.

(** ** Numbers *)

Lemma to_num_loop_spec (cnt : nat) (p : cstr) (acc : Z) :
  exists ds r,
    p = ds +:+ r /\ all_digits ds = true /\ (String.length ds <= cnt)%nat
    /\ to_num_loop cnt p (acc mod 256) = (digits_value ds acc mod 256, r)
    /\ ((String.length ds < cnt)%nat ->
        r = EmptyString \/ is_digit (deref r) = false).
Proof.
  revert p acc; induction cnt as [|cnt IH]; intros p acc.
  - exists EmptyString, p. simpl. repeat split; lia.
  - destruct p as [|c p].
    + exists EmptyString, EmptyString. simpl. repeat split; [lia | now left].
    + destruct (digit_val c) as [d|] eqn:E.
      * destruct (IH p (acc * 10 + d)) as (ds & r & -> & Hd & Hl & Hn & Hstop).
        exists (String c ds), r. rewrite append_cons.
        split; [reflexivity |].
        split; [simpl; unfold is_digit; now rewrite E, Hd |].
        split; [simpl; lia |]. split.
        -- simpl. rewrite E.
           replace ((acc mod 256 * 10 mod 256 + d) mod 256)
             with ((acc * 10 + d) mod 256); [exact Hn |].
           rewrite Z.mul_mod_idemp_l by lia.
           rewrite Z.add_mod_idemp_l by lia. reflexivity.
        -- intros H. apply Hstop. simpl in H. lia.
      * exists EmptyString, (String c p). simpl. rewrite E.
        repeat split; [lia |]. intros _. right. unfold is_digit. now rewrite E.
Qed.

(** X9: [to_num] reads the leading decimal digits of the text, at most
    [cnt] of them, returns their value modulo 256 and leaves the position
    behind them; when it stops before [cnt] characters, it stands at the
    end of the string or at a character that is not a digit. *)
Theorem to_num_reads_leading_digits (p : cstr) (cnt : nat) :
  exists ds r,
    p = ds +:+ r /\ all_digits ds = true /\ (String.length ds <= cnt)%nat
    /\ to_num p cnt = (digits_value ds 0 mod 256, r)
    /\ ((String.length ds < cnt)%nat ->
        r = EmptyString \/ is_digit (deref r) = false).
Proof.
  unfold to_num. change 0 with (0 mod 256) at 1. apply to_num_loop_spec.
Qed.

Lemma to_num_stops_at_non_digit (cnt : nat) (ds : cstr) (c : ascii) (r : cstr) :
  all_digits ds = true -> is_digit c = false -> is_sep c = false ->
  is_sep (deref (snd (to_num (ds +:+ String c r) cnt))) = false.
Proof.
  unfold to_num. generalize 0 as acc.
  revert cnt; induction ds as [|x ds IH]; intros cnt acc Hd Hc Hs.
  - rewrite append_nil_l. destruct cnt; [exact Hs |]. simpl.
    unfold is_digit in Hc. destruct (digit_val c); [discriminate | exact Hs].
  - simpl in Hd. apply andb_prop in Hd as [Hx Hd]. rewrite append_cons.
    destruct cnt; [simpl; now apply is_digit_not_sep |]. simpl.
    unfold is_digit in Hx. destruct (digit_val x); [| discriminate].
    now apply IH.
Qed.

Lemma cmp_tokens_not_set (ds : cstr) (c : ascii) (r : cstr) :
  all_digits ds = true -> ds <> EmptyString \/ c <> chr "s" ->
  cmp_tokens (token (ds +:+ String c r)) S_SET_TOK = None.
Proof.
  intros Hd Hne.
  unfold cmp_tokens, token, S_SET_TOK. cbn [fst snd].
  destruct (Nat.eqb _ _) eqn:En; [| reflexivity].
  apply Nat.eqb_eq in En. rewrite En. cbn [negb].
  destruct ds as [|x ds].
  - destruct Hne as [Hne | Hne]; [congruence |]. rewrite append_nil_l. simpl.
    destruct (Ascii.eqb c "s") eqn:E; [| reflexivity].
    apply Ascii.eqb_eq in E. exfalso. apply Hne. exact E.
  - simpl in Hd. apply andb_prop in Hd as [Hx _]. rewrite append_cons. simpl.
    destruct (Ascii.eqb x "s") eqn:E; [| reflexivity].
    apply Ascii.eqb_eq in E. subst x. discriminate.
Qed.

Lemma parse_after_prefix_non_digit (ds : cstr) (c : ascii) (r : cstr) :
  all_digits ds = true -> is_digit c = false -> is_sep c = false ->
  ds <> EmptyString \/ c <> chr "s" ->
  parse_after_prefix (ds +:+ String c r) = inl MissingSeparator.
Proof.
  intros Hd Hc Hs Hne. unfold parse_after_prefix.
  rewrite cmp_tokens_not_set by assumption.
  pose proof (to_num_stops_at_non_digit
                (snd (token (ds +:+ String c r))) ds c r Hd Hc Hs) as Hstop.
  destruct (to_num _ _) as [a pos]. cbn [snd] in Hstop.
  destruct (ds +:+ String c r) eqn:E; [destruct ds; discriminate |].
  rewrite Hstop. reflexivity.
Qed.

Lemma parse_after_prefix_set_non_digit (ds : cstr) (c : ascii) (r : cstr) :
  all_digits ds = true -> is_digit c = false -> is_sep c = false ->
  parse_after_prefix (S_SET_MODE +:+ String SEPARATOR (ds +:+ String c r))
  = inl MissingSeparator.
Proof.
  intros Hd Hc Hs. unfold parse_after_prefix.
  change (S_SET_MODE +:+ String SEPARATOR (ds +:+ String c r))
    with (String (chr "s") (String (chr "e") (String (chr "t")
           (String SEPARATOR (ds +:+ String c r))))).
  set (tl := ds +:+ String c r).
  assert (Htl : tl <> EmptyString) by (subst tl; destruct ds; discriminate).
  replace (cmp_tokens _ S_SET_TOK) with (Some (String SEPARATOR tl))
    by reflexivity.
  replace (skip_token _) with (skip_separator (Some (String SEPARATOR tl)) None)
    by reflexivity.
  rewrite skip_separator_sep by exact Htl. subst tl.
  pose proof (to_num_stops_at_non_digit
                (snd (token (ds +:+ String c r))) ds c r Hd Hc Hs) as Hstop.
  destruct (to_num _ _) as [a pos]. cbn [snd] in Hstop.
  rewrite Hstop. reflexivity.
Qed.

(** X10: a topic whose address token has a character that is neither a
    digit nor a separator behind its leading digits is rejected, outside
    the set branch (unless the token starts the word "set") and inside
    it: "<prefix>/5x/mode", "<prefix>/-5/mode" and "<prefix>/set/set/5/mode"
    parse to the default path. *)
Theorem address_with_non_digit_rejected (pfx ds : cstr) (c : ascii) (r : cstr) :
  good_prefix pfx ->
  all_digits ds = true -> is_digit c = false -> is_sep c = false ->
  (ds <> EmptyString \/ c <> chr "s" ->
   parse pfx (pfx +:+ String SEPARATOR (ds +:+ String c r)) = Path_default)
  /\ parse pfx
       (pfx +:+ String SEPARATOR
          (S_SET_MODE +:+ String SEPARATOR (ds +:+ String c r)))
     = Path_default.
Proof.
  intros Hg Hd Hc Hs. split.
  - intros Hne. rewrite parse_behind_good_prefix;
      [| exact Hg | destruct ds; discriminate].
    now rewrite parse_after_prefix_non_digit.
  - rewrite parse_behind_good_prefix; [| exact Hg | discriminate].
    now rewrite parse_after_prefix_set_non_digit.
Qed.

Lemma address_with_non_digit_rejected_witness :
  (good_prefix "hr20" /\ all_digits "5" = true /\ is_digit (chr "x") = false
   /\ is_sep (chr "x") = false)
  /\ parse "hr20" "hr20/5x/mode" = Path_default
  /\ parse "hr20" "hr20/set/5x/mode" = Path_default.
Proof.
  assert (Hg : good_prefix "hr20") by (split; [reflexivity | simpl; lia]).
  split; [repeat split; simpl; lia |].
  destruct (address_with_non_digit_rejected "hr20" "5" (chr "x") "/mode" Hg
              eq_refl eq_refl eq_refl) as [Ha Hb].
  split; [apply Ha; left; discriminate | exact Hb].
Defined.

(** ** The set branch *)

Lemma parse_timer_setter (a : Z) (pos : cstr) :
  parse_timer a true pos
  = match parse_timer a false pos with
    | inl e => inl e
    | inr p => inr (with_setter true p)
    end.
Proof.
  unfold parse_timer. cbv zeta.
  destruct (negb (is_sep (deref _))); [reflexivity |].
  destruct (to_num _ _) as [d p1].
  destruct (negb (is_sep (deref _))); [reflexivity |].
  destruct (to_num _ _) as [s p2].
  destruct (negb (is_sep (deref _))); [reflexivity |].
  destruct (decide _); reflexivity.
Qed.

Lemma parse_after_prefix_set (rest : cstr) :
  rest <> EmptyString -> cmp_tokens (token rest) S_SET_TOK = None ->
  parse_after_prefix (S_SET_MODE +:+ String SEPARATOR rest)
  = match parse_after_prefix rest with
    | inl e => inl e
    | inr p => inr (with_setter true p)
    end.
Proof.
  intros Hne Hcmp. unfold parse_after_prefix at 1.
  change (S_SET_MODE +:+ String SEPARATOR rest)
    with (String (chr "s") (String (chr "e") (String (chr "t")
           (String SEPARATOR rest)))).
  replace (cmp_tokens _ S_SET_TOK) with (Some (String SEPARATOR rest))
    by reflexivity.
  replace (skip_token _) with (skip_separator (Some (String SEPARATOR rest)) None)
    by reflexivity.
  rewrite skip_separator_sep by exact Hne.
  unfold parse_after_prefix. rewrite Hcmp.
  destruct (to_num _ _) as [a pos].
  destruct rest as [|x rest]; [congruence |].
  destruct (negb (is_sep (deref pos))); [reflexivity |].
  destruct (decide (_ = INVALID_TOPIC)); [reflexivity |].
  destruct (decide (_ = TIMER)); [apply parse_timer_setter | reflexivity].
Qed.

(** X11: the set branch changes the setter flag and nothing else: behind a
    good prefix, "<prefix>/set/<rest>" parses to the path of
    "<prefix>/<rest>" with [setter] set, and to the default path when
    "<prefix>/<rest>" is rejected (for a <rest> whose first token is not
    "set"). *)
Theorem set_branch_only_sets_flag (pfx rest : cstr) :
  good_prefix pfx -> rest <> EmptyString ->
  cmp_tokens (token rest) S_SET_TOK = None ->
  let plain := parse pfx (pfx +:+ String SEPARATOR rest) in
  parse pfx (pfx +:+ String SEPARATOR (S_SET_MODE +:+ String SEPARATOR rest))
  = if decide (topic plain = INVALID_TOPIC) then Path_default
    else with_setter true plain.
Proof.
  intros Hg Hne Hcmp plain. subst plain.
  rewrite !parse_behind_good_prefix; [| exact Hg | exact Hne | exact Hg | discriminate].
  rewrite parse_after_prefix_set by assumption.
  destruct (parse_after_prefix rest) as [e | p] eqn:E; [reflexivity |].
  apply parse_after_prefix_inr in E. destruct E as (_ & Ht & _).
  destruct (decide _); [contradiction | reflexivity].
Qed.

Lemma set_branch_only_sets_flag_witness :
  (good_prefix "hr20" /\ "5/timer/1/2/time"%string <> EmptyString
   /\ cmp_tokens (token "5/timer/1/2/time") S_SET_TOK = None)
  /\ parse "hr20" "hr20/set/5/timer/1/2/time"
     = with_setter true (parse "hr20" "hr20/5/timer/1/2/time").
Proof.
  assert (Hg : good_prefix "hr20") by (split; [reflexivity | simpl; lia]).
  assert (Hne : "5/timer/1/2/time"%string <> EmptyString) by discriminate.
  split; [split; [exact Hg | split; [exact Hne | reflexivity]] |].
  exact (set_branch_only_sets_flag "hr20" "5/timer/1/2/time" Hg Hne eq_refl).
Defined.

(** ** Incomplete topics *)

Lemma skip_prefix_loop_same (fuel : nat) (x : option cstr) :
  skip_prefix_loop fuel x x = None \/ skip_prefix_loop fuel x x = Some None.
Proof.
  revert x; induction fuel as [|fuel IH]; intros [s|]; simpl; auto.
  destruct (cmp_tokens _ _); auto.
Qed.

Lemma skip_prefix_same (pfx : cstr) : skip_prefix pfx pfx = None.
Proof.
  unfold skip_prefix.
  destruct (skip_prefix_loop_same (S (String.length pfx))
              (skip_separator (Some pfx) (Some pfx))) as [E | E];
    now rewrite E.
Qed.

Lemma skip_prefix_loop_bare (fuel : nat) (q : cstr) :
  ends_in_token q = true -> (String.length q < 256)%nat ->
  (String.length q < fuel)%nat ->
  skip_prefix_loop fuel (Some (q +:+ sep_str)) (Some q) = Some None.
Proof.
  revert q; induction fuel as [|fuel IH]; intros q Hq Hlen Hfuel; [lia |].
  pose proof (span_le q) as Hsp. unfold sep_str.
  rewrite skip_prefix_loop_step, cmp_tokens_token, !skip_token_token.
  rewrite span_append_sep, Nat.eqb_refl.
  rewrite (Nat.mod_small (span q) 256) by lia.
  rewrite strncmp_eq_append by lia. cbv beta iota delta [negb].
  rewrite advance_append by lia.
  destruct (advance_span_boundary q) as [E | E].
  - rewrite E, append_nil_l. destruct fuel; reflexivity.
  - assert (Hne : advance (span q) q <> EmptyString)
      by (intros E'; rewrite E' in E; discriminate).
    pose proof (ends_in_token_advance _ _ Hne) as Hend. rewrite Hq in Hend.
    pose proof (suffix_of_length _ _ (suffix_of_advance (span q) q)) as Hl.
    destruct (advance (span q) q) as [|c r] eqn:Eadv; [congruence |].
    simpl in E. apply Ascii.eqb_eq in E. subst c.
    assert (Hr : r <> EmptyString) by (intros ->; discriminate).
    rewrite ends_in_token_cons in Hend by exact Hr.
    rewrite append_cons, !skip_separator_sep;
      [| exact Hr | destruct r; [congruence | discriminate]].
    simpl in Hl. apply IH; [exact Hend | lia | lia].
Qed.

Lemma skip_prefix_bare (pfx : cstr) :
  good_prefix pfx -> skip_prefix (pfx +:+ sep_str) pfx = None.
Proof.
  intros [Hend Hlen].
  destruct (skip_prefix_terminates (pfx +:+ sep_str) pfx) as (r & Hloop & ->).
  enough (Hgoal : forall fuel, (String.length pfx < fuel)%nat ->
            skip_prefix_loop fuel
              (skip_separator (Some (pfx +:+ sep_str)) (Some (pfx +:+ sep_str)))
              (skip_separator (Some pfx) (Some pfx)) = Some None).
  { rewrite Hgoal in Hloop; [congruence |]. rewrite length_append. simpl. lia. }
  intros fuel Hfuel.
  destruct pfx as [|c pfx]; [discriminate |].
  destruct (is_sep c) eqn:E.
  - apply Ascii.eqb_eq in E. subst c.
    assert (Hp : pfx <> EmptyString) by (intros ->; discriminate).
    rewrite ends_in_token_cons in Hend by exact Hp.
    rewrite append_cons, !skip_separator_sep;
      [| exact Hp | destruct pfx; [congruence | discriminate]].
    simpl in Hlen, Hfuel.
    apply skip_prefix_loop_bare; [exact Hend | lia | lia].
  - rewrite !skip_separator_other by (simpl; now rewrite E).
    apply skip_prefix_loop_bare; assumption.
Qed.

(** X12: incomplete topics are rejected: the bare prefix parses to the
    default path for every prefix, and behind a good prefix so do
    "<prefix>/", "<prefix>/set", "<prefix>/set/", "<prefix>/5" and
    "<prefix>/5/". *)
Theorem incomplete_topic_rejected (pfx : cstr) :
  parse pfx pfx = Path_default
  /\ (good_prefix pfx ->
      parse pfx (pfx +:+ "/") = Path_default
      /\ parse pfx (pfx +:+ "/set") = Path_default
      /\ parse pfx (pfx +:+ "/set/") = Path_default
      /\ parse pfx (pfx +:+ "/5") = Path_default
      /\ parse pfx (pfx +:+ "/5/") = Path_default).
Proof.
  split.
  - unfold parse, parse_result. now rewrite skip_prefix_same.
  - intros Hg. split.
    + unfold parse, parse_result.
      change "/"%string with sep_str. now rewrite skip_prefix_bare.
    + repeat split;
        (etransitivity;
         [eapply (parse_behind_good_prefix pfx); [exact Hg | discriminate]
         | reflexivity]).
Qed.

(** ** Composed topics *)

Lemma dec_u8_length (n : Z) : (String.length (dec_u8 n) <= 3)%nat.
Proof. unfold dec_u8. destruct (n <? 10), (n <? 100); simpl; lia. Qed.

Lemma compose_tail_length (p : Path) : (String.length (compose_tail p) <= 26)%nat.
Proof.
  unfold compose_tail.
  pose proof (dec_u8_length (addr p)). pose proof (dec_u8_length (day p)).
  pose proof (dec_u8_length (slot p)).
  rewrite !length_append. cbn [String.length]. rewrite !length_append.
  destruct (decide (topic p = TIMER)) as [E | E].
  - rewrite E. cbn [String.length]. rewrite !length_append.
    cbn [String.length]. rewrite !length_append. cbn [String.length].
    assert ((String.length (default EmptyString
                              (timer_topic_str (timer_topic p))) <= 4)%nat)
      by (destruct (timer_topic p); simpl; lia).
    destruct (setter p); simpl; lia.
  - assert ((String.length (topic_str (topic p)) <= 14)%nat)
      by (destruct (topic p); simpl; lia).
    destruct (setter p); simpl; lia.
Qed.

Lemma compose_fits (pfx : cstr) (p : Path) :
  (String.length pfx <= 100)%nat ->
  (String.length (compose_text pfx p) <= String.length pfx + 27)%nat
  /\ compose pfx MAX_MQTT_PATH_LENGTH p = Some (compose_text pfx p).
Proof.
  intros H. pose proof (compose_tail_length p) as Ht.
  assert (Hl : (String.length (compose_text pfx p)
                <= String.length pfx + 27)%nat).
  { rewrite compose_text_tail, length_append. simpl. lia. }
  split; [exact Hl |]. unfold compose, StrMaker_str, MAX_MQTT_PATH_LENGTH.
  replace (_ <? _)%nat with true; [reflexivity |].
  symmetry. apply Nat.ltb_lt. lia.
Qed.

(** X13: with a prefix of at most 100 characters, every path composes into
    the path buffer of [MAX_MQTT_PATH_LENGTH] bytes: the text is at most 27
    characters longer than the prefix. *)
Theorem compose_fits_path_buffer (pfx : cstr) (p : Path) :
  (String.length pfx <= 100)%nat ->
  (String.length (compose_text pfx p) <= String.length pfx + 27)%nat
  /\ compose pfx MAX_MQTT_PATH_LENGTH p = Some (compose_text pfx p).
Proof. apply compose_fits. Qed.

Lemma compose_fits_path_buffer_witness :
  (String.length "hr20" <= 100)%nat
  /\ compose "hr20" MAX_MQTT_PATH_LENGTH
       (Path_make 255 TIMER true TIMER_MODE 255 255)
     = Some "hr20/set/255/timer/255/255/mode"%string.
Proof.
  assert (H : (String.length "hr20" <= 100)%nat) by (simpl; lia).
  split; [exact H |].
  destruct (compose_fits_path_buffer "hr20"
              (Path_make 255 TIMER true TIMER_MODE 255 255) H) as [_ Hc].
  exact Hc.
Defined.

(** X14: behind a good prefix two different paths never compose to the same
    topic (for paths whose numbers fit eight bits, with a real topic and
    timer fields that fit the topic). *)
Theorem compose_injective (pfx : cstr) (p q : Path) :
  good_prefix pfx -> Path_wf p -> Path_wf q ->
  compose_text pfx p = compose_text pfx q -> p = q.
Proof.
  intros Hg Hp Hq E.
  rewrite <- (parse_compose_text pfx p Hg Hp), <- (parse_compose_text pfx q Hg Hq).
  now rewrite E.
Qed.

Lemma compose_injective_witness :
  good_prefix "hr20"
  /\ Path_wf (parse "hr20" "hr20/005/mode")
  /\ Path_wf (Path_make3 5 MODE false)
  /\ compose_text "hr20" (parse "hr20" "hr20/005/mode")
     = compose_text "hr20" (Path_make3 5 MODE false)
  /\ parse "hr20" "hr20/005/mode" = Path_make3 5 MODE false.
Proof.
  assert (Hg : good_prefix "hr20") by (split; [reflexivity | simpl; lia]).
  assert (Hw : Path_wf (Path_make3 5 MODE false)).
  { unfold Path_wf. simpl. repeat split; try lia; discriminate. }
  split; [exact Hg |]. split; [exact Hw |]. split; [exact Hw |].
  split; [reflexivity |].
  exact (compose_injective "hr20" _ _ Hg Hw Hw eq_refl).
Defined.

(** X15: every topic the parser accepts has a canonical form: composing the
    parsed path gives a topic that parses to the same path (leading zeros,
    a leading separator and the text behind "timer" are gone from it). *)
Theorem accepted_topic_has_canonical_form (pfx s : cstr) :
  good_prefix pfx -> parse pfx s <> Path_default ->
  parse pfx (compose_text pfx (parse pfx s)) = parse pfx s.
Proof.
  intros Hg Hne. apply parse_compose_text; [exact Hg |].
  destruct (parse_cases pfx s) as [(e & _ & E) | (pos & _ & H)];
    [contradiction |].
  now apply parsed_from_wf in H.
Qed.

Lemma accepted_topic_has_canonical_form_witness :
  (good_prefix "hr20" /\ parse "hr20" "/hr20/set/007/timerX/01/2/time" <> Path_default)
  /\ compose_text "hr20" (parse "hr20" "/hr20/set/007/timerX/01/2/time")
     = "hr20/set/7/timer/1/2/time"%string
  /\ parse "hr20" "hr20/set/7/timer/1/2/time"
     = parse "hr20" "/hr20/set/007/timerX/01/2/time".
Proof.
  assert (Hg : good_prefix "hr20") by (split; [reflexivity | simpl; lia]).
  assert (Hne : parse "hr20" "/hr20/set/007/timerX/01/2/time" <> Path_default)
    by discriminate.
  split; [split; assumption |]. split; [reflexivity |].
  exact (accepted_topic_has_canonical_form "hr20" _ Hg Hne).
Defined.

(** ** What the parser reads *)

Lemma parse_after_prefix_branch (sm : bool) (ds r : cstr) :
  all_digits ds = true -> (String.length ds < 256)%nat ->
  parse_after_prefix (branch_text sm +:+ ds +:+ String SEPARATOR r)
  = topic_part (digits_value ds 0 mod 256) sm r.
Proof.
  intros Hd Hl. destruct sm; unfold branch_text.
  - now apply parse_after_prefix_set_digits.
  - rewrite append_nil_l. now apply parse_after_prefix_digits.
Qed.

Lemma topic_text_parse (pos : cstr) (p : Path) :
  topic_text pos p -> parse_after_prefix pos = inr p.
Proof.
  intros [sm ds t Hd Hl Hi Ht | sm ds junk d sl tt sub Hd Hl Hj Hlj Hdd Hld Hs Hls Hsub].
  - rewrite parse_after_prefix_branch by assumption. now apply topic_part_plain.
  - rewrite parse_after_prefix_branch by assumption.
    rewrite append_assoc, topic_part_timer, <- append_assoc.
    apply parse_timer_digits; try assumption.
    + apply no_sep_append; [reflexivity | exact Hj].
    + rewrite length_append. simpl. lia.
    + destruct tt; try discriminate; [now left | now right].
Qed.

(** The address, the day and the slot: a number read over a token and
    followed by a separator is a run of digits. *)
Lemma to_num_token_inv (pos : cstr) (a : Z) (p1 : cstr) :
  to_num pos (snd (token pos)) = (a, p1) -> is_sep (deref p1) = true ->
  exists ds r,
    pos = ds +:+ String SEPARATOR r /\ p1 = String SEPARATOR r
    /\ all_digits ds = true /\ (String.length ds < 256)%nat
    /\ a = digits_value ds 0 mod 256.
Proof.
  intros H Hs. unfold to_num in H.
  destruct (to_num_loop_spec (snd (token pos)) pos 0)
    as (ds & r0 & E & Hd & Hl & Hn & _).
  change (0 mod 256) with 0 in Hn. rewrite Hn in H. injection H as <- <-.
  destruct r0 as [|c r]; [discriminate |]. simpl in Hs.
  apply Ascii.eqb_eq in Hs. subst c.
  exists ds, r. repeat split; try assumption.
  unfold token in Hl. cbn [snd] in Hl.
  pose proof (Nat.mod_upper_bound (span pos) 256). lia.
Qed.

(** The token of a timer topic: a token followed by a separator is
    shorter than 256 characters. *)
Lemma token_inv (pos p1 : cstr) :
  advance (snd (token pos)) (fst (token pos)) = p1 ->
  is_sep (deref p1) = true ->
  exists seg r,
    pos = seg +:+ String SEPARATOR r /\ p1 = String SEPARATOR r
    /\ no_sep seg /\ (String.length seg < 256)%nat.
Proof.
  unfold token. cbn [fst snd]. intros H Hs.
  assert (Hlt : (span pos < 256)%nat).
  { destruct (Nat.lt_ge_cases (span pos) 256) as [L | L]; [exact L |].
    exfalso.
    destruct (advance_inside_span (span pos mod 256) pos) as (c & r & E & Hc).
    { pose proof (Nat.mod_upper_bound (span pos) 256). lia. }
    rewrite E in H. subst p1. simpl in Hs. congruence. }
  rewrite Nat.mod_small in H by exact Hlt.
  destruct p1 as [|c r]; [discriminate |]. simpl in Hs.
  apply Ascii.eqb_eq in Hs. subst c.
  exists (take_n (span pos) pos), r.
  split; [rewrite <- H; symmetry; apply take_advance |].
  split; [reflexivity |].
  assert (Hn : no_sep (take_n (span pos) pos)) by (apply no_sep_take_n; lia).
  split; [exact Hn |].
  assert (E : pos = take_n (span pos) pos +:+ String SEPARATOR r)
    by (rewrite <- H; symmetry; apply take_advance).
  assert (Hsp : span pos = String.length (take_n (span pos) pos)).
  { rewrite E at 1. rewrite span_append_sep. exact Hn. }
  lia.
Qed.

Lemma parse_timer_text (a : Z) (sm : bool) (r : cstr) (p : Path) :
  parse_topic r = TIMER -> parse_timer a sm r = inr p ->
  exists junk d sl tt sub,
    r = (S_TIMER +:+ junk)
        +:+ String SEPARATOR
              (d +:+ String SEPARATOR (sl +:+ String SEPARATOR sub))
    /\ no_sep junk /\ (String.length junk < 251)%nat
    /\ all_digits d = true /\ (String.length d < 256)%nat
    /\ all_digits sl = true /\ (String.length sl < 256)%nat
    /\ timer_topic_str tt = Some sub
    /\ p = Path_make a TIMER sm tt
             (digits_value d 0 mod 256) (digits_value sl 0 mod 256).
Proof.
  intros Ht. apply parse_topic_timer in Ht as [r' Er].
  unfold parse_timer.
  destruct (is_sep (deref (advance (snd (token r)) (fst (token r))))) eqn:S1;
    cbn [negb]; [| discriminate].
  destruct (token_inv r _ eq_refl S1) as (seg & r1 & E1 & P1 & Hseg & Lseg).
  rewrite P1. cbn [next].
  destruct (to_num r1 (snd (token r1))) as [dv p2] eqn:Ed.
  destruct (is_sep (deref p2)) eqn:S2; cbn [negb]; [| discriminate].
  destruct (to_num_token_inv r1 dv p2 Ed S2) as (d & r2 & E2 & P2 & Hd & Ld & Vd).
  rewrite P2. cbn [next].
  destruct (to_num r2 (snd (token r2))) as [sv p3] eqn:Es.
  destruct (is_sep (deref p3)) eqn:S3; cbn [negb]; [| discriminate].
  destruct (to_num_token_inv r2 sv p3 Es S3) as (sl & r3 & E3 & P3 & Hs & Ls & Vs).
  rewrite P3. cbn [next].
  destruct (decide _) as [|Hn]; [discriminate |].
  intros [= <-].
  destruct (parse_timer_topic_Some r3 _ eq_refl Hn) as [_ Hsub].
  (* the token starts with "timer" *)
  assert (Hj : exists junk, seg = S_TIMER +:+ junk).
  { rewrite E1 in Er. unfold S_TIMER in *.
    destruct seg as [|c1 [|c2 [|c3 [|c4 [|c5 seg]]]]]; simpl in Er;
      try discriminate Er.
    injection Er as -> -> -> -> -> _. now exists seg. }
  destruct Hj as [junk ->].
  exists junk, d, sl, (parse_timer_topic (Some r3)), r3.
  split; [rewrite E1, E2, E3; reflexivity |].
  assert (Hnj : no_sep junk).
  { unfold no_sep in Hseg |- *. simpl in Hseg. lia. }
  rewrite length_append in Lseg. simpl in Lseg.
  repeat split; try assumption; try lia.
  now rewrite Vd, Vs.
Qed.

Lemma topic_part_text (a : Z) (sm : bool) (r : cstr) (p : Path) :
  topic_part a sm r = inr p ->
  (exists t, t <> INVALID_TOPIC /\ t <> TIMER /\ r = topic_str t
             /\ p = Path_make3 a t sm)
  \/ (exists junk d sl tt sub,
        r = (S_TIMER +:+ junk)
            +:+ String SEPARATOR
                  (d +:+ String SEPARATOR (sl +:+ String SEPARATOR sub))
        /\ no_sep junk /\ (String.length junk < 251)%nat
        /\ all_digits d = true /\ (String.length d < 256)%nat
        /\ all_digits sl = true /\ (String.length sl < 256)%nat
        /\ timer_topic_str tt = Some sub
        /\ p = Path_make a TIMER sm tt
                 (digits_value d 0 mod 256) (digits_value sl 0 mod 256)).
Proof.
  unfold topic_part.
  destruct (decide (parse_topic r = INVALID_TOPIC)) as [|Hi]; [discriminate |].
  destruct (decide (parse_topic r = TIMER)) as [Ht|Ht].
  - intros H. right. now apply parse_timer_text.
  - intros [= <-]. left. exists (parse_topic r).
    repeat split; try assumption. now apply parse_topic_exact.
Qed.

Lemma set_branch_text (pos pos' x : cstr) :
  cmp_tokens (token pos) S_SET_TOK = Some x ->
  skip_token (token pos) = Some pos' ->
  pos = (S_SET_MODE +:+ sep_str) +:+ pos'.
Proof.
  unfold cmp_tokens, S_SET_TOK. cbn [fst snd].
  destruct (Nat.eqb (snd (token pos)) (String.length S_SET_MODE)) eqn:En;
    cbn [negb]; [| discriminate].
  apply Nat.eqb_eq in En. rewrite En.
  destruct (strncmp_eq (fst (token pos)) S_SET_MODE (String.length S_SET_MODE))
    eqn:Ec; [| discriminate].
  intros _ Hsk. apply skip_token_Some in Hsk as [Hsk _].
  rewrite En in Hsk. cbn [fst token] in Hsk, Ec.
  destruct pos as [|c1 [|c2 [|c3 r]]]; simpl in Ec; try discriminate;
    repeat match type of Ec with
           | (if Ascii.eqb ?x ?y then _ else _) = true =>
               let E := fresh in
               destruct (Ascii.eqb x y) eqn:E; [|discriminate];
               apply Ascii.eqb_eq in E; subst x
           end.
  simpl in Hsk. subst r. reflexivity.
Qed.

Lemma parse_after_prefix_text (pos : cstr) (p : Path) :
  parse_after_prefix pos = inr p -> topic_text pos p.
Proof.
  unfold parse_after_prefix. destruct pos as [|c0 r0]; [discriminate |].
  set (pos := String c0 r0).
  assert (Hbr : forall sm pos' a p1,
             pos = branch_text sm +:+ pos' ->
             to_num pos' (snd (token pos')) = (a, p1) ->
             is_sep (deref p1) = true ->
             topic_part a sm (next p1) = inr p -> topic_text pos p).
  { intros sm pos' a p1 E En Hs H.
    destruct (to_num_token_inv pos' a p1 En Hs) as (ds & r & E' & P1 & Hd & Hl & Va).
    rewrite P1 in H. cbn [next] in H. rewrite E, E', Va in *.
    apply topic_part_text in H
      as [(t & Hi & Ht & -> & ->)
         | (junk & d & sl & tt & sub & -> & Hj & Lj & Hdd & Ld & Hs' & Ls & Hsub & ->)].
    - now apply text_plain.
    - now apply text_timer. }
  destruct (cmp_tokens (token pos) S_SET_TOK) as [x|] eqn:Ec.
  - destruct (skip_token (token pos)) as [pos'|] eqn:Esk; [|discriminate].
    pose proof (set_branch_text pos pos' x Ec Esk) as E.
    destruct (to_num pos' (snd (token pos'))) as [a p1] eqn:En.
    destruct (is_sep (deref p1)) eqn:Hs; cbn [negb]; [| discriminate].
    intros H. exact (Hbr true pos' a p1 E En Hs H).
  - destruct (to_num pos (snd (token pos))) as [a p1] eqn:En.
    destruct (is_sep (deref p1)) eqn:Hs; cbn [negb]; [| discriminate].
    intros H. apply (Hbr false pos a p1); try assumption.
    unfold branch_text. now rewrite append_nil_l.
Qed.

Lemma topic_text_not_default (pos : cstr) (p : Path) :
  topic_text pos p -> p <> Path_default.
Proof.
  intros [sm ds t Hd Hl Hi Ht | sm ds junk d sl tt sub _ _ _ _ _ _ _ _ _] E.
  - apply Hi. now injection E.
  - discriminate E.
Qed.

Lemma topic_text_addr (pos : cstr) (p : Path) :
  topic_text pos p -> 0 <= addr p < 256.
Proof.
  intros [sm ds t _ _ _ _ | sm ds junk d sl tt sub _ _ _ _ _ _ _ _ _];
    cbn [addr Path_make3 Path_make]; apply Z.mod_pos_bound; lia.
Qed.

(** C4, as the code has it.  Behind the prefix [Path::parse] reads
    exactly the texts of [topic_text].  Such a text gives the path read from
    it, every field filled.  Every other text, and every text whose prefix
    [skip_prefix] does not accept, gives the default path: address 0, topic
    INVALID, nothing else set.  [valid()] is false for the default path and
    for a path read from a text whose address token is empty or counts 0
    modulo 256, which has its other fields filled; it is true exactly for
    a path read with an address from 1 to 255. *)
Theorem parse_default_or_read (prefix s : cstr) :
  (forall pos p,
     skip_prefix s prefix = Some pos -> topic_text pos p -> parse prefix s = p)
  /\ (parse prefix s = Path_default
      <-> forall pos p, skip_prefix s prefix = Some pos -> ~ topic_text pos p)
  /\ (valid (parse prefix s) = false
      <-> parse prefix s = Path_default
          \/ exists pos p,
               skip_prefix s prefix = Some pos /\ topic_text pos p
               /\ parse prefix s = p /\ addr p = 0)
  /\ (valid (parse prefix s) = true
      <-> exists pos p,
            skip_prefix s prefix = Some pos /\ topic_text pos p
            /\ parse prefix s = p /\ 1 <= addr p <= 255).
Proof.
  assert (H1 : forall pos p,
             skip_prefix s prefix = Some pos -> topic_text pos p ->
             parse prefix s = p).
  { intros pos p E H. unfold parse, parse_result. rewrite E.
    now rewrite (topic_text_parse pos p H). }
  assert (H2 : parse prefix s = Path_default
               \/ exists pos, skip_prefix s prefix = Some pos
                              /\ topic_text pos (parse prefix s)).
  { unfold parse, parse_result.
    destruct (skip_prefix s prefix) as [pos|]; [| now left].
    destruct (parse_after_prefix pos) as [e | p] eqn:E; [now left | right].
    exists pos. split; [reflexivity | now apply parse_after_prefix_text]. }
  split; [exact H1 | split; [| split]].
  - split.
    + intros E pos p Hp Ht. apply (topic_text_not_default pos p Ht).
      now rewrite <- (H1 pos p Hp Ht).
    + intros Hno. destruct H2 as [E | (pos & Hp & Ht)]; [exact E |].
      destruct (Hno pos _ Hp Ht).
  - split.
    + intros Hv. destruct H2 as [E | (pos & Hp & Ht)]; [now left | right].
      exists pos, (parse prefix s). repeat split; try assumption.
      unfold valid in Hv. apply negb_false_iff, Z.eqb_eq in Hv. exact Hv.
    + intros [E | (pos & p & _ & _ & E & Ha)].
      * now rewrite E.
      * rewrite E. unfold valid. now rewrite Ha.
  - split.
    + intros Hv. destruct H2 as [E | (pos & Hp & Ht)].
      * rewrite E in Hv. discriminate.
      * exists pos, (parse prefix s). repeat split; try assumption;
          pose proof (topic_text_addr _ _ Ht) as Hr;
          unfold valid in Hv; apply negb_true_iff, Z.eqb_neq in Hv; lia.
    + intros (pos & p & _ & _ & E & Ha). rewrite E. unfold valid.
      apply negb_true_iff, Z.eqb_neq. lia.
Qed.

(** C4 as stated fails: an address token that is empty, "0" or "256"
    passes every check of the parser; the result has address 0, so
    [valid()] is false, and the topic, the setter flag and the timer
    fields are filled from the text. *)
Lemma parse_fills_invalid_path :
  parse "hr20" "hr20/set//timer/9/9/time"
  = Path_make 0 TIMER true TIMER_TIME 9 9
  /\ valid (parse "hr20" "hr20/set//timer/9/9/time") = false
  /\ parse "hr20" "hr20/set//timer/9/9/time" <> Path_default
  /\ skip_prefix "hr20/set//timer/9/9/time" "hr20" = Some "set//timer/9/9/time"%string
  /\ topic_text "set//timer/9/9/time" (Path_make 0 TIMER true TIMER_TIME 9 9)
  /\ parse "hr20" "hr20/0/mode" = Path_make3 0 MODE false
  /\ parse "hr20" "hr20/256/lock" = Path_make3 0 LOCK false.
Proof.
  split; [reflexivity |]. split; [reflexivity |]. split; [discriminate |].
  split; [reflexivity |]. split; [| split; reflexivity].
  exact (text_timer true "" "" "9" "9" TIMER_TIME "time"
           eq_refl ltac:(simpl; lia) eq_refl ltac:(simpl; lia)
           eq_refl ltac:(simpl; lia) eq_refl ltac:(simpl; lia) eq_refl).
Qed.

(** * Properties of the publisher *)

Import MQTTPublisher PublisherDefs.

Lemma publishes_app (l r : list Event) :
  publishes (l ++ r) = (publishes l + publishes r)%nat.
Proof. induction l as [|e l IH]; simpl; [reflexivity | rewrite IH; lia]. Qed.

Lemma attempts_emit (e : Event) (w : t) :
  attempts (emit e w)
  = (attempts w + if is_publish e then 1 else 0)%nat.
Proof. unfold attempts. simpl. rewrite publishes_app. simpl. lia. Qed.

Lemma frame_refl (w : t) : frame w w.
Proof. repeat split. Qed.

Lemma frame_trans (a b c : t) : frame a b -> frame b c -> frame a c.
Proof.
  intros (H1 & H2 & H3 & H4) (G1 & G2 & G3 & G4).
  repeat split; congruence.
Qed.

Lemma frame_emit (e : Event) (w : t) :
  is_publish e = false -> frame w (emit e w).
Proof.
  intros H. repeat split. rewrite attempts_emit, H. lia.
Qed.

Lemma frame_store (a : Z) (hr : HR20) (w : t) :
  is_Some (model w !! a) -> frame w (store a hr w).
Proof.
  intros H. repeat split. simpl.
  apply elem_of_dom in H. rewrite dom_insert_L.
  apply subseteq_union_1_L, singleton_subseteq_l, H.
Qed.

Lemma frame_with_client (c : PubSubClient) (w : t) : frame w (with_client c w).
Proof. repeat split. Qed.

Lemma frame_with_last_conn (v : Z) (w : t) : frame w (with_last_conn v w).
Proof. repeat split. Qed.

Lemma frame_lookup (w w' : t) (a : Z) :
  frame w w' -> (is_Some (model w' !! a) <-> is_Some (model w !! a)).
Proof. intros (_ & _ & _ & H). rewrite <- !elem_of_dom, H. reflexivity. Qed.

Lemma frame_states_get (w w' : t) (a : Z) :
  frame w w' -> states_get a w' = states_get a w.
Proof. intros (H & _). unfold states_get. now rewrite H. Qed.

Section Facts.

Context `{cfg : Config} `{ops : DeviceOps}.

Lemma reconnect_frame (now : Z) (w : t) : frame w (snd (reconnect now w)).
Proof.
  unfold reconnect. destruct (negb (connected (client w))); [| apply frame_refl].
  destruct (_ <? _); [apply frame_refl |].
  destruct (_ && _); unfold client_connect;
    cbn [fst snd client with_last_conn];
    destruct (connect_result (client w)); cbn [fst snd negb];
    unfold client_subscribe;
    repeat (eapply frame_trans; [| apply frame_emit; reflexivity]);
    (eapply frame_trans; [apply frame_with_last_conn | apply frame_with_client]).
Qed.

Lemma callback_done_frame (p : Path) (ok : bool) (w : t) :
  frame w (callback_done p ok w).
Proof.
  unfold callback_done. destruct (negb ok);
    repeat (eapply frame_trans; [| apply frame_emit; reflexivity]);
    apply frame_refl.
Qed.

(** Closes a frame goal whose last step is the end of [callback]. *)
Ltac before_callback_done tac :=
  eapply frame_trans; [| apply callback_done_frame]; tac.

Lemma callback_frame (topic_ : cstr) (payload : string) (w : t) :
  frame w (callback topic_ payload w).
Proof.
  unfold callback.
  destruct (negb (valid _)); [apply frame_emit; reflexivity |].
  destruct (negb (setter _)); [apply frame_emit; reflexivity |].
  destruct (model w !! Path_addr (parse prefix topic_)) as [hr|] eqn:E;
    [| apply frame_emit; reflexivity].
  assert (Hs : forall e hr', is_publish e = false ->
            frame w (store (Path_addr (parse prefix topic_)) hr' (emit e w))).
  { intros e hr' He. eapply frame_trans; [apply frame_emit, He |].
    apply frame_store. simpl. rewrite E. eauto. }
  destruct (topic (parse prefix topic_));
    try (apply frame_emit; reflexivity);
    unfold call_set_requested, call_set_timer_mode, call_set_timer_time.
  - destruct (set_requested_from_str _ _) as [ok v].
    before_callback_done ltac:(apply Hs; reflexivity).
  - destruct (set_requested_from_str _ _) as [ok v].
    before_callback_done ltac:(apply Hs; reflexivity).
  - destruct (set_requested_from_str _ _) as [ok v].
    before_callback_done ltac:(apply Hs; reflexivity).
  - destruct (_ <=? _);
      [before_callback_done ltac:(apply frame_emit; reflexivity) |].
    destruct (_ <=? _);
      [before_callback_done ltac:(apply frame_emit; reflexivity) |].
    destruct (timer_topic _);
      try (before_callback_done ltac:(apply frame_emit; reflexivity)).
    + destruct (set_timer_time _ _ _ _) as [ok hr'].
      before_callback_done ltac:(apply Hs; reflexivity).
    + destruct (set_timer_mode _ _ _ _) as [ok hr'].
      before_callback_done ltac:(apply Hs; reflexivity).
Qed.

Lemma client_loop_frame (w : t) : frame w (client_loop w).
Proof.
  unfold client_loop.
  set (w0 := with_client _ w).
  assert (H0 : frame w w0) by apply frame_with_client.
  clearbody w0. revert w0 H0.
  induction (inbox (client w)) as [|m l IH]; intros w0 H0; simpl; [exact H0 |].
  apply IH. eapply frame_trans; [exact H0 | apply callback_frame].
Qed.

End Facts.

(** ** The connection manager *)

Lemma compose_set_prefix_wildcard_fits (pfx : cstr) (b : nat) :
  (String.length pfx + 6 < b)%nat ->
  compose_set_prefix_wildcard pfx b = Some (pfx +:+ "/set/#").
Proof.
  intros H. unfold compose_set_prefix_wildcard, StrMaker_str.
  rewrite append_nil_l, !append_assoc.
  change (String SEPARATOR EmptyString +:+ S_SET_MODE
          +:+ String SEPARATOR EmptyString +:+ String WILDCARD EmptyString)
    with "/set/#"%string.
  replace (String.length (pfx +:+ "/set/#") <? b)%nat with true; [reflexivity |].
  symmetry. apply Nat.ltb_lt. rewrite length_append. simpl. lia.
Qed.

(** C8: while the transport is not connected, [reconnect] makes no attempt
    and reports not ready before the retry interval has passed since the
    last recorded attempt; otherwise it records the time of the attempt
    whatever its outcome, reports the outcome, and after a successful
    connect subscribes to the wildcard topic, which is "<prefix>/set/#"
    when that fits the path buffer.  After an attempt at [now] the next one
    is not made before the interval has passed again. *)
Theorem reconnect_backoff `{cfg : Config} (now : Z) (w : t) :
  connected (client w) = false ->
  (now - last_conn w < MQTT_RECONNECT_TIME -> reconnect now w = (false, w))
  /\ (MQTT_RECONNECT_TIME <= now - last_conn w ->
      last_conn (snd (reconnect now w)) = now
      /\ fst (reconnect now w) = connect_result (client w)
      /\ connected (client (snd (reconnect now w)))
         = connect_result (client w)
      /\ log (snd (reconnect now w))
         = log w
           ++ EvConnect mqtt_client_id
                (if has_credentials then Some mqtt_user else None)
                (if has_credentials then Some mqtt_pass else None)
                (connect_result (client w))
              :: (if connect_result (client w)
                  then [EvEVENT MQTT_CONN;
                        EvSubscribe
                          (compose_set_prefix_wildcard prefix
                             MAX_MQTT_PATH_LENGTH)]
                  else [EvERR MQTT_CANNOT_CONNECT])
      /\ ((String.length prefix + 6 < MAX_MQTT_PATH_LENGTH)%nat ->
          compose_set_prefix_wildcard prefix MAX_MQTT_PATH_LENGTH
          = Some (prefix +:+ "/set/#"))
      /\ (forall now',
            connect_result (client w) = false ->
            now' - now < MQTT_RECONNECT_TIME ->
            reconnect now' (snd (reconnect now w))
            = (false, snd (reconnect now w)))).
Proof.
  intros Hc. unfold reconnect at 1. rewrite Hc. cbn [negb]. split.
  - intros H. apply Z.ltb_lt in H. now rewrite H.
  - intros H. apply Z.ltb_ge in H.
    assert (E :
      reconnect now w
      = (connect_result (client w),
         let w1 := snd (client_connect mqtt_client_id
                          (if has_credentials then Some mqtt_user else None)
                          (if has_credentials then Some mqtt_pass else None)
                          (with_last_conn now w)) in
         if connect_result (client w)
         then client_subscribe
                (compose_set_prefix_wildcard prefix MAX_MQTT_PATH_LENGTH)
                (emit (EvEVENT MQTT_CONN) w1)
         else emit (EvERR MQTT_CANNOT_CONNECT) w1)).
    { unfold reconnect, has_credentials. rewrite Hc, H. cbn [negb].
      destruct (_ && _); unfold client_connect;
        cbn [fst snd client with_last_conn];
        destruct (connect_result (client w)); reflexivity. }
    rewrite E.
    cbn [fst snd]. unfold client_connect. cbn [fst snd client with_last_conn].
    split; [destruct (connect_result (client w)); reflexivity |].
    split; [reflexivity |].
    split; [destruct (connect_result (client w)); reflexivity |].
    split; [destruct (connect_result (client w)); simpl;
            rewrite <- ?app_assoc; reflexivity |].
    split; [apply compose_set_prefix_wildcard_fits |].
    intros now' Hf Hn. rewrite Hf. unfold reconnect. simpl.
    apply Z.ltb_lt in Hn. now rewrite Hn.
Qed.

Lemma reconnect_backoff_witness :
  connected (client (demo 1 0 0 false (fun _ => true))) = false
  /\ (@MQTT_RECONNECT_TIME demo_config
      <= 100 - last_conn (demo 1 0 0 false (fun _ => true)))
  /\ @reconnect demo_config 5 (demo 1 0 0 false (fun _ => true))
     = (false, demo 1 0 0 false (fun _ => true))
  /\ log (snd (@reconnect demo_config 100 (demo 1 0 0 false (fun _ => true))))
     = [EvConnect "hr20" None None true; EvEVENT MQTT_CONN;
        EvSubscribe (Some "hr20/set/#"%string)].
Proof.
  pose proof (@reconnect_backoff demo_config 100
                (demo 1 0 0 false (fun _ => true)) eq_refl) as [_ H].
  pose proof (@reconnect_backoff demo_config 5
                (demo 1 0 0 false (fun _ => true)) eq_refl) as [H5 _].
  assert (Hi : @MQTT_RECONNECT_TIME demo_config
               <= 100 - last_conn (demo 1 0 0 false (fun _ => true)))
    by (simpl; lia).
  split; [reflexivity | split; [exact Hi | split]].
  - apply H5. simpl. lia.
  - destruct (H Hi) as (_ & _ & _ & Hlog & _).
    rewrite Hlog. reflexivity.
Defined.

(** ** The dispatcher *)

(** What the dispatcher does with a valid setter path of a known device
    whose topic is TIMER: the day is checked first, then the slot, then the
    sub-topic selects the setter, which gets the day, the slot and the
    payload as received.  A rejection leaves the device model as it was
    and calls no setter. *)
Lemma callback_timer_dispatch `{cfg : Config} `{ops : DeviceOps}
    (topic_ : cstr) (payload : string) (w : t) (hr : HR20) :
  let p := parse prefix topic_ in
  valid p = true -> setter p = true -> topic p = TIMER ->
  model w !! Path_addr p = Some hr ->
  (TIMER_DAYS <= day p ->
     model (callback topic_ payload w) = model w
     /\ log (callback topic_ payload w)
        = log w ++ [EvERR_ARG MQTT_INVALID_TIMER_TOPIC (Z.lor (day p) 0x10);
                    EvEVENT_ARG MQTT_CALLBACK (as_uint p)])
  /\ (day p < TIMER_DAYS -> TIMER_SLOTS_PER_DAY <= slot p ->
        model (callback topic_ payload w) = model w
        /\ log (callback topic_ payload w)
           = log w ++ [EvERR_ARG MQTT_INVALID_TIMER_TOPIC (Z.lor (slot p) 0x20);
                       EvEVENT_ARG MQTT_CALLBACK (as_uint p)])
  /\ (day p < TIMER_DAYS -> slot p < TIMER_SLOTS_PER_DAY ->
        (timer_topic p = TIMER_MODE
         /\ model (callback topic_ payload w)
            = <[Path_addr p := snd (set_timer_mode hr (day p) (slot p) payload)]>
                (model w)
         /\ log (callback topic_ payload w)
            = log w ++ EvSetTimerMode (day p) (slot p) payload
                :: EvEVENT_ARG MQTT_CALLBACK (as_uint p)
                :: (if fst (set_timer_mode hr (day p) (slot p) payload) then []
                    else [EvERR_ARG MQTT_INVALID_TOPIC_VALUE (as_uint p)]))
        \/ (timer_topic p = TIMER_TIME
            /\ model (callback topic_ payload w)
               = <[Path_addr p := snd (set_timer_time hr (day p) (slot p) payload)]>
                   (model w)
            /\ log (callback topic_ payload w)
               = log w ++ EvSetTimerTime (day p) (slot p) payload
                   :: EvEVENT_ARG MQTT_CALLBACK (as_uint p)
                   :: (if fst (set_timer_time hr (day p) (slot p) payload) then []
                       else [EvERR_ARG MQTT_INVALID_TOPIC_VALUE (as_uint p)]))).
Proof.
  intros p Hv Hs Ht Hm. unfold callback. fold p.
  rewrite Hv, Hs, Hm, Ht. cbn [negb].
  split; [| split].
  - intros Hd. apply Z.leb_le in Hd. rewrite Hd.
    split; [reflexivity |]. simpl. rewrite <- app_assoc. reflexivity.
  - intros Hd Hsl. apply Z.leb_gt in Hd. apply Z.leb_le in Hsl.
    rewrite Hd, Hsl.
    split; [reflexivity |]. simpl. rewrite <- app_assoc. reflexivity.
  - intros Hd Hsl. apply Z.leb_gt in Hd. apply Z.leb_gt in Hsl.
    rewrite Hd, Hsl.
    assert (Hsub : timer_sub (timer_topic p)).
    { subst p.
      destruct (parse_cases prefix topic_) as [(e & _ & E) | (pos & _ & H)];
        [rewrite E in Ht; discriminate |].
      destruct H as (_ & _ & [(Hn & _) | (_ & Hsub & _)]);
        [congruence | exact Hsub]. }
    destruct Hsub as [E | E]; rewrite E; [right | left];
      (split; [reflexivity |]).
    + unfold call_set_timer_time.
      destruct (set_timer_time hr (day p) (slot p) payload) as [ok hr'].
      unfold callback_done.
      destruct ok; (split; [reflexivity |]); simpl;
        rewrite <- !app_assoc; reflexivity.
    + unfold call_set_timer_mode.
      destruct (set_timer_mode hr (day p) (slot p) payload) as [ok hr'].
      unfold callback_done.
      destruct ok; (split; [reflexivity |]); simpl;
        rewrite <- !app_assoc; reflexivity.
Qed.

(** C7 on two messages to a known device at address 3, where at most 48
    days and at most 48 slots are configured: "timer/48/0" has its day out
    of range, "timer/0/48" its slot, and the dispatcher reports the two
    with the same error and the same argument, [48 | 0x10 = 48 | 0x20 = 48].
    Neither calls a setter, the device model is unchanged. *)
Theorem callback_timer_errors_collide `{cfg : Config} `{ops : DeviceOps}
    (payload : string) (w : t) (hr : HR20) :
  good_prefix prefix ->
  0 < TIMER_DAYS <= 48 -> TIMER_SLOTS_PER_DAY <= 48 ->
  model w !! 3 = Some hr ->
  let by_day := callback (prefix +:+ "/set/3/timer/48/0/mode") payload w in
  let by_slot := callback (prefix +:+ "/set/3/timer/0/48/mode") payload w in
  day (parse prefix (prefix +:+ "/set/3/timer/48/0/mode")) = 48
  /\ slot (parse prefix (prefix +:+ "/set/3/timer/0/48/mode")) = 48
  /\ log by_day = log w ++ [EvERR_ARG MQTT_INVALID_TIMER_TOPIC 48;
                            EvEVENT_ARG MQTT_CALLBACK 1347]
  /\ log by_slot = log w ++ [EvERR_ARG MQTT_INVALID_TIMER_TOPIC 48;
                             EvEVENT_ARG MQTT_CALLBACK 1347]
  /\ log by_day = log by_slot
  /\ model by_day = model w /\ model by_slot = model w.
Proof.
  intros Hg Hdays Hslots Hm by_day by_slot.
  assert (Pd : parse prefix (prefix +:+ "/set/3/timer/48/0/mode")
               = Path_make 3 TIMER true TIMER_MODE 48 0).
  { etransitivity;
      [apply (parse_behind_good_prefix prefix "set/3/timer/48/0/mode" Hg);
       discriminate | reflexivity]. }
  assert (Ps : parse prefix (prefix +:+ "/set/3/timer/0/48/mode")
               = Path_make 3 TIMER true TIMER_MODE 0 48).
  { etransitivity;
      [apply (parse_behind_good_prefix prefix "set/3/timer/0/48/mode" Hg);
       discriminate | reflexivity]. }
  pose proof (callback_timer_dispatch
                (prefix +:+ "/set/3/timer/48/0/mode") payload w hr) as Dd.
  pose proof (callback_timer_dispatch
                (prefix +:+ "/set/3/timer/0/48/mode") payload w hr) as Ds.
  cbv zeta in Dd, Ds. rewrite Pd in Dd. rewrite Ps in Ds.
  destruct (Dd eq_refl eq_refl eq_refl Hm) as (Dday & _).
  destruct (Ds eq_refl eq_refl eq_refl Hm) as (_ & Dslot & _).
  destruct Dday as [Md Ld]; [cbn; lia |].
  destruct Dslot as [Ms Ls]; [cbn; lia | cbn; lia |].
  fold by_day in Md, Ld. fold by_slot in Ms, Ls.
  rewrite Pd, Ps.
  split; [reflexivity | split; [reflexivity |]].
  split; [exact Ld | split; [exact Ls | split; [| split; assumption]]].
  rewrite Ld, Ls. reflexivity.
Qed.

Lemma callback_timer_errors_collide_witness :
  let w := demo 0 0 0 true (fun _ => true) in
  (good_prefix (@prefix demo_config)
   /\ 0 < @TIMER_DAYS demo_config <= 48
   /\ @TIMER_SLOTS_PER_DAY demo_config <= 48
   /\ model w !! 3 = Some demo_device)
  /\ log (@callback demo_config demo_ops "hr20/set/3/timer/48/0/mode" "1" w)
     = [EvERR_ARG MQTT_INVALID_TIMER_TOPIC 48; EvEVENT_ARG MQTT_CALLBACK 1347]
  /\ log (@callback demo_config demo_ops "hr20/set/3/timer/0/48/mode" "1" w)
     = [EvERR_ARG MQTT_INVALID_TIMER_TOPIC 48; EvEVENT_ARG MQTT_CALLBACK 1347].
Proof.
  intros w.
  assert (Hg : good_prefix (@prefix demo_config))
    by (split; [reflexivity | simpl; lia]).
  assert (Hd : 0 < @TIMER_DAYS demo_config <= 48) by (simpl; lia).
  assert (Hs : @TIMER_SLOTS_PER_DAY demo_config <= 48) by (simpl; lia).
  assert (Hm : model w !! 3 = Some demo_device) by reflexivity.
  split; [split; [exact Hg | split; [exact Hd | split; [exact Hs | exact Hm]]] |].
  destruct (@callback_timer_errors_collide demo_config demo_ops "1" w
              demo_device Hg Hd Hs Hm) as (_ & _ & Ld & Ls & _).
  split; [exact Ld | exact Ls].
Defined.

(** ** Change masks *)

Lemma land_bit (d m : Z) :
  0 <= d -> Z.land (Z.shiftl 1 d) m = if Z.testbit m d then 2 ^ d else 0.
Proof.
  intros Hd. rewrite Z.shiftl_1_l. apply Z.bits_inj'. intros n Hn.
  rewrite Z.land_spec, Z.pow2_bits_eqb by exact Hd.
  destruct (Z.eqb_spec d n) as [<- | Hne].
  - destruct (Z.testbit m d); [now rewrite Z.pow2_bits_eqb, Z.eqb_refl |
                                now rewrite Z.bits_0].
  - destruct (Z.testbit m d); [| now rewrite Z.bits_0].
    rewrite Z.pow2_bits_eqb by exact Hd. symmetry. now apply Z.eqb_neq.
Qed.

Lemma day_bit_set (d m : Z) :
  0 <= d -> (Z.land (Z.shiftl 1 d) m <> 0 <-> Z.testbit m d = true).
Proof.
  intros Hd. rewrite land_bit by exact Hd.
  destruct (Z.testbit m d); split; try congruence.
  intros _. apply Z.pow_nonzero; lia.
Qed.

(** The bit of day [d] in the timer mask is bit [d + 1] of the change
    mask. *)
Lemma timer_mask_bit (s d : Z) :
  0 <= d < 8 ->
  Z.testbit (change_get_timer_mask s) d = Z.testbit s (d + 1).
Proof.
  intros Hd. unfold change_get_timer_mask.
  change 0xFF with (Z.ones 8).
  rewrite Z.land_spec, Z.shiftr_spec, Z.ones_spec_low by lia.
  now rewrite andb_true_r.
Qed.

Lemma timer_mask_nonzero (s d : Z) :
  0 <= d < 8 -> Z.testbit s (d + 1) = true ->
  Z.land s CHANGE_TIMER_MASK <> 0.
Proof.
  intros Hd Hb E.
  assert (H : Z.testbit (Z.land s CHANGE_TIMER_MASK) (d + 1) = true).
  { rewrite Z.land_spec, Hb. unfold CHANGE_TIMER_MASK.
    change 0x1FE with (Z.shiftl (Z.ones 8) 1).
    rewrite Z.shiftl_spec by lia.
    replace (d + 1 - 1) with d by lia. now rewrite Z.ones_spec_low by lia. }
  rewrite E, Z.bits_0 in H. discriminate.
Qed.

Lemma timer_day_cleared (s d : Z) :
  0 <= d < 8 ->
  Z.testbit (Z.land s (Z.lnot (timer_day_2_change d))) (d + 1) = false.
Proof.
  intros Hd. unfold timer_day_2_change.
  rewrite Z.land_spec, Z.lnot_spec by lia.
  replace (Z.shiftl 2 d) with (2 ^ (d + 1)).
  - rewrite Z.pow2_bits_eqb, Z.eqb_refl by lia. apply andb_false_r.
  - rewrite Z.shiftl_mul_pow2, Z.pow_add_r by lia. lia.
Qed.

Lemma states_get_set (a v : Z) (w : t) :
  (Z.to_nat a < length (states w))%nat ->
  states_get a (states_set a v w) = v.
Proof.
  intros H. unfold states_get, states_set. simpl.
  now rewrite list_lookup_insert_eq.
Qed.

(** ** The timer walk *)

Section TimerWalk.

Context `{cfg : Config}.

(** The step of the timer walk does to the masks, the cursor and the
    device model what it does whatever the transport answers. *)
Lemma publish_timers_results (results : nat -> bool) (w : t) :
  let w1 := publish_timers (with_publish_result results w) in
  let w0 := publish_timers w in
  states w1 = states w0 /\ cursor w1 = cursor w0 /\ model w1 = model w0
  /\ attempts w1 = attempts w0.
Proof.
  destruct w as [st a mj mn lc md [cn cr pr pc ib] lg].
  unfold publish_timers, with_publish_result, publish_timer_slot,
    client_publish, next_min_state, states_get, states_set, cursor, attempts,
    next_major, next_client.
  cbn -[compose Z.land Z.shiftr Z.shiftl Z.lnot as_uint Z.leb Z.eqb
        change_get_timer_mask timer_day_2_change publishes].
  destruct (md !! a) as [hr|]; [| repeat split].
  repeat match goal with
         | |- context [if ?b then _ else _] => destruct b
         end;
    cbn -[compose Z.land Z.shiftr Z.shiftl Z.lnot as_uint Z.leb Z.eqb
          change_get_timer_mask timer_day_2_change publishes];
    rewrite ?publishes_app; repeat split.
Qed.

End TimerWalk.

Section TimerWalkStep.

Context `{cfg : Config}.

Lemma shiftr3_lt_8 (n : Z) : 0 <= n < 64 -> 0 <= Z.shiftr n 3 < 8.
Proof.
  intros H. rewrite Z.shiftr_div_pow2 by lia. change (2 ^ 3) with 8.
  split; [apply Z.div_pos; lia | apply Z.div_lt_upper_bound; lia].
Qed.

(** The step of the timer walk at a day whose bit is set, on a device that
    exists. *)
Lemma publish_timers_step (w : t) (hr : HR20) :
  let d := Z.shiftr (state_min w) 3 in
  let s := Z.land (state_min w) 0x7 in
  model w !! addr w = Some hr ->
  0 <= state_min w < 64 ->
  Z.land (Z.shiftl 1 d) (change_get_timer_mask (states_get (addr w) w)) <> 0 ->
  publish_timers w
  = let w1 := next_min_state w in
    let w2 :=
      if s =? 7
      then states_set (addr w)
             (Z.land (states_get (addr w) w) (Z.lnot (timer_day_2_change d))) w1
      else w1 in
    let r := publish_timer_slot
               (Path_make (addr w) TIMER false TIMER_NONE d s)
               (timers hr d s) w2 in
    with_model (<[addr w := set_timer d s (fst r) hr]> (model (snd r))) (snd r).
Proof.
  intros d s Hm Hmin Hbit.
  pose proof (shiftr3_lt_8 _ Hmin) as Hd. fold d in Hd.
  assert (Hb : Z.testbit (states_get (addr w) w) (d + 1) = true).
  { apply day_bit_set in Hbit; [| lia]. now rewrite timer_mask_bit in Hbit. }
  unfold publish_timers. cbv zeta. rewrite Hm.
  replace (Z.land (states_get (addr w) w) CHANGE_TIMER_MASK =? 0) with false
    by (symmetry; apply Z.eqb_neq; now apply (timer_mask_nonzero _ d)).
  fold d s.
  change (states_get (addr w) (next_min_state w)) with (states_get (addr w) w).
  replace (8 <=? d) with false by (symmetry; apply Z.leb_gt; lia).
  replace (Z.land (Z.shiftl 1 d)
             (change_get_timer_mask (states_get (addr w) w)) =? 0)
    with false by (symmetry; now apply Z.eqb_neq).
  destruct (s =? 7);
    match goal with
    | |- context [publish_timer_slot ?p ?v ?x] =>
        destruct (publish_timer_slot p v x) as [val w3] eqn:E
    end; reflexivity.
Qed.

Lemma publish_timer_slot_effect (p : Path) (val : TimerSlot) (w : t) :
  let r := publish_timer_slot p val w in
  states (snd r) = states w /\ cursor (snd r) = cursor w
  /\ model (snd r) = model w
  /\ (if negb (slot_published val) && slot_remote_valid val
      then attempts (snd r) = (attempts w + 2)%nat
           /\ slot_published (fst r) = true
      else attempts (snd r) = attempts w /\ fst r = val).
Proof.
  unfold publish_timer_slot, client_publish.
  destruct (negb (slot_published val) && slot_remote_valid val);
    [| repeat split].
  cbn [fst snd client with_client emit publish_result publish_calls].
  destruct (publish_result (client w) (publish_calls (client w)));
    destruct (publish_result (client w) (S (publish_calls (client w))));
    cbn [negb orb fst snd]; unfold attempts;
    cbn [log emit with_client]; rewrite ?publishes_app; simpl;
    repeat split; lia.
Qed.

(** C5: in a step of the timer walk at a day whose change bit is set, on a
    device that exists, whatever the two publish calls report: at slot 7
    the bit of the day is cleared from the change mask of the address, and
    a slot that was unpublished and known gets its two publish calls and
    then has its published flag set.  The masks and the device model after
    the step are the same for any answers of the transport. *)
Theorem timer_walk_retires_pending (results : nat -> bool) (w0 : t) (hr : HR20) :
  let w := with_publish_result results w0 in
  let d := Z.shiftr (state_min w0) 3 in
  let s := Z.land (state_min w0) 0x7 in
  model w0 !! addr w0 = Some hr ->
  (Z.to_nat (addr w0) < length (states w0))%nat ->
  0 <= state_min w0 < 64 ->
  Z.land (Z.shiftl 1 d) (change_get_timer_mask (states_get (addr w0) w0)) <> 0 ->
  (s = 7 ->
     states_get (addr w0) (publish_timers w)
     = Z.land (states_get (addr w0) w0) (Z.lnot (timer_day_2_change d))
     /\ Z.land (Z.shiftl 1 d)
          (change_get_timer_mask (states_get (addr w0) (publish_timers w))) = 0)
  /\ (slot_published (timers hr d s) = false ->
      slot_remote_valid (timers hr d s) = true ->
      attempts (publish_timers w) = (attempts w0 + 2)%nat
      /\ exists hr',
           model (publish_timers w) !! addr w0 = Some hr'
           /\ slot_published (timers hr' d s) = true)
  /\ states (publish_timers w) = states (publish_timers w0)
  /\ model (publish_timers w) = model (publish_timers w0).
Proof.
  intros w d s Hm Hlen Hmin Hbit.
  destruct (publish_timers_results results w0) as (Hst & _ & Hmd & Hat).
  fold w in Hst, Hmd, Hat.
  pose proof (shiftr3_lt_8 _ Hmin) as Hd. fold d in Hd.
  pose proof (publish_timers_step w0 hr Hm Hmin Hbit) as Hstep.
  fold d s in Hstep. cbv zeta in Hstep.
  set (w2 := if s =? 7
             then states_set (addr w0)
                    (Z.land (states_get (addr w0) w0)
                       (Z.lnot (timer_day_2_change d))) (next_min_state w0)
             else next_min_state w0) in Hstep.
  set (p := Path_make (addr w0) TIMER false TIMER_NONE d s) in Hstep.
  destruct (publish_timer_slot_effect p (timers hr d s) w2)
    as (Es & _ & Em & Ea).
  assert (Hstates : states (publish_timers w0) = states w2)
    by (rewrite Hstep; exact Es).
  split; [| split; [| split; [exact Hst | exact Hmd]]].
  - intros Hs7.
    assert (Hget : states_get (addr w0) (publish_timers w)
                   = Z.land (states_get (addr w0) w0)
                       (Z.lnot (timer_day_2_change d))).
    { unfold states_get at 1. rewrite Hst, Hstates. subst w2.
      rewrite Hs7. cbn [Z.eqb Pos.eqb].
      change (states (states_set ?a ?v (next_min_state w0)))
        with (states (states_set a v w0)).
      apply (states_get_set (addr w0) _ w0 Hlen). }
    split; [exact Hget |]. rewrite Hget, land_bit by lia.
    rewrite timer_mask_bit, timer_day_cleared by lia. reflexivity.
  - intros Hp Hv. rewrite Hp, Hv in Ea. cbn [negb andb] in Ea.
    destruct Ea as [Ea Ef]. split.
    + rewrite Hat, Hstep. unfold attempts in *. cbn [log with_model].
      rewrite Ea. subst w2. destruct (s =? 7); reflexivity.
    + exists (set_timer d s (fst (publish_timer_slot p (timers hr d s) w2)) hr).
      split.
      * rewrite Hmd, Hstep. cbn [model with_model]. apply lookup_insert_eq.
      * cbn [timers set_timer]. rewrite !Z.eqb_refl. exact Ef.
Qed.

End TimerWalkStep.

Lemma timer_walk_retires_pending_witness :
  let w0 := demo 2 1 7 true (fun _ => true) in
  let w' := @publish_timers demo_config
              (with_publish_result (fun _ => false) w0) in
  (model w0 !! addr w0 = Some demo_device
   /\ (Z.to_nat (addr w0) < length (states w0))%nat
   /\ 0 <= state_min w0 < 64
   /\ Z.land (Z.shiftl 1 (Z.shiftr (state_min w0) 3))
        (change_get_timer_mask (states_get (addr w0) w0)) <> 0)
  /\ states_get 3 w' = 0
  /\ attempts w' = 2%nat
  /\ exists hr', model w' !! 3 = Some hr'
                 /\ slot_published (timers hr' 0 7) = true.
Proof.
  intros w0 w'.
  assert (H1 : model w0 !! addr w0 = Some demo_device) by reflexivity.
  assert (H2 : (Z.to_nat (addr w0) < length (states w0))%nat) by (simpl; lia).
  assert (H3 : 0 <= state_min w0 < 64) by (simpl; lia).
  assert (H4 : Z.land (Z.shiftl 1 (Z.shiftr (state_min w0) 3))
                 (change_get_timer_mask (states_get (addr w0) w0)) <> 0)
    by (vm_compute; discriminate).
  split; [repeat split; assumption || apply H3 |].
  destruct (@timer_walk_retires_pending demo_config (fun _ => false) w0
              demo_device H1 H2 H3 H4) as (Hbit & Hpub & _).
  destruct (Hbit eq_refl) as [Hget _].
  destruct (Hpub eq_refl eq_refl) as [Hat Hhr].
  split; [exact Hget | split; [exact Hat | exact Hhr]].
Defined.

(** ** The scheduler tick *)

Section Tick.

Context `{cfg : Config} `{ops : DeviceOps}.

Lemma update_schedule (now : Z) (w : t) :
  update now w
  = if negb (fst (reconnect now w)) then snd (reconnect now w)
    else schedule (client_loop (snd (reconnect now w))).
Proof. unfold update. destruct (reconnect now w) as [ready w1]. reflexivity. Qed.

Lemma u8_succ_neq (n : Z) : u8 (n + 1) <> n.
Proof.
  unfold u8. intros H. rewrite Z.mod_eq in H by lia. lia.
Qed.

Lemma successor_moves (w : t) :
  state_maj w = StateMajor_code STM_FREQ
  \/ state_maj w = StateMajor_code STM_TIMER ->
  successor w <> cursor w.
Proof.
  unfold successor, cursor. pose proof (u8_succ_neq (state_min w)) as Hn.
  intros [E | E]; rewrite E; simpl;
    repeat match goal with
           | |- context [if ?b then _ else _] => destruct b
           end; intros [= ]; congruence.
Qed.

Lemma publish_value_effect (path : Str) (val : CachedValue) (hint : Z) (w : t) :
  let r := publish_value path val hint w in
  states (snd r) = states w /\ cursor (snd r) = cursor w
  /\ model (snd r) = model w
  /\ (attempts w <= attempts (snd r) <= attempts w + 1)%nat.
Proof.
  unfold publish_value, client_publish.
  destruct (published val || negb (remote_valid val)); cbn [fst snd];
    [repeat split; lia |].
  destruct (publish_result _ _); unfold attempts; cbn [log emit with_client];
    rewrite ?publishes_app; simpl; repeat split; lia.
Qed.

Lemma publish_effect (p : Path) (f : Field) (a : Z) (hr : HR20) (w : t) :
  let w' := publish p f a hr w in
  states w' = states w /\ cursor w' = cursor w
  /\ (attempts w <= attempts w' <= attempts w + 1)%nat.
Proof.
  unfold publish.
  pose proof (publish_value_effect (compose prefix MAX_MQTT_PATH_LENGTH p)
                (get_field f hr) (as_uint p) w) as (H1 & H2 & _ & H4).
  destruct (publish_value _ _ _ _) as [val w1]. cbn [fst snd] in *.
  repeat split; try assumption; apply H4.
Qed.

Lemma publish_str_effect (p : Path) (val : string) (w : t) :
  let w' := publish_str p val w in
  states w' = states w /\ cursor w' = cursor w
  /\ attempts w' = (attempts w + 1)%nat.
Proof.
  unfold publish_str, client_publish.
  destruct (publish_result _ _); unfold attempts; cbn [log emit with_client];
    rewrite ?publishes_app; simpl; repeat split; lia.
Qed.

Lemma next_min_state_effect (w0 w : t) (n : nat) :
  states w = states w0 -> cursor w = cursor w0 ->
  (attempts w0 <= attempts w <= attempts w0 + n)%nat ->
  cursor (next_min_state w) = (addr w0, state_maj w0, u8 (state_min w0 + 1))
  /\ (attempts w0 <= attempts (next_min_state w) <= attempts w0 + n)%nat.
Proof.
  unfold cursor. intros _ [= Ha Hm Hn] Hat.
  unfold next_min_state. cbn [addr state_maj state_min with_state_min].
  rewrite Ha, Hm, Hn. split; [reflexivity | exact Hat].
Qed.

Lemma next_major_freq (w : t) :
  state_maj w = StateMajor_code STM_FREQ ->
  next_major w
  = with_state_maj (StateMajor_code STM_TIMER) (with_state_min 0 w).
Proof.
  intros H. unfold next_major. cbn [state_maj with_state_min with_state_maj].
  rewrite H. reflexivity.
Qed.

Lemma next_major_timer (w : t) :
  state_maj w = StateMajor_code STM_TIMER ->
  next_major w
  = next_client
      (with_state_maj (StateMajor_code STM_NEXT_CLIENT) (with_state_min 0 w)).
Proof.
  intros H. unfold next_major. cbn [state_maj with_state_min with_state_maj].
  rewrite H. reflexivity.
Qed.

(** The frequent walk. *)
Lemma publish_frequent_effect (w : t) :
  state_maj w = StateMajor_code STM_FREQ ->
  (attempts w <= attempts (publish_frequent w) <= attempts w + 1)%nat
  /\ (is_Some (model w !! addr w)
      \/ Z.land (states_get (addr w) w) CHANGE_FREQUENT = 0 ->
      cursor (publish_frequent w) = successor w)
  /\ (model w !! addr w = None ->
      Z.land (states_get (addr w) w) CHANGE_FREQUENT <> 0 ->
      publish_frequent w = emit (EvERR MQTT_INVALID_CLIENT) w).
Proof.
  intros Hmaj. unfold publish_frequent, successor, in_frequent_walk.
  rewrite Hmaj. cbn [StateMajor_code Z.eqb]. cbv zeta.
  destruct (Z.land (states_get (addr w) w) CHANGE_FREQUENT =? 0) eqn:Ebit.
  { apply Z.eqb_eq in Ebit.
    split; [| split; [| congruence]].
    - rewrite next_major_freq by exact Hmaj. unfold attempts. simpl. lia.
    - intros _. rewrite next_major_freq by exact Hmaj. reflexivity. }
  destruct (model w !! addr w) as [hr|] eqn:Em.
  2: { split; [rewrite attempts_emit; simpl; lia |].
       split; [intros [[x Hx] | H]; [discriminate | apply Z.eqb_neq in Ebit; congruence] |].
       reflexivity. }
  assert (Hfield : forall p f,
            cursor (next_min_state (publish p f (addr w) hr w))
            = (addr w, 0, u8 (state_min w + 1))
            /\ (attempts w
                <= attempts (next_min_state (publish p f (addr w) hr w))
                <= attempts w + 1)%nat).
  { intros p f.
    destruct (publish_effect p f (addr w) hr w) as (H1 & H2 & H3).
    destruct (next_min_state_effect w _ 1 H1 H2 H3) as [Hc Ha].
    rewrite Hmaj in Hc. split; assumption. }
  assert (Hstr : forall p v,
            cursor (next_min_state (publish_str p v w))
            = (addr w, 0, u8 (state_min w + 1))
            /\ (attempts w
                <= attempts (next_min_state (publish_str p v w))
                <= attempts w + 1)%nat).
  { intros p v.
    destruct (publish_str_effect p v w) as (H1 & H2 & H3).
    assert (H3' : (attempts w <= attempts (publish_str p v w) <= attempts w + 1)%nat)
      by lia.
    destruct (next_min_state_effect w _ 1 H1 H2 H3') as [Hc Ha].
    rewrite Hmaj in Hc. split; assumption. }
  unfold publish_synced.
  repeat match goal with
         | |- context [if (state_min w =? ?k) then _ else _] =>
             destruct (state_min w =? k)
         end; cbn [orb andb];
    try (split; [apply Hfield | split; [intros _; apply Hfield | congruence]]);
    try (split; [apply Hstr | split; [intros _; apply Hstr | congruence]]).
  destruct (state_min w =? 9), MQTT_JSON; cbn [andb orb];
    try (split; [apply Hstr | split; [intros _; apply Hstr | congruence]]);
    (split; [| split; [| congruence]];
     [rewrite next_major_freq by exact Hmaj; unfold attempts; simpl; lia
     | intros _; rewrite next_major_freq by exact Hmaj; reflexivity]).
Qed.

Lemma next_client_cursor (w : t) :
  cursor (next_client w) = (next_addr (addr w), StateMajor_code STM_FREQ, 0)
  /\ attempts (next_client w) = attempts w.
Proof. split; reflexivity. Qed.

(** The timer walk. *)
Lemma publish_timers_effect (w : t) :
  state_maj w = StateMajor_code STM_TIMER ->
  (attempts w <= attempts (publish_timers w) <= attempts w + 2)%nat
  /\ (is_Some (model w !! addr w) ->
      cursor (publish_timers w) = successor w)
  /\ (model w !! addr w = None ->
      publish_timers w = emit (EvERR MQTT_INVALID_CLIENT) w).
Proof.
  intros Hmaj. unfold publish_timers, successor.
  rewrite Hmaj. cbn [StateMajor_code Z.eqb]. cbv zeta.
  destruct (model w !! addr w) as [hr|] eqn:Em.
  2: { split; [rewrite attempts_emit; simpl; lia |].
       split; [intros [x Hx]; discriminate | reflexivity]. }
  destruct (Z.land (states_get (addr w) w) CHANGE_TIMER_MASK =? 0).
  { rewrite next_major_timer by exact Hmaj. cbn [orb].
    split; [unfold attempts; simpl; lia |].
    split; [intros _; reflexivity | discriminate]. }
  cbn [orb].
  change (states_get (addr w) (next_min_state w)) with (states_get (addr w) w).
  destruct (8 <=? Z.shiftr (state_min w) 3).
  { rewrite next_major_timer by exact Hmaj.
    split; [unfold attempts; simpl; lia |].
    split; [intros _; reflexivity | discriminate]. }
  destruct (Z.land _ _ =? 0).
  { split; [unfold attempts; simpl; lia |].
    split; [intros _; unfold cursor; simpl; now rewrite Hmaj | discriminate]. }
  set (w2 := if Z.land (state_min w) 7 =? 7 then _ else _).
  assert (Hw2 : cursor w2 = (addr w, 1, u8 (state_min w + 1))
                /\ attempts w2 = attempts w).
  { subst w2. destruct (_ =? 7); unfold cursor, attempts; simpl;
      rewrite Hmaj; split; reflexivity. }
  destruct Hw2 as [Hc Ha].
  pose proof (publish_timer_slot_effect
                (Path_make (addr w) TIMER false TIMER_NONE
                   (Z.shiftr (state_min w) 3) (Z.land (state_min w) 7))
                (timers hr (Z.shiftr (state_min w) 3) (Z.land (state_min w) 7))
                w2) as (_ & Hc' & _ & Hat).
  destruct (publish_timer_slot _ _ w2) as [val w3]. cbn [fst snd] in Hc', Hat.
  split; [| split; [| discriminate]].
  - unfold attempts in *. cbn [log with_model].
    destruct (negb _ && _); destruct Hat as [Hat _]; lia.
  - intros _. unfold cursor in *. cbn [addr state_maj state_min with_model].
    congruence.
Qed.

(** X16: a tick on which [reconnect] reports ready and the current address
    has a non-empty change mask makes at most one publish call in the major
    state FREQUENT and at most two in TIMER.  The cursor moves to the
    successor position when the device model has a device at the current
    address (and, in FREQUENT, also when the frequent bit of the mask is
    clear).  When the model has no device there, the tick reports
    MQTT_INVALID_CLIENT, makes no publish call and leaves the cursor where
    it is. *)
Theorem tick_bounded_work (now : Z) (w : t) :
  fst (reconnect now w) = true ->
  states_get (addr w) w <> 0 ->
  (state_maj w = StateMajor_code STM_FREQ ->
     (attempts w <= attempts (update now w) <= attempts w + 1)%nat)
  /\ (state_maj w = StateMajor_code STM_TIMER ->
        (attempts w <= attempts (update now w) <= attempts w + 2)%nat)
  /\ (state_maj w = StateMajor_code STM_FREQ
      \/ state_maj w = StateMajor_code STM_TIMER ->
      is_Some (model w !! addr w)
      \/ (state_maj w = StateMajor_code STM_FREQ
          /\ Z.land (states_get (addr w) w) CHANGE_FREQUENT = 0) ->
      cursor (update now w) = successor w
      /\ cursor (update now w) <> cursor w)
  /\ (model w !! addr w = None ->
      state_maj w = StateMajor_code STM_TIMER
      \/ (state_maj w = StateMajor_code STM_FREQ
          /\ Z.land (states_get (addr w) w) CHANGE_FREQUENT <> 0) ->
      cursor (update now w) = cursor w
      /\ attempts (update now w) = attempts w
      /\ exists l, log (update now w) = l ++ [EvERR MQTT_INVALID_CLIENT]).
Proof.
  intros Hready Hmask. rewrite update_schedule, Hready. cbn [negb].
  set (w2 := client_loop (snd (reconnect now w))).
  assert (F : frame w w2).
  { eapply frame_trans; [apply reconnect_frame | apply client_loop_frame]. }
  clearbody w2.
  pose proof (frame_states_get w w2 (addr w) F) as Hget.
  pose proof (frame_lookup w w2 (addr w) F) as Hlook.
  destruct F as (Hst & Hcur & Hat & Hdom).
  assert (Hc3 : addr w2 = addr w /\ state_maj w2 = state_maj w
                /\ state_min w2 = state_min w).
  { unfold cursor in Hcur. injection Hcur as H1 H2 H3. auto. }
  destruct Hc3 as (Ha & Hmj & Hmn).
  assert (Hsucc : successor w2 = successor w).
  { unfold successor. now rewrite Ha, Hmj, Hmn, Hget. }
  assert (Hsched : schedule w2
                   = if state_maj w =? StateMajor_code STM_FREQ
                     then publish_frequent w2
                     else if state_maj w =? StateMajor_code STM_TIMER
                          then publish_timers w2 else next_client w2).
  { unfold schedule. rewrite Ha, Hget, Hmj.
    replace (states_get (addr w) w =? 0) with false
      by (symmetry; now apply Z.eqb_neq).
    reflexivity. }
  rewrite Hsched. clear Hsched.
  assert (Hget2 : states_get (addr w2) w2 = states_get (addr w) w)
    by (now rewrite Ha).
  assert (Hlook2 : is_Some (model w2 !! addr w2) <-> is_Some (model w !! addr w))
    by (now rewrite Ha).
  split; [| split; [| split]].
  - intros Hm. rewrite Hm. cbn [StateMajor_code Z.eqb Pos.eqb].
    destruct (publish_frequent_effect w2) as (H & _); [congruence |].
    rewrite <- Hat. exact H.
  - intros Hm. rewrite Hm. cbn [StateMajor_code Z.eqb Pos.eqb].
    destruct (publish_timers_effect w2) as (H & _); [congruence |].
    rewrite <- Hat. exact H.
  - intros Hm Hdev.
    assert (Hmove : successor w <> cursor w) by now apply successor_moves.
    destruct Hm as [Hm | Hm]; rewrite Hm; cbn [StateMajor_code Z.eqb Pos.eqb].
    + destruct (publish_frequent_effect w2) as (_ & H & _); [congruence |].
      rewrite H, Hsucc; [split; [reflexivity | exact Hmove] |].
      destruct Hdev as [Hd | [_ Hd]]; [left; now apply Hlook2 |
                                        right; now rewrite Hget2].
    + destruct (publish_timers_effect w2) as (_ & H & _); [congruence |].
      rewrite H, Hsucc; [split; [reflexivity | exact Hmove] |].
      destruct Hdev as [Hd | [Hd _]];
        [now apply Hlook2 | rewrite Hm in Hd; discriminate].
  - intros Hnone Hm.
    assert (Hnone2 : model w2 !! addr w2 = None).
    { destruct (model w2 !! addr w2) eqn:E; [| reflexivity].
      assert (Hs : is_Some (model w !! addr w)) by (apply Hlook2; eauto).
      rewrite Hnone in Hs. destruct Hs as [x Hx]. discriminate. }
    assert (Hstuck : (if state_maj w =? StateMajor_code STM_FREQ
                      then publish_frequent w2
                      else if state_maj w =? StateMajor_code STM_TIMER
                           then publish_timers w2 else next_client w2)
                     = emit (EvERR MQTT_INVALID_CLIENT) w2).
    { destruct Hm as [Hm | [Hm Hbit]]; rewrite Hm; cbn [StateMajor_code Z.eqb Pos.eqb].
      - destruct (publish_timers_effect w2) as (_ & _ & H); [congruence |].
        now apply H.
      - destruct (publish_frequent_effect w2) as (_ & _ & H); [congruence |].
        apply H; [exact Hnone2 | now rewrite Hget2]. }
    rewrite Hstuck.
    split; [exact Hcur | split; [rewrite attempts_emit; simpl; lia |]].
    exists (log w2). reflexivity.
Qed.

End Tick.

Lemma tick_bounded_work_witness :
  let w := demo 1 0 0 true (fun _ => true) in
  let w' := @update demo_config demo_ops 100 w in
  (fst (@reconnect demo_config 100 w) = true /\ states_get (addr w) w <> 0)
  /\ attempts w' = 1%nat
  /\ cursor w' = (3, 0, 1)
  /\ cursor w' <> cursor w
  /\ log w' = [EvPublish (Some "hr20/3/mode"%string) "auto" true true;
               EvEVENT_ARG MQTT_PUBLISH 163].
Proof.
  intros w w'.
  assert (H1 : fst (@reconnect demo_config 100 w) = true) by reflexivity.
  assert (H2 : states_get (addr w) w <> 0) by (vm_compute; discriminate).
  split; [split; assumption |].
  destruct (@tick_bounded_work demo_config demo_ops 100 w H1 H2)
    as (_ & _ & Hc & _).
  destruct (Hc (or_introl eq_refl)) as [Hs Hn].
  { left. exists demo_device. reflexivity. }
  split; [reflexivity | split; [exact Hs | split; [exact Hn | reflexivity]]].
Defined.

Import ServiceDefs.

(** * More of the publisher *)

Lemma same_transport_refl (c : PubSubClient) : same_transport c c.
Proof. repeat split. Qed.

Lemma same_transport_trans (a b c : PubSubClient) :
  same_transport a b -> same_transport b c -> same_transport a c.
Proof.
  intros (H1 & H2 & H3 & H4) (G1 & G2 & G3 & G4). repeat split; congruence.
Qed.

Section Effects.
Context `{cfg : Config} `{ops : DeviceOps}.

(** The frequent walk: the masks, the devices and the transport. *)
Lemma publish_frequent_rest (w : t) :
  let w' := publish_frequent w in
  (states w' = states w
   \/ states w'
      = <[Z.to_nat (addr w)
          := Z.land (states_get (addr w) w) (Z.lnot CHANGE_FREQUENT)]> (states w))
  /\ same_transport (client w) (client w')
  /\ (forall b, b <> addr w -> model w' !! b = model w !! b)
  /\ (is_Some (model w !! addr w) -> is_Some (model w' !! addr w))
  /\ dom (model w') = dom (model w).
Proof.
  destruct w as [st a mj mn lc md [cn cr pr pc ib] lg].
  unfold publish_frequent, publish_synced, publish, publish_str, publish_value,
    client_publish, next_min_state, states_get, states_set, next_major,
    next_client, same_transport.
  cbn -[compose Z.land Z.lnot as_uint Z.leb Z.eqb publishes].
  destruct (Z.land _ _ =? 0).
  { repeat match goal with
           | |- context [if ?b then _ else _] => destruct b
           end; cbn; repeat split; auto. }
  destruct (md !! a) as [hr|] eqn:Em; [| cbn; repeat split; auto; rewrite Em; auto].
  assert (Hdom : forall x, dom (<[a := x]> md) = dom md).
  { intros x. rewrite dom_insert_L.
    apply subseteq_union_1_L, singleton_subseteq_l, elem_of_dom. eauto. }
  repeat match goal with
         | |- context [if ?b then _ else _] => destruct b
         end;
    cbn -[compose Z.land Z.lnot as_uint];
    (split; [auto |]); (split; [repeat split |]);
    (split; [intros b Hb; rewrite ?lookup_insert_ne by congruence; reflexivity |]);
    (split; [intros _; rewrite ?lookup_insert_eq, ?Em; eauto |]);
    rewrite ?Hdom; reflexivity.
Qed.

(** The timer walk: the masks, the devices and the transport. *)
Lemma publish_timers_rest (w : t) :
  let w' := publish_timers w in
  let d := Z.shiftr (state_min w) 3 in
  (states w' = states w
   \/ (d < 8
       /\ states w'
          = <[Z.to_nat (addr w)
              := Z.land (states_get (addr w) w)
                   (Z.lnot (timer_day_2_change d))]> (states w)))
  /\ same_transport (client w) (client w')
  /\ (forall b, b <> addr w -> model w' !! b = model w !! b)
  /\ (is_Some (model w !! addr w) -> is_Some (model w' !! addr w))
  /\ dom (model w') = dom (model w).
Proof.
  destruct w as [st a mj mn lc md [cn cr pr pc ib] lg].
  unfold publish_timers, publish_timer_slot, client_publish, next_min_state,
    states_get, states_set, next_major, next_client, same_transport.
  cbn -[compose Z.land Z.lnot Z.shiftr Z.shiftl as_uint Z.leb Z.eqb publishes
        change_get_timer_mask timer_day_2_change].
  destruct (md !! a) as [hr|] eqn:Em; [| cbn; repeat split; auto; rewrite Em; auto].
  assert (Hdom : forall x, dom (<[a := x]> md) = dom md).
  { intros x. rewrite dom_insert_L.
    apply subseteq_union_1_L, singleton_subseteq_l, elem_of_dom. eauto. }
  destruct (Z.land _ _ =? 0).
  { repeat match goal with
           | |- context [if ?b then _ else _] => destruct b
           end; cbn; repeat split; auto; rewrite Em; eauto. }
  destruct (8 <=? Z.shiftr mn 3) eqn:Ed.
  { repeat match goal with
           | |- context [if ?b then _ else _] => destruct b
           end; cbn; repeat split; auto; rewrite Em; eauto. }
  apply Z.leb_gt in Ed.
  repeat match goal with
         | |- context [if ?b then _ else _] => destruct b
         end;
    cbn -[compose Z.land Z.lnot Z.shiftr Z.shiftl as_uint timer_day_2_change];
    (split; [auto |]); (split; [repeat split |]);
    (split; [intros b Hb; rewrite ?lookup_insert_ne by congruence; reflexivity |]);
    (split; [intros _; rewrite ?lookup_insert_eq, ?Em; eauto |]);
    rewrite ?Hdom; reflexivity.
Qed.

Lemma callback_client (topic_ : cstr) (payload : string) (w : t) :
  client (callback topic_ payload w) = client w.
Proof.
  unfold callback, callback_done, call_set_requested, call_set_timer_mode,
    call_set_timer_time.
  repeat match goal with
         | |- context [if ?b then _ else _] => destruct b
         | |- context [match model w !! ?a with _ => _ end] =>
             destruct (model w !! a)
         | |- context [match topic ?p with _ => _ end] => destruct (topic p)
         | |- context [match timer_topic ?p with _ => _ end] =>
             destruct (timer_topic p)
         | |- context [set_requested_from_str ?v ?s] =>
             destruct (set_requested_from_str v s)
         | |- context [set_timer_mode ?h ?d ?s ?v] =>
             destruct (set_timer_mode h d s v)
         | |- context [set_timer_time ?h ?d ?s ?v] =>
             destruct (set_timer_time h d s v)
         end; reflexivity.
Qed.

Lemma client_loop_client (w : t) :
  same_transport
    (mkClient (connected (client w)) (connect_result (client w))
       (publish_result (client w)) (publish_calls (client w)) [])
    (client (client_loop w)).
Proof.
  unfold client_loop.
  set (w0 := with_client _ w).
  assert (H0 : client w0 = mkClient (connected (client w))
                 (connect_result (client w)) (publish_result (client w))
                 (publish_calls (client w)) []) by reflexivity.
  rewrite <- H0. clearbody w0. clear H0. revert w0.
  induction (inbox (client w)) as [|m l IH]; intros w0; simpl;
    [apply same_transport_refl |].
  rewrite <- (callback_client (fst m) (snd m) w0). apply IH.
Qed.

End Effects.

(** ** The change masks under the scheduler *)

Section Masks.
Context `{cfg : Config} `{ops : DeviceOps}.

Lemma schedule_states (w : t) :
  states (schedule w) = states w
  \/ states (schedule w)
     = <[Z.to_nat (addr w)
         := Z.land (states_get (addr w) w) (Z.lnot CHANGE_FREQUENT)]> (states w)
  \/ (Z.shiftr (state_min w) 3 < 8
      /\ states (schedule w)
         = <[Z.to_nat (addr w)
             := Z.land (states_get (addr w) w)
                  (Z.lnot (timer_day_2_change (Z.shiftr (state_min w) 3)))]>
             (states w)).
Proof.
  unfold schedule.
  destruct (_ =? 0); [now left |].
  destruct (_ =? _).
  - destruct (publish_frequent_rest w) as ([H | H] & _); auto.
  - destruct (_ =? _); [| now left].
    destruct (publish_timers_rest w) as ([H | H] & _); auto.
Qed.

Lemma update_frame (now : Z) (w : t) :
  update now w = snd (reconnect now w)
  \/ exists w2, frame w w2 /\ update now w = schedule w2.
Proof.
  rewrite update_schedule. destruct (negb _); [now left |]. right.
  eexists. split; [| reflexivity].
  eapply frame_trans; [apply reconnect_frame | apply client_loop_frame].
Qed.

Lemma frame_fields (w w2 : t) :
  frame w w2 ->
  states w2 = states w /\ addr w2 = addr w /\ state_maj w2 = state_maj w
  /\ state_min w2 = state_min w.
Proof.
  intros (Hs & Hc & _). unfold cursor in Hc. injection Hc as H1 H2 H3. auto.
Qed.

Lemma update_states (now : Z) (w : t) :
  states (update now w) = states w
  \/ states (update now w)
     = <[Z.to_nat (addr w)
         := Z.land (states_get (addr w) w) (Z.lnot CHANGE_FREQUENT)]> (states w)
  \/ (Z.shiftr (state_min w) 3 < 8
      /\ states (update now w)
         = <[Z.to_nat (addr w)
             := Z.land (states_get (addr w) w)
                  (Z.lnot (timer_day_2_change (Z.shiftr (state_min w) 3)))]>
             (states w)).
Proof.
  destruct (update_frame now w) as [E | (w2 & F & E)]; rewrite E.
  - left. apply (reconnect_frame now w).
  - pose proof (frame_states_get w w2 (addr w) F) as Hg.
    apply frame_fields in F as (Hs & Ha & _ & Hn).
    pose proof (schedule_states w2) as H.
    rewrite Hs, Ha, Hn, Hg in H. exact H.
Qed.

Lemma states_get_insert (a v : Z) (l : list Z) (w w' : t) :
  states w = l -> states w' = <[Z.to_nat a := v]> l ->
  states_get a w' = v \/ states_get a w' = states_get a w.
Proof.
  intros H H'. unfold states_get. rewrite H, H'.
  destruct (Nat.lt_ge_cases (Z.to_nat a) (length l)) as [L | L].
  - left. now rewrite list_lookup_insert_eq.
  - right. rewrite !lookup_ge_None_2; [reflexivity | exact L |].
    now rewrite length_insert.
Qed.

Lemma update_other_masks (now : Z) (w : t) (i : nat) :
  i <> Z.to_nat (addr w) -> states (update now w) !! i = states w !! i.
Proof.
  intros Hi.
  destruct (update_states now w) as [E | [E | [_ E]]]; rewrite E;
    [reflexivity | |]; apply list_lookup_insert_ne; congruence.
Qed.

(** X17: a tick only clears change bits, and only of the address at the
    cursor: [update] leaves the number of masks and the mask of every other
    address as they are, and the mask at the cursor is unchanged, or has
    lost the frequent bit, or has lost the bit of one timer day. *)
Theorem update_only_clears_bits (now : Z) (w : t) :
  0 <= state_min w ->
  length (states (update now w)) = length (states w)
  /\ (forall i, i <> Z.to_nat (addr w) ->
        states (update now w) !! i = states w !! i)
  /\ (states_get (addr w) (update now w) = states_get (addr w) w
      \/ states_get (addr w) (update now w)
         = Z.land (states_get (addr w) w) (Z.lnot CHANGE_FREQUENT)
      \/ exists d, 0 <= d < 8
           /\ states_get (addr w) (update now w)
              = Z.land (states_get (addr w) w)
                  (Z.lnot (timer_day_2_change d))).
Proof.
  intros Hmin.
  assert (Hd : 0 <= Z.shiftr (state_min w) 3) by now apply Z.shiftr_nonneg.
  destruct (update_states now w) as [E | [E | [Hlt E]]].
  - unfold states_get. rewrite E. repeat split; auto.
  - rewrite E. split; [apply length_insert |].
    split; [intros i Hi; apply list_lookup_insert_ne; congruence |].
    destruct (states_get_insert _ _ _ w (update now w) eq_refl E) as [H | H];
      auto.
  - rewrite E. split; [apply length_insert |].
    split; [intros i Hi; apply list_lookup_insert_ne; congruence |].
    destruct (states_get_insert _ _ _ w (update now w) eq_refl E) as [H | H];
      [| auto].
    right. right. exists (Z.shiftr (state_min w) 3). split; [lia | exact H].
Qed.

End Masks.

Lemma update_only_clears_bits_witness :
  let w := demo 3 0 10 true (fun _ => true) in
  0 <= state_min w
  /\ states_get 3 w = 3
  /\ states_get 3 (@update demo_config demo_ops 100 w) = 2
  /\ (forall i, i <> 3%nat ->
        states (@update demo_config demo_ops 100 w) !! i = states w !! i).
Proof.
  intros w. assert (H : 0 <= state_min w) by (simpl; lia).
  split; [exact H |]. split; [reflexivity |]. split; [reflexivity |].
  destruct (@update_only_clears_bits demo_config demo_ops 100 w H)
    as (_ & Hi & _).
  exact Hi.
Defined.

(** ** The cursor *)

Section Cursor.
Context `{cfg : Config} `{ops : DeviceOps}.

Lemma next_addr_range (a : Z) :
  0 < MAX_HR_ADDR -> 0 <= next_addr a < MAX_HR_ADDR.
Proof.
  intros H. unfold next_addr, u8.
  pose proof (Z.mod_pos_bound (a + 1) 256 ltac:(lia)).
  destruct (MAX_HR_ADDR <=? _) eqn:E; [lia |]. apply Z.leb_gt in E. lia.
Qed.

Lemma next_addr_mod (a : Z) :
  0 < MAX_HR_ADDR <= 256 -> 0 <= a < MAX_HR_ADDR ->
  next_addr a = (a + 1) mod MAX_HR_ADDR.
Proof.
  intros HM Ha. unfold next_addr, u8.
  destruct (Z.eq_dec (a + 1) 256) as [E | E].
  - rewrite E. change (256 mod 256) with 0.
    assert (MAX_HR_ADDR = 256) by lia.
    destruct (MAX_HR_ADDR <=? 0) eqn:L; [apply Z.leb_le in L; lia |].
    rewrite H. reflexivity.
  - rewrite (Z.mod_small (a + 1) 256) by lia.
    destruct (MAX_HR_ADDR <=? a + 1) eqn:L.
    + apply Z.leb_le in L. replace (a + 1) with MAX_HR_ADDR by lia.
      now rewrite Z.mod_same by lia.
    + apply Z.leb_gt in L. now rewrite Z.mod_small by lia.
Qed.

Lemma next_client_iter_addr (w : t) (k : nat) :
  0 < MAX_HR_ADDR <= 256 -> 0 <= addr w < MAX_HR_ADDR ->
  addr (Nat.iter k next_client w) = (addr w + Z.of_nat k) mod MAX_HR_ADDR.
Proof.
  intros HM Ha. induction k as [|k IH].
  - simpl. rewrite Z.add_0_r. now rewrite Z.mod_small.
  - rewrite Nat.iter_succ.
    change (addr (next_client ?x)) with (next_addr (addr x)).
    rewrite next_addr_mod; [| exact HM | rewrite IH; apply Z.mod_pos_bound; lia].
    rewrite IH, Z.add_mod_idemp_l by lia. f_equal. lia.
Qed.

(** X18: [next_client] visits the addresses round robin: from an address
    below [MAX_HR_ADDR] (at most 256), [k] calls lead to the address
    [(addr + k) mod MAX_HR_ADDR], [MAX_HR_ADDR] calls lead back, every call
    resets the walk to its start, and none touches a mask or publishes. *)
Theorem next_client_round_robin (w : t) (k : nat) :
  0 < MAX_HR_ADDR <= 256 -> 0 <= addr w < MAX_HR_ADDR ->
  cursor (Nat.iter (S k) next_client w)
  = ((addr w + Z.of_nat (S k)) mod MAX_HR_ADDR, StateMajor_code STM_FREQ, 0)
  /\ addr (Nat.iter (Z.to_nat MAX_HR_ADDR) next_client w) = addr w
  /\ states (Nat.iter k next_client w) = states w
  /\ attempts (Nat.iter k next_client w) = attempts w.
Proof.
  intros HM Ha. split; [| split; [| split]].
  - pose proof (next_client_iter_addr w (S k) HM Ha) as H.
    rewrite Nat.iter_succ in *. unfold cursor. rewrite H. reflexivity.
  - rewrite next_client_iter_addr by assumption.
    rewrite Z2Nat.id by lia.
    replace (addr w + MAX_HR_ADDR) with (addr w + 1 * MAX_HR_ADDR) by lia.
    rewrite Z.mod_add by lia. now rewrite Z.mod_small.
  - induction k as [|k IH]; [reflexivity |]. rewrite Nat.iter_succ. exact IH.
  - induction k as [|k IH]; [reflexivity |]. rewrite Nat.iter_succ. exact IH.
Qed.

Lemma cursor_ok_eq (w w' : t) :
  cursor w' = cursor w -> cursor_ok w -> cursor_ok w'.
Proof.
  unfold cursor, cursor_ok. intros [= Ha Hj Hn]. now rewrite Ha, Hj, Hn.
Qed.

Lemma cursor_ok_next_client (w : t) :
  0 < MAX_HR_ADDR -> cursor_ok (next_client w).
Proof.
  intros HM. unfold cursor_ok.
  change (addr (next_client w)) with (next_addr (addr w)).
  split; [now apply next_addr_range |]. left. simpl. split; [reflexivity | lia].
Qed.

Lemma in_frequent_walk_bound (n : Z) : in_frequent_walk n = true -> 0 <= n <= 9.
Proof.
  unfold in_frequent_walk. intros H.
  repeat (apply orb_prop in H as [H | H]);
    try (apply Z.eqb_eq in H; lia).
  apply andb_prop in H as [H _]. apply Z.eqb_eq in H. lia.
Qed.

Lemma cursor_ok_successor (w w' : t) :
  0 < MAX_HR_ADDR -> cursor_ok w -> cursor w' = successor w -> cursor_ok w'.
Proof.
  intros HM (Ha & Hst) Hc. unfold cursor, successor in Hc. unfold cursor_ok.
  destruct Hst as [[Hj Hn] | [Hj Hn]]; rewrite Hj in Hc;
    cbn [StateMajor_code Z.eqb Pos.eqb] in Hc.
  - destruct (_ =? 0); [injection Hc as -> -> ->; split; [exact Ha | right; simpl; lia] |].
    destruct (in_frequent_walk _) eqn:Ew.
    + apply in_frequent_walk_bound in Ew. injection Hc as -> -> ->.
      split; [exact Ha | left]. split; [reflexivity |].
      unfold u8. rewrite Z.mod_small by lia. lia.
    + injection Hc as -> -> ->. split; [exact Ha | right; simpl; lia].
  - destruct (_ || _) eqn:E.
    + injection Hc as -> -> ->.
      split; [now apply next_addr_range | left; simpl; lia].
    + apply orb_false_elim in E as [_ E]. apply Z.leb_gt in E.
      injection Hc as -> -> ->. split; [exact Ha | right].
      split; [reflexivity |].
      assert (state_min w < 64).
      { destruct (Z_lt_ge_dec (state_min w) 64) as [L | L]; [exact L |].
        exfalso. rewrite Z.shiftr_div_pow2 in E by lia.
        change (2 ^ 3) with 8 in E.
        assert (8 <= state_min w / 8) by (apply Z.div_le_lower_bound; lia).
        lia. }
      unfold u8. rewrite Z.mod_small by lia. lia.
Qed.

Lemma schedule_cursor_ok (w : t) :
  0 < MAX_HR_ADDR -> cursor_ok w -> cursor_ok (schedule w).
Proof.
  intros HM Hok. unfold schedule.
  destruct (_ =? 0); [now apply cursor_ok_next_client |].
  destruct (state_maj w =? StateMajor_code STM_FREQ) eqn:Ej.
  - apply Z.eqb_eq in Ej.
    destruct (publish_frequent_effect w Ej) as (_ & Hs & He).
    destruct (model w !! addr w) as [hr|] eqn:Em.
    + apply (cursor_ok_successor w); [exact HM | exact Hok |].
      apply Hs. left. eauto.
    + destruct (Z.eq_dec (Z.land (states_get (addr w) w) CHANGE_FREQUENT) 0)
        as [Eb | Eb].
      * apply (cursor_ok_successor w); [exact HM | exact Hok |].
        apply Hs. now right.
      * rewrite (He eq_refl Eb). exact Hok.
  - destruct (state_maj w =? StateMajor_code STM_TIMER) eqn:Et;
      [| now apply cursor_ok_next_client].
    apply Z.eqb_eq in Et.
    destruct (publish_timers_effect w Et) as (_ & Hs & He).
    destruct (model w !! addr w) as [hr|] eqn:Em.
    + apply (cursor_ok_successor w); [exact HM | exact Hok |].
      apply Hs. eauto.
    + rewrite (He eq_refl). exact Hok.
Qed.

Lemma update_cursor_ok (now : Z) (w : t) :
  0 < MAX_HR_ADDR -> cursor_ok w -> cursor_ok (update now w).
Proof.
  intros HM Hok.
  destruct (update_frame now w) as [E | (w2 & F & E)]; rewrite E.
  - apply (cursor_ok_eq w); [| exact Hok]. apply (reconnect_frame now w).
  - apply schedule_cursor_ok; [exact HM |].
    apply (cursor_ok_eq w); [| exact Hok]. apply F.
Qed.

(** X19: in every state the publisher reaches from its constructor by
    ticks, change notifications and changes of the device model and the
    transport, the cursor is on an address below [MAX_HR_ADDR], the major
    state is FREQ with a minor state up to 10 or TIMER with a minor state
    up to 64, and there are [MAX_HR_ADDR] masks: [states[addr]] is always
    inside the array and the [default] branch of [update] is never taken. *)
Theorem reachable_cursor_in_range (w : t) :
  0 < MAX_HR_ADDR -> reachable w ->
  cursor_ok w
  /\ length (states w) = Z.to_nat MAX_HR_ADDR
  /\ (Z.to_nat (addr w) < length (states w))%nat.
Proof.
  intros HM Hr.
  enough (H : cursor_ok w /\ length (states w) = Z.to_nat MAX_HR_ADDR).
  { destruct H as [Hok Hl]. split; [exact Hok | split; [exact Hl |]].
    destruct Hok as [Ha _]. lia. }
  induction Hr as [md c | now w Hr [IHc IHl] | a mask w Hr [IHc IHl] Ha
                  | md w Hr IH | c w Hr IH].
  - split.
    + unfold cursor_ok. simpl. split; [lia | left; lia].
    + simpl. apply length_replicate.
  - split; [now apply update_cursor_ok |].
    rewrite <- IHl.
    destruct (update_states now w) as [E | [E | [_ E]]]; rewrite E;
      [reflexivity | apply length_insert | apply length_insert].
  - split; [exact IHc |]. rewrite <- IHl. simpl. apply length_insert.
  - exact IH.
  - exact IH.
Qed.

End Cursor.

Lemma next_client_round_robin_witness :
  (0 < @MAX_HR_ADDR demo_config <= 256
   /\ 0 <= addr (demo 0 1 5 true (fun _ => true)) < @MAX_HR_ADDR demo_config)
  /\ cursor (Nat.iter 26 (@next_client demo_config)
               (demo 0 1 5 true (fun _ => true))) = (0, 0, 0)
  /\ addr (Nat.iter 29 (@next_client demo_config)
             (demo 0 1 5 true (fun _ => true))) = 3.
Proof.
  assert (H1 : 0 < @MAX_HR_ADDR demo_config <= 256) by (simpl; lia).
  assert (H2 : 0 <= addr (demo 0 1 5 true (fun _ => true))
               < @MAX_HR_ADDR demo_config) by (simpl; lia).
  split; [split; assumption |].
  destruct (@next_client_round_robin demo_config
              (demo 0 1 5 true (fun _ => true)) 25 H1 H2) as (Hc & Ha & _).
  split; [exact Hc | exact Ha].
Defined.

Lemma reachable_cursor_in_range_witness :
  let w := @update demo_config demo_ops 100
             (@change_callback 3 1
                (@construct demo_config {[3 := demo_device]}
                   (demo_client true (fun _ => true)))) in
  (0 < @MAX_HR_ADDR demo_config /\ @reachable demo_config demo_ops w)
  /\ @cursor_ok demo_config w
  /\ length (states w) = 29%nat.
Proof.
  intros w.
  assert (H1 : 0 < @MAX_HR_ADDR demo_config) by (simpl; lia).
  assert (H2 : @reachable demo_config demo_ops w).
  { apply reach_update, reach_change; [apply reach_construct | simpl; lia]. }
  split; [split; assumption |].
  destruct (@reachable_cursor_in_range demo_config demo_ops w H1 H2)
    as (Hok & Hl & _).
  split; [exact Hok | exact Hl].
Defined.

(** ** Notifications *)

Section Notify.
Context `{cfg : Config} `{ops : DeviceOps}.

Lemma states_get_zero (a : Z) (w : t) :
  Forall (eq 0) (states w) -> states_get a w = 0.
Proof.
  intros H. unfold states_get.
  destruct (states w !! Z.to_nat a) as [m|] eqn:E; [| reflexivity].
  rewrite Forall_lookup in H. simpl. symmetry. exact (H _ _ E).
Qed.

Lemma idle_update (now : Z) (w : t) :
  Forall (eq 0) (states w) ->
  attempts (update now w) = attempts w /\ states (update now w) = states w.
Proof.
  intros H.
  destruct (update_frame now w) as [E | (w2 & F & E)]; rewrite E.
  - destruct (reconnect_frame now w) as (Hs & _ & Ha & _). auto.
  - destruct F as (Hs & _ & Ha & _). unfold schedule.
    rewrite states_get_zero by (now rewrite Hs). simpl. auto.
Qed.

(** X20: without a pending change the publisher publishes nothing: while
    all masks are 0, any number of ticks makes no publish call and leaves
    the masks at 0, whatever the transport does and delivers; this is the
    state the constructor builds. *)
Theorem idle_publisher_is_silent :
  (forall nows w,
     Forall (eq 0) (states w) ->
     attempts (ticks nows w) = attempts w /\ states (ticks nows w) = states w)
  /\ (forall md c nows,
        attempts (ticks nows (construct md c)) = 0%nat
        /\ Forall (eq 0) (states (ticks nows (construct md c)))).
Proof.
  assert (H : forall nows w,
            Forall (eq 0) (states w) ->
            attempts (ticks nows w) = attempts w
            /\ states (ticks nows w) = states w).
  { induction nows as [|now nows IH]; intros w Hz; [split; reflexivity |].
    destruct (idle_update now w Hz) as [Ha Hs].
    change (ticks (now :: nows) w) with (ticks nows (update now w)).
    destruct (IH (update now w)) as [Ha' Hs']; [now rewrite Hs |].
    split; congruence. }
  split; [exact H |]. intros md c nows.
  assert (Hz : Forall (eq 0) (states (construct md c))).
  { simpl. apply Forall_forall. intros x Hx.
    apply elem_of_replicate in Hx as [-> _]. reflexivity. }
  destruct (H nows _ Hz) as [Ha Hs]. split; [exact Ha | now rewrite Hs].
Qed.

(** X21: the change notification registered by [begin] adds the notified
    bits to the mask of the address and touches no other mask; two
    notifications for an address amount to one with the union of their
    bits; and a tick on another address leaves the notified bits pending. *)
Theorem change_notification_accumulates (a mask : Z) (w : t) :
  (Z.to_nat a < length (states w))%nat ->
  states_get a (change_callback a mask w) = Z.lor (states_get a w) mask
  /\ (forall i, i <> Z.to_nat a ->
        states (change_callback a mask w) !! i = states w !! i)
  /\ (forall mask',
        change_callback a mask' (change_callback a mask w)
        = change_callback a (Z.lor mask mask') w)
  /\ (forall now,
        Z.to_nat a <> Z.to_nat (addr w) ->
        states_get a (update now (change_callback a mask w))
        = Z.lor (states_get a w) mask).
Proof.
  intros Hl.
  assert (Hget : states_get a (change_callback a mask w)
                 = Z.lor (states_get a w) mask)
    by (apply states_get_set, Hl).
  split; [exact Hget |]. split; [| split].
  - intros i Hi. simpl. apply list_lookup_insert_ne. congruence.
  - intros mask'. unfold change_callback at 1. rewrite Hget.
    unfold change_callback, states_set, with_states. simpl.
    rewrite list_insert_insert_eq, Z.lor_assoc. reflexivity.
  - intros now Hne. rewrite <- Hget.
    unfold states_get at 1 2. rewrite update_other_masks; [reflexivity |].
    simpl. exact Hne.
Qed.

End Notify.

Lemma change_notification_accumulates_witness :
  let w := demo 2 0 0 true (fun _ => true) in
  (Z.to_nat 4 < length (states w))%nat
  /\ states_get 4 (change_callback 4 1 w) = 1
  /\ change_callback 4 4 (change_callback 4 1 w) = change_callback 4 5 w
  /\ states_get 4 (@update demo_config demo_ops 100 (change_callback 4 1 w)) = 1.
Proof.
  intros w. assert (H : (Z.to_nat 4 < length (states w))%nat) by (simpl; lia).
  split; [exact H |].
  destruct (@change_notification_accumulates demo_config demo_ops 4 1 w H)
    as (Hg & _ & Hm & Hu).
  split; [exact Hg |]. split; [exact (Hm 4) |].
  apply Hu. simpl. lia.
Defined.

(** ** The frequent walk *)

Lemma get_set_field (f f' : Field) (v : CachedValue) (hr : HR20) :
  get_field f' (set_field f v hr) = if decide (f' = f) then v else get_field f' hr.
Proof. destruct f, f'; reflexivity. Qed.

Lemma set_field_rest (f : Field) (v : CachedValue) (hr : HR20) :
  timers (set_field f v hr) = timers hr
  /\ last_contact (set_field f v hr) = last_contact hr
  /\ client_attr (set_field f v hr) = client_attr hr.
Proof. repeat split. Qed.

Lemma field_state_inj (f f' : Field) : field_state f = field_state f' -> f = f'.
Proof. destruct f, f'; simpl; intros H; congruence || lia. Qed.

Lemma field_state_range (f : Field) : 0 <= field_state f < 8.
Proof. destruct f; simpl; lia. Qed.

Lemma field_of_state (k : nat) :
  (k < 8)%nat -> exists f, field_state f = Z.of_nat k.
Proof.
  intros H.
  do 8 (destruct k as [|k];
        [first [now exists F_auto_mode | now exists F_menu_locked
               | now exists F_mode_window | now exists F_temp_avg
               | now exists F_bat_avg | now exists F_temp_wanted
               | now exists F_cur_valve_wtd | now exists F_ctl_err] |]).
  lia.
Qed.

Section FrequentWalk.
Context `{cfg : Config}.

Lemma publish_frequent_field (w : t) (hr : HR20) (f : Field) :
  Z.land (states_get (addr w) w) CHANGE_FREQUENT <> 0 ->
  model w !! addr w = Some hr ->
  state_min w = field_state f ->
  publish_frequent w
  = next_min_state
      (publish (with_topic (field_topic f)
                  (Path_make3 (addr w) INVALID_TOPIC false))
         f (addr w) hr w).
Proof.
  intros Hb Hm Hn. unfold publish_frequent, publish_synced.
  apply Z.eqb_neq in Hb. rewrite Hb, Hm, Hn. cbv zeta.
  destruct f; reflexivity.
Qed.

Lemma publish_frequent_last_seen (w : t) (hr : HR20) :
  Z.land (states_get (addr w) w) CHANGE_FREQUENT <> 0 ->
  model w !! addr w = Some hr ->
  state_min w = 8 ->
  publish_frequent w
  = next_min_state
      (publish_str (with_topic LAST_SEEN
                      (Path_make3 (addr w) INVALID_TOPIC false))
         (last_contact hr) w).
Proof.
  intros Hb Hm Hn. unfold publish_frequent.
  apply Z.eqb_neq in Hb. rewrite Hb, Hm, Hn. reflexivity.
Qed.

Lemma publish_frequent_state (w : t) (hr : HR20) :
  Z.land (states_get (addr w) w) CHANGE_FREQUENT <> 0 ->
  model w !! addr w = Some hr ->
  state_min w = 9 -> MQTT_JSON = true ->
  publish_frequent w
  = next_min_state
      (publish_str (with_topic STATE
                      (Path_make3 (addr w) INVALID_TOPIC false))
         (client_attr hr) w).
Proof.
  intros Hb Hm Hn Hj. unfold publish_frequent.
  apply Z.eqb_neq in Hb. rewrite Hb, Hm, Hn, Hj. reflexivity.
Qed.

Lemma publish_frequent_end (w : t) (hr : HR20) :
  Z.land (states_get (addr w) w) CHANGE_FREQUENT <> 0 ->
  model w !! addr w = Some hr ->
  state_min w = (if MQTT_JSON then 10 else 9) ->
  publish_frequent w
  = next_major
      (states_set (addr w)
         (Z.land (states_get (addr w) w) (Z.lnot CHANGE_FREQUENT)) w).
Proof.
  intros Hb Hm Hn. unfold publish_frequent.
  apply Z.eqb_neq in Hb. rewrite Hb, Hm, Hn.
  destruct MQTT_JSON; reflexivity.
Qed.

(** What [publish] does to the device: the value of the field is left
    published or was not known, and is otherwise as before. *)
Lemma publish_device (p : Path) (f : Field) (a : Z) (hr : HR20) (w : t) :
  exists v,
    model (publish p f a hr w) = <[a := set_field f v hr]> (model w)
    /\ value_done v
    /\ to_str v = to_str (get_field f hr)
    /\ remote_valid v = remote_valid (get_field f hr).
Proof.
  unfold publish, publish_value, client_publish.
  destruct (published (get_field f hr)) eqn:Ep; cbn [orb].
  - exists (get_field f hr). repeat split. now left.
  - destruct (remote_valid (get_field f hr)) eqn:Ev; cbn [negb].
    + exists (set_published true (get_field f hr)).
      destruct (publish_result _ _); repeat split; try (now left); exact Ev.
    + exists (get_field f hr). repeat split; try exact Ev. now right.
Qed.

Lemma publish_str_model (p : Path) (val : string) (w : t) :
  model (publish_str p val w) = model w.
Proof.
  unfold publish_str, client_publish. destruct (publish_result _ _); reflexivity.
Qed.

(** The first [k] steps of the frequent walk, for [k] up to 8. *)
Lemma frequent_walk_fields (w0 : t) (hr0 : HR20) (k : nat) :
  (k <= 8)%nat ->
  state_maj w0 = StateMajor_code STM_FREQ -> state_min w0 = 0 ->
  model w0 !! addr w0 = Some hr0 ->
  Z.land (states_get (addr w0) w0) CHANGE_FREQUENT <> 0 ->
  let w := Nat.iter k publish_frequent w0 in
  states w = states w0
  /\ cursor w = (addr w0, StateMajor_code STM_FREQ, Z.of_nat k)
  /\ (attempts w0 <= attempts w <= attempts w0 + k)%nat
  /\ exists hr,
       model w !! addr w0 = Some hr
       /\ (forall f, field_state f < Z.of_nat k -> value_done (get_field f hr))
       /\ (forall f, to_str (get_field f hr) = to_str (get_field f hr0))
       /\ timers hr = timers hr0 /\ last_contact hr = last_contact hr0
       /\ client_attr hr = client_attr hr0.
Proof.
  intros Hk Hj Hn Hm Hb. induction k as [|k IH].
  - simpl. split; [reflexivity |].
    split; [unfold cursor; now rewrite Hj, Hn |]. split; [lia |].
    exists hr0. split; [exact Hm |].
    split; [intros f Hf; pose proof (field_state_range f); lia |].
    repeat split.
  - destruct IH as (Hs & Hc & Ha & hr & Hm' & Hdone & Hstr & Ht & Hl & Hca);
      [lia |].
    cbv zeta. rewrite Nat.iter_succ. set (w := Nat.iter k publish_frequent w0) in *.
    unfold cursor in Hc. injection Hc as Haddr Hmaj Hmin.
    destruct (field_of_state k) as (f & Hf); [lia |].
    assert (Hb' : Z.land (states_get (addr w) w) CHANGE_FREQUENT <> 0).
    { unfold states_get. rewrite Hs, Haddr. exact Hb. }
    rewrite (publish_frequent_field w hr f Hb');
      [| now rewrite Haddr | congruence].
    set (p := with_topic _ _).
    destruct (publish_effect p f (addr w) hr w) as (Es & Ec & Eat).
    destruct (publish_device p f (addr w) hr w) as (v & Em & Ev & Estr & _).
    unfold cursor in Ec. injection Ec as Ea Ej En.
    split; [cbn [states next_min_state with_state_min]; congruence |].
    split.
    { unfold cursor. cbn [addr state_maj state_min next_min_state with_state_min].
      rewrite Ea, Ej, En, Haddr, Hmaj, Hmin. unfold u8.
      rewrite Z.mod_small by lia. f_equal. lia. }
    split; [unfold attempts in *; cbn [log next_min_state with_state_min]; lia |].
    exists (set_field f v hr).
    split; [cbn [model next_min_state with_state_min]; rewrite Em, Haddr;
            apply lookup_insert_eq |].
    split.
    { intros f' Hf'. rewrite get_set_field.
      destruct (decide (f' = f)) as [-> | Hne]; [exact Ev |].
      apply Hdone.
      assert (field_state f' <> field_state f)
        by (intros E; now apply field_state_inj in E).
      lia. }
    split.
    { intros f'. rewrite get_set_field.
      destruct (decide (f' = f)) as [-> | Hne]; [| apply Hstr].
      rewrite Estr. apply Hstr. }
    repeat split; assumption.
Qed.

End FrequentWalk.

Section FrequentWalkEnd.
Context `{cfg : Config}.

Lemma walk_str_step (p : Path) (val : string) (w : t) :
  let w1 := next_min_state (publish_str p val w) in
  states w1 = states w /\ addr w1 = addr w /\ state_maj w1 = state_maj w
  /\ state_min w1 = u8 (state_min w + 1) /\ model w1 = model w
  /\ attempts w1 = (attempts w + 1)%nat.
Proof.
  destruct (publish_str_effect p val w) as (Es & Ec & Ea).
  pose proof (publish_str_model p val w) as Em.
  unfold cursor in Ec. injection Ec as E1 E2 E3.
  cbv zeta. unfold next_min_state, attempts in *.
  cbn [states addr state_maj state_min model log with_state_min].
  rewrite E3. repeat split; assumption.
Qed.

Lemma frequent_walk_tail (w : t) (hr : HR20) :
  state_maj w = StateMajor_code STM_FREQ -> state_min w = 8 ->
  model w !! addr w = Some hr ->
  Z.land (states_get (addr w) w) CHANGE_FREQUENT <> 0 ->
  let w' := Nat.iter (frequent_steps - 8) publish_frequent w in
  cursor w' = (addr w, StateMajor_code STM_TIMER, 0)
  /\ states w'
     = <[Z.to_nat (addr w)
         := Z.land (states_get (addr w) w) (Z.lnot CHANGE_FREQUENT)]> (states w)
  /\ model w' = model w
  /\ attempts w' = (attempts w + (frequent_steps - 9))%nat.
Proof.
  intros Hj Hn Hm Hb.
  assert (Hend : forall w1,
            states w1 = states w -> addr w1 = addr w ->
            state_maj w1 = state_maj w ->
            state_min w1 = (if MQTT_JSON then 10 else 9) ->
            model w1 = model w ->
            cursor (publish_frequent w1) = (addr w, StateMajor_code STM_TIMER, 0)
            /\ states (publish_frequent w1)
               = <[Z.to_nat (addr w)
                   := Z.land (states_get (addr w) w) (Z.lnot CHANGE_FREQUENT)]>
                   (states w)
            /\ model (publish_frequent w1) = model w
            /\ attempts (publish_frequent w1) = attempts w1).
  { intros w1 Es Ea Ej En Em.
    assert (Hg : states_get (addr w1) w1 = states_get (addr w) w)
      by (unfold states_get; now rewrite Es, Ea).
    rewrite (publish_frequent_end w1 hr);
      [| now rewrite Hg | now rewrite Em, Ea | exact En].
    rewrite next_major_freq
      by (cbn [state_maj states_set with_states]; congruence).
    rewrite Hg. unfold cursor.
    cbn [addr state_maj state_min states model with_state_maj with_state_min
         states_set with_states].
    rewrite Ea, Es, Em. repeat split. }
  destruct (walk_str_step
              (with_topic LAST_SEEN (Path_make3 (addr w) INVALID_TOPIC false))
              (last_contact hr) w) as (Es & Ea & Ej & En & Em & Eat).
  rewrite Hn in En. change (u8 (8 + 1)) with 9 in En.
  rewrite <- (publish_frequent_last_seen w hr Hb Hm Hn) in *.
  set (w9 := publish_frequent w) in *.
  unfold frequent_steps in *. destruct MQTT_JSON eqn:Ejson.
  - change (11 - 8)%nat with 3%nat. change (11 - 9)%nat with 2%nat.
    cbn [Nat.iter nat_rect]. fold w9.
    assert (Hb9 : Z.land (states_get (addr w9) w9) CHANGE_FREQUENT <> 0)
      by (unfold states_get; now rewrite Es, Ea).
    assert (Hm9 : model w9 !! addr w9 = Some hr) by (now rewrite Em, Ea).
    destruct (walk_str_step
                (with_topic STATE (Path_make3 (addr w9) INVALID_TOPIC false))
                (client_attr hr) w9) as (Fs & Fa & Fj & Fn & Fm & Fat).
    rewrite En in Fn. change (u8 (9 + 1)) with 10 in Fn.
    rewrite <- (publish_frequent_state w9 hr Hb9 Hm9 En Ejson) in *.
    set (w10 := publish_frequent w9) in *.
    destruct (Hend w10) as (H1 & H2 & H3 & H4); try congruence.
    split; [exact H1 | split; [exact H2 | split; [exact H3 |]]].
    rewrite H4, Fat, Eat. lia.
  - change (10 - 8)%nat with 2%nat. change (10 - 9)%nat with 1%nat.
    cbn [Nat.iter nat_rect]. fold w9.
    destruct (Hend w9) as (H1 & H2 & H3 & H4); try congruence.
    split; [exact H1 | split; [exact H2 | split; [exact H3 |]]].
    rewrite H4, Eat. reflexivity.
Qed.

Lemma frequent_bit_cleared (m : Z) :
  Z.land (Z.land m (Z.lnot CHANGE_FREQUENT)) CHANGE_FREQUENT = 0
  /\ Z.land (Z.land m (Z.lnot CHANGE_FREQUENT)) CHANGE_TIMER_MASK
     = Z.land m CHANGE_TIMER_MASK.
Proof.
  rewrite <- !Z.land_assoc.
  change (Z.land (Z.lnot CHANGE_FREQUENT) CHANGE_FREQUENT) with 0.
  change (Z.land (Z.lnot CHANGE_FREQUENT) CHANGE_TIMER_MASK)
    with CHANGE_TIMER_MASK.
  now rewrite Z.land_0_r.
Qed.

(** X22: the frequent walk completes: from minor state 0, with the
    frequent bit set and the device present, ten calls of
    [publish_frequent] (eleven under [MQTT_JSON]) bring the cursor to the
    timer walk of the same address, clear the frequent bit and no other,
    make at least one and at most one publish call per call but the last,
    and leave every cached value of the device published or not known,
    with its text and the timers as they were. *)
Theorem frequent_walk_completes (w : t) (hr : HR20) :
  state_maj w = StateMajor_code STM_FREQ -> state_min w = 0 ->
  model w !! addr w = Some hr ->
  (Z.to_nat (addr w) < length (states w))%nat ->
  Z.land (states_get (addr w) w) CHANGE_FREQUENT <> 0 ->
  let w' := Nat.iter frequent_steps publish_frequent w in
  cursor w' = (addr w, StateMajor_code STM_TIMER, 0)
  /\ states_get (addr w) w'
     = Z.land (states_get (addr w) w) (Z.lnot CHANGE_FREQUENT)
  /\ Z.land (states_get (addr w) w') CHANGE_FREQUENT = 0
  /\ Z.land (states_get (addr w) w') CHANGE_TIMER_MASK
     = Z.land (states_get (addr w) w) CHANGE_TIMER_MASK
  /\ (attempts w < attempts w' <= attempts w + frequent_steps - 1)%nat
  /\ exists hr',
       model w' !! addr w = Some hr'
       /\ (forall f, value_done (get_field f hr')
                     /\ to_str (get_field f hr') = to_str (get_field f hr))
       /\ timers hr' = timers hr.
Proof.
  intros Hj Hn Hm Hl Hb w'.
  destruct (frequent_walk_fields w hr 8 (Nat.le_refl 8) Hj Hn Hm Hb)
    as (Hs & Hc & Ha & hr8 & Hm8 & Hdone & Hstr & Ht & _).
  assert (Hw' : w' = Nat.iter (frequent_steps - 8) publish_frequent
                       (Nat.iter 8 publish_frequent w)).
  { subst w'. rewrite <- Nat.iter_add. f_equal.
    unfold frequent_steps. destruct MQTT_JSON; reflexivity. }
  clearbody w'. cbv zeta in Hs, Hc, Ha, Hm8.
  remember (Nat.iter 8 publish_frequent w) as w8 eqn:Ew8. clear Ew8.
  unfold cursor in Hc. injection Hc as Haddr Hmaj Hmin.
  assert (Hg : states_get (addr w8) w8 = states_get (addr w) w)
    by (unfold states_get; now rewrite Hs, Haddr).
  destruct (frequent_walk_tail w8 hr8) as (Tc & Ts & Tm & Ta);
    [exact Hmaj | exact Hmin | now rewrite Haddr | now rewrite Hg |].
  rewrite <- Hw' in Tc, Ts, Tm, Ta. rewrite Haddr, Hg in *.
  assert (Hget : states_get (addr w) w'
                 = Z.land (states_get (addr w) w) (Z.lnot CHANGE_FREQUENT)).
  { unfold states_get at 1. rewrite Ts, Hs.
    now rewrite list_lookup_insert_eq. }
  destruct (frequent_bit_cleared (states_get (addr w) w)) as [B1 B2].
  split; [exact Tc |]. split; [exact Hget |].
  split; [now rewrite Hget |]. split; [now rewrite Hget |].
  split.
  { rewrite Ta. unfold frequent_steps. destruct MQTT_JSON; lia. }
  exists hr8. split; [now rewrite Tm |]. split; [| exact Ht].
  intros f. split; [| apply Hstr].
  apply Hdone. pose proof (field_state_range f). lia.
Qed.

Lemma compose_text_plain (a : Z) (tp : Topic) :
  tp <> TIMER ->
  compose_text prefix (Path_make3 a tp false)
  = prefix +:+ "/" +:+ dec_u8 a +:+ "/" +:+ topic_str tp.
Proof.
  intros H. unfold compose_text. cbn [setter Path_addr topic Path_make3 Path_make].
  destruct (decide (tp = TIMER)); [contradiction |].
  rewrite append_nil_l, !append_assoc. reflexivity.
Qed.

(** X23: what the frequent walk publishes at a minor state below 8: the
    cached value of that state (0 auto_mode, 1 menu_locked, 2 mode_window,
    3 temp_avg, 4 bat_avg, 5 temp_wanted, 6 cur_valve_wtd, 7 ctl_err), if
    it is known and not yet published, goes out once, on
    "<prefix>/<addr>/<topic name>" with its text as payload and the
    configured retain flag, followed by MQTT_PUBLISH or MQTT_CANT_PUBLISH,
    and is flagged published; a value that is published or not known
    leaves the log and the device as they were.  The minor state moves on
    in both cases. *)
Theorem frequent_walk_publishes_field (w : t) (hr : HR20) (f : Field) :
  Z.land (states_get (addr w) w) CHANGE_FREQUENT <> 0 ->
  model w !! addr w = Some hr ->
  state_min w = field_state f ->
  (String.length prefix <= 100)%nat ->
  let v := get_field f hr in
  let p := Path_make3 (addr w) (field_topic f) false in
  let ok := publish_result (client w) (publish_calls (client w)) in
  let w' := publish_frequent w in
  state_min w' = field_state f + 1
  /\ (published v = false -> remote_valid v = true ->
      log w'
      = log w
        ++ [EvPublish
              (Some (prefix +:+ "/" +:+ dec_u8 (addr w) +:+ "/"
                     +:+ topic_str (field_topic f)))
              (to_str v) MQTT_RETAIN ok;
            if ok then EvEVENT_ARG MQTT_PUBLISH (as_uint p)
            else EvERR_ARG MQTT_CANT_PUBLISH (as_uint p)]
      /\ model w' = <[addr w := set_field f (set_published true v) hr]> (model w))
  /\ (value_done v -> log w' = log w /\ model w' !! addr w = Some hr).
Proof.
  intros Hb Hm Hn Hlen v p ok w'. subst w'.
  rewrite (publish_frequent_field w hr f Hb Hm Hn).
  change (with_topic (field_topic f) (Path_make3 (addr w) INVALID_TOPIC false))
    with p.
  assert (Hc : compose prefix MAX_MQTT_PATH_LENGTH p
               = Some (prefix +:+ "/" +:+ dec_u8 (addr w) +:+ "/"
                       +:+ topic_str (field_topic f))).
  { destruct (compose_fits prefix p Hlen) as [_ E].
    rewrite E. f_equal. apply compose_text_plain. destruct f; discriminate. }
  unfold publish, publish_value, client_publish. rewrite Hc. fold v ok.
  split; [| split].
  - destruct (published v || negb (remote_valid v)); [| destruct ok];
      cbn [state_min next_min_state with_state_min with_model emit with_client];
      rewrite Hn; unfold u8; pose proof (field_state_range f);
      rewrite Z.mod_small by lia; reflexivity.
  - intros Hp Hv. rewrite Hp, Hv. cbn [orb negb].
    destruct ok; cbn [log model next_min_state with_state_min with_model emit
                      with_client];
      rewrite <- app_assoc; split; reflexivity.
  - intros [Hd | Hd]; rewrite Hd; cbn [orb negb]; rewrite ?orb_true_r;
      cbn [log model next_min_state with_state_min with_model];
      (split; [reflexivity |]);
      rewrite lookup_insert_eq; f_equal; subst v; destruct f, hr; reflexivity.
Qed.

End FrequentWalkEnd.

(** ** Serving a device to the end *)

Lemma served_bits (m : Z) :
  Z.land m CHANGE_FREQUENT = 0 -> Z.land m CHANGE_TIMER_MASK = 0 ->
  Z.land m CHANGE_SERVED = 0.
Proof.
  intros H1 H2. unfold CHANGE_SERVED. now rewrite Z.land_lor_distr_r, H1, H2.
Qed.

Lemma timer_bits_clear (m : Z) :
  (forall d, 0 <= d < 8 -> Z.testbit m (d + 1) = false) ->
  Z.land m CHANGE_TIMER_MASK = 0.
Proof.
  intros H. apply Z.bits_inj'. intros i Hi.
  rewrite Z.land_spec, Z.bits_0. unfold CHANGE_TIMER_MASK.
  change 0x1FE with (Z.shiftl (Z.ones 8) 1).
  rewrite Z.shiftl_spec by exact Hi.
  destruct (Z_lt_ge_dec (i - 1) 0) as [L | L].
  - rewrite (Z.testbit_neg_r _ (i - 1)) by exact L. apply andb_false_r.
  - destruct (Z_lt_ge_dec (i - 1) 8) as [L8 | L8].
    + replace i with (i - 1 + 1) at 1 by lia. rewrite H by lia. reflexivity.
    + rewrite Z.ones_spec_high by lia. apply andb_false_r.
Qed.

Lemma day_bit_clear (m d : Z) :
  0 <= d < 8 ->
  Z.land (Z.shiftl 1 d) (change_get_timer_mask m) = 0 ->
  Z.testbit m (d + 1) = false.
Proof.
  intros Hd H. rewrite <- timer_mask_bit by exact Hd.
  destruct (Z.testbit (change_get_timer_mask m) d) eqn:E; [| reflexivity].
  apply day_bit_set in E; [contradiction | lia].
Qed.

Lemma land_keeps_clear (m x i : Z) :
  Z.testbit m i = false -> Z.testbit (Z.land m x) i = false.
Proof. intros H. now rewrite Z.land_spec, H. Qed.

Lemma land_keeps_frequent_clear (m x : Z) :
  Z.land m CHANGE_FREQUENT = 0 -> Z.land (Z.land m x) CHANGE_FREQUENT = 0.
Proof.
  intros H.
  rewrite <- Z.land_assoc, (Z.land_comm x), Z.land_assoc, H. apply Z.land_0_l.
Qed.

Lemma next_day (n d : Z) :
  0 <= n -> 0 <= d < Z.shiftr (n + 1) 3 ->
  d < Z.shiftr n 3 \/ (d = Z.shiftr n 3 /\ Z.land n 7 = 7).
Proof.
  intros Hn. change (Z.land n 7) with (Z.land n (Z.ones 3)).
  rewrite Z.land_ones by lia.
  rewrite !Z.shiftr_div_pow2 by lia. change (2 ^ 3) with 8.
  intros Hd. Z.div_mod_to_equations. lia.
Qed.

Lemma same_day (n : Z) :
  0 <= n -> Z.land n 7 <> 7 -> Z.shiftr (n + 1) 3 = Z.shiftr n 3.
Proof.
  intros Hn. change (Z.land n 7) with (Z.land n (Z.ones 3)).
  rewrite Z.land_ones by lia.
  rewrite !Z.shiftr_div_pow2 by lia. change (2 ^ 3) with 8.
  intros Hd. Z.div_mod_to_equations. lia.
Qed.

Lemma day_lt_8 (n : Z) : 0 <= n -> Z.shiftr n 3 < 8 -> n < 64.
Proof.
  intros Hn. rewrite Z.shiftr_div_pow2 by lia. change (2 ^ 3) with 8.
  intros H. Z.div_mod_to_equations. lia.
Qed.

Lemma day_ge_8 (n : Z) : 0 <= n <= 64 -> 8 <= Z.shiftr n 3 -> n = 64.
Proof.
  intros Hn. rewrite Z.shiftr_div_pow2 by lia. change (2 ^ 3) with 8.
  intros H. Z.div_mod_to_equations. lia.
Qed.

Section Serving.
Context `{cfg : Config} `{ops : DeviceOps}.

Lemma next_major_states (w : t) : states (next_major w) = states w.
Proof. unfold next_major. cbv zeta. destruct (_ <=? _); reflexivity. Qed.

Lemma next_major_log (w : t) : log (next_major w) = log w.
Proof. unfold next_major. cbv zeta. destruct (_ <=? _); reflexivity. Qed.

Lemma publish_frequent_states (w : t) (hr : HR20) :
  model w !! addr w = Some hr ->
  states (publish_frequent w)
  = if (Z.land (states_get (addr w) w) CHANGE_FREQUENT =? 0)
       || in_frequent_walk (state_min w)
    then states w
    else <[Z.to_nat (addr w)
           := Z.land (states_get (addr w) w) (Z.lnot CHANGE_FREQUENT)]>
           (states w).
Proof.
  intros Hm. unfold publish_frequent, in_frequent_walk. rewrite Hm.
  destruct (Z.land _ _ =? 0); [rewrite next_major_states; reflexivity |]. cbv zeta. cbn [orb].
  assert (Hp : forall p f,
            states (next_min_state (publish p f (addr w) hr w)) = states w).
  { intros p f. destruct (publish_effect p f (addr w) hr w) as (H & _).
    exact H. }
  assert (Hs : forall p v, states (next_min_state (publish_str p v w)) = states w).
  { intros p v. destruct (publish_str_effect p v w) as (H & _). exact H. }
  unfold publish_synced.
  repeat match goal with
         | |- context [if (state_min w =? ?k) then _ else _] =>
             destruct (state_min w =? k)
         end; cbn [orb andb]; try apply Hp; try apply Hs.
  destruct (state_min w =? 9), MQTT_JSON; cbn [orb andb];
    try apply Hs; rewrite next_major_states; reflexivity.
Qed.

Lemma publish_timers_states (w : t) (hr : HR20) :
  model w !! addr w = Some hr ->
  let m := states_get (addr w) w in
  let d := Z.shiftr (state_min w) 3 in
  states (publish_timers w)
  = if (Z.land m CHANGE_TIMER_MASK =? 0) || (8 <=? d)
       || (Z.land (Z.shiftl 1 d) (change_get_timer_mask m) =? 0)
       || negb (Z.land (state_min w) 7 =? 7)
    then states w
    else <[Z.to_nat (addr w) := Z.land m (Z.lnot (timer_day_2_change d))]>
           (states w).
Proof.
  intros Hm m d. subst m d. unfold publish_timers. rewrite Hm. cbv zeta.
  destruct (Z.land _ CHANGE_TIMER_MASK =? 0); [rewrite next_major_states; reflexivity |].
  change (states_get (addr w) (next_min_state w)) with (states_get (addr w) w).
  destruct (8 <=? _); [rewrite next_major_states; reflexivity |].
  destruct (Z.land (Z.shiftl _ _) _ =? 0); [reflexivity |]. cbn [orb].
  match goal with
  | |- context [publish_timer_slot ?p ?v ?x] =>
      pose proof (publish_timer_slot_effect p v x) as (Hs & _);
      destruct (publish_timer_slot p v x) as [val w3]
  end.
  cbn [fst snd states with_model] in *. rewrite Hs.
  destruct (_ =? 7); reflexivity.
Qed.

Lemma connected_reconnect (now : Z) (w : t) :
  connected (client w) = true -> reconnect now w = (true, w).
Proof. intros H. unfold reconnect. now rewrite H. Qed.

Lemma serving_client_loop (a : Z) (w : t) :
  serving a w ->
  serving a (client_loop w) /\ ticks_left (client_loop w) = ticks_left w
  /\ states (client_loop w) = states w.
Proof.
  intros (Ha & Ha0 & Hl & Hc & Hm & Hst).
  pose proof (client_loop_frame w) as F.
  pose proof (frame_lookup w _ a F) as Hlk.
  pose proof (frame_states_get w _ a F) as Hg.
  destruct (client_loop_client w) as (Cc & _).
  apply frame_fields in F as (Fs & Fa & Fj & Fn).
  split; [| split; [unfold ticks_left; now rewrite Fj, Fn | exact Fs]].
  unfold serving. rewrite Fs, Fa, Fj, Fn, Hg, Cc.
  repeat split; try assumption; try lia. now apply Hlk.
Qed.

(** One tick of the scheduler on a device it is serving. *)
Lemma serving_schedule (a : Z) (w : t) :
  serving a w ->
  (cursor (schedule w) = (next_addr a, StateMajor_code STM_FREQ, 0)
   /\ Z.land (states_get a (schedule w)) CHANGE_SERVED = 0)
  \/ (serving a (schedule w) /\ (ticks_left (schedule w) < ticks_left w)%nat).
Proof.
  intros (Ha & Ha0 & Hl & Hc & [hr Hm] & Hst). subst a.
  unfold schedule.
  destruct (states_get (addr w) w =? 0) eqn:Ez.
  { left. apply Z.eqb_eq in Ez. split; [reflexivity |].
    change (states_get (addr w) (next_client w)) with (states_get (addr w) w).
    now rewrite Ez. }
  destruct Hst as [[Hj Hn] | (Hj & Hn & Hfreq & Hdays)]; rewrite Hj;
    cbn [StateMajor_code Z.eqb Pos.eqb].
  - (* the frequent walk *)
    right.
    destruct (publish_frequent_effect w Hj) as (_ & Hcur & _).
    specialize (Hcur (or_introl (ex_intro _ hr Hm))).
    pose proof (publish_frequent_states w hr Hm) as Hs.
    destruct (publish_frequent_rest w) as (_ & (Tc & _) & _ & Hsome & _).
    specialize (Hsome (ex_intro _ hr Hm)).
    unfold successor in Hcur. rewrite Hj in Hcur.
    cbn [StateMajor_code Z.eqb Pos.eqb] in Hcur.
    set (w' := publish_frequent w) in *.
    unfold cursor in Hcur.
    assert (Hlen : length (states w') = length (states w)).
    { rewrite Hs.
      match goal with
      | |- context [if ?b then _ else _] => destruct b
      end; [reflexivity | apply length_insert]. }
    destruct (Z.land (states_get (addr w) w) CHANGE_FREQUENT =? 0) eqn:Eb.
    + injection Hcur as Ea Ej En. cbn [orb] in Hs. split.
      * unfold serving. rewrite Ea, Hlen, Tc.
        repeat split; try assumption. right. rewrite Ej, En.
        split; [reflexivity |]. split; [lia |].
        unfold states_get. rewrite Hs. apply Z.eqb_eq in Eb.
        split; [exact Eb |]. intros d Hd. change (Z.shiftr 0 3) with 0 in Hd. lia.
      * unfold ticks_left. rewrite Ej, En, Hj. simpl. lia.
    + cbn [orb] in Hs. destruct (in_frequent_walk (state_min w)) eqn:Ew.
      * apply in_frequent_walk_bound in Ew. injection Hcur as Ea Ej En.
        unfold u8 in En. rewrite Z.mod_small in En by lia. split.
        -- unfold serving. rewrite Ea, Hlen, Tc.
           repeat split; try assumption. left. rewrite Ej, En. split; [reflexivity | lia].
        -- unfold ticks_left. rewrite Ej, En, Hj. simpl. lia.
      * injection Hcur as Ea Ej En. split.
        -- unfold serving. rewrite Ea, Hlen, Tc.
           repeat split; try assumption. right. rewrite Ej, En.
           split; [reflexivity |]. split; [lia |].
           assert (Hg : states_get (addr w) w'
                        = Z.land (states_get (addr w) w) (Z.lnot CHANGE_FREQUENT)).
           { unfold states_get at 1. rewrite Hs.
             now rewrite list_lookup_insert_eq. }
           rewrite Hg. split; [apply frequent_bit_cleared |].
           intros d Hd. change (Z.shiftr 0 3) with 0 in Hd. lia.
        -- unfold ticks_left. rewrite Ej, En, Hj. simpl. lia.
  - (* the timer walk *)
    destruct (publish_timers_effect w Hj) as (_ & Hcur & _).
    specialize (Hcur (ex_intro _ hr Hm)).
    pose proof (publish_timers_states w hr Hm) as Hs. cbv zeta in Hs.
    destruct (publish_timers_rest w) as (_ & (Tc & _) & _ & Hsome & _).
    specialize (Hsome (ex_intro _ hr Hm)).
    unfold successor in Hcur. rewrite Hj in Hcur.
    cbn [StateMajor_code Z.eqb Pos.eqb] in Hcur.
    set (w' := publish_timers w) in *.
    set (m := states_get (addr w) w) in *.
    set (d := Z.shiftr (state_min w) 3) in *.
    unfold cursor in Hcur.
    assert (Hlen : length (states w') = length (states w)).
    { rewrite Hs.
      match goal with
      | |- context [if ?b then _ else _] => destruct b
      end; [reflexivity | apply length_insert]. }
    destruct ((Z.land m CHANGE_TIMER_MASK =? 0) || (8 <=? d)) eqn:Eleave.
    + left. injection Hcur as Ea Ej En. cbn [orb] in Hs.
      split; [unfold cursor; now rewrite Ea, Ej, En |].
      unfold states_get. rewrite Hs. fold (states_get (addr w) w). fold m.
      apply served_bits; [exact Hfreq |].
      apply orb_prop in Eleave as [E | E]; [now apply Z.eqb_eq in E |].
      apply Z.leb_le in E. apply timer_bits_clear. intros d' Hd'.
      apply Hdays. fold d. lia.
    + right. apply orb_false_elim in Eleave as [E1 E2].
      apply Z.leb_gt in E2. injection Hcur as Ea Ej En.
      assert (Hn64 : state_min w < 64) by (apply day_lt_8; [lia | exact E2]).
      unfold u8 in En. rewrite Z.mod_small in En by lia.
      assert (Hd0 : 0 <= d) by (apply Z.shiftr_nonneg; lia).
      split; [| unfold ticks_left; rewrite Ej, En, Hj; simpl; lia].
      unfold serving. rewrite Ea, Hlen, Tc.
      repeat split; try assumption. right. rewrite Ej, En.
      split; [reflexivity |]. split; [lia |].
      cbn [orb] in Hs.
      destruct (Z.land (Z.shiftl 1 d) (change_get_timer_mask m) =? 0) eqn:Ebit.
      * cbn [orb] in Hs. unfold states_get. rewrite Hs.
        fold (states_get (addr w) w). fold m. split; [exact Hfreq |].
        intros d' Hd'. destruct (next_day (state_min w) d') as [Hd2 | [-> _]]; [lia | exact Hd' | |].
        -- apply Hdays. fold d. lia.
        -- apply day_bit_clear; [lia | now apply Z.eqb_eq in Ebit].
      * cbn [orb] in Hs.
        destruct (Z.land (state_min w) 7 =? 7) eqn:E7; cbn [negb] in Hs.
        -- assert (Hg : states_get (addr w) w'
                        = Z.land m (Z.lnot (timer_day_2_change d))).
           { unfold states_get at 1. rewrite Hs.
             now rewrite list_lookup_insert_eq. }
           rewrite Hg. split; [now apply land_keeps_frequent_clear |].
           intros d' Hd'. destruct (next_day (state_min w) d') as [Hd2 | [-> _]]; [lia | exact Hd' | |].
           ++ apply land_keeps_clear, Hdays. fold d. lia.
           ++ apply timer_day_cleared. fold d. lia.
        -- unfold states_get. rewrite Hs.
           fold (states_get (addr w) w). fold m. split; [exact Hfreq |].
           apply Z.eqb_neq in E7. rewrite same_day by (lia || exact E7).
           exact Hdays.
Qed.

Lemma serving_update (a now : Z) (w : t) :
  serving a w ->
  update now w = schedule (client_loop w)
  /\ ((cursor (update now w) = (next_addr a, StateMajor_code STM_FREQ, 0)
       /\ Z.land (states_get a (update now w)) CHANGE_SERVED = 0)
      \/ (serving a (update now w)
          /\ (ticks_left (update now w) < ticks_left w)%nat)).
Proof.
  intros H.
  assert (E : update now w = schedule (client_loop w)).
  { unfold update. rewrite connected_reconnect by apply H. reflexivity. }
  split; [exact E |]. rewrite E.
  destruct (serving_client_loop a w H) as (H2 & Hm & _).
  rewrite <- Hm. now apply serving_schedule.
Qed.

Lemma serving_completes (a : Z) (n : nat) (w : t) :
  serving a w -> (ticks_left w <= n)%nat ->
  exists k, (1 <= k <= n)%nat
    /\ forall nows, length nows = k ->
         cursor (ticks nows w) = (next_addr a, StateMajor_code STM_FREQ, 0)
         /\ Z.land (states_get a (ticks nows w)) CHANGE_SERVED = 0.
Proof.
  revert w; induction n as [|n IH]; intros w Hs Hn.
  - exfalso. destruct Hs as (_ & _ & _ & _ & _ & [[Hj Hm] | (Hj & Hm & _)]);
      unfold ticks_left in Hn; rewrite Hj in Hn; simpl in Hn; lia.
  - destruct (serving_update a 0 w Hs) as (E0 & [Hdone | [Hs' Hlt]]).
    + exists 1%nat. split; [lia |]. intros [|now [|? ?]] Hl; try discriminate.
      change (ticks [now] w) with (update now w).
      destruct (serving_update a now w Hs) as (E & _).
      rewrite E, <- E0. exact Hdone.
    + destruct (IH (update 0 w) Hs') as (k & Hk & Hrun); [lia |].
      exists (S k). split; [lia |]. intros [|now nows] Hl; [discriminate |].
      change (ticks (now :: nows) w) with (ticks nows (update now w)).
      destruct (serving_update a now w Hs) as (E & _).
      rewrite E, <- E0. apply Hrun. simpl in Hl. lia.
Qed.

(** X24: serving a device ends: from the start of the walks on an address
    that has a device, with the transport connected, at most 76 ticks bring
    the cursor to the next address, and then no frequent bit and no timer
    bit is left in the mask of the address served. *)
Theorem device_service_completes (w : t) :
  0 <= addr w -> (Z.to_nat (addr w) < length (states w))%nat ->
  connected (client w) = true -> is_Some (model w !! addr w) ->
  state_maj w = StateMajor_code STM_FREQ -> state_min w = 0 ->
  exists k, (1 <= k <= 76)%nat
    /\ forall nows, length nows = k ->
         cursor (ticks nows w) = (next_addr (addr w), StateMajor_code STM_FREQ, 0)
         /\ Z.land (states_get (addr w) (ticks nows w)) CHANGE_SERVED = 0.
Proof.
  intros Ha Hl Hc Hm Hj Hn. apply serving_completes.
  - unfold serving. repeat split; try assumption. left. split; [exact Hj | lia].
  - unfold ticks_left. rewrite Hj, Hn. simpl. lia.
Qed.

End Serving.

Lemma frequent_walk_completes_witness :
  let w := demo 3 0 0 true (fun _ => false) in
  (state_maj w = StateMajor_code STM_FREQ /\ state_min w = 0
   /\ model w !! addr w = Some demo_device
   /\ (Z.to_nat (addr w) < length (states w))%nat
   /\ Z.land (states_get (addr w) w) CHANGE_FREQUENT <> 0)
  /\ cursor (Nat.iter 10 (@publish_frequent demo_config) w) = (3, 1, 0)
  /\ states_get 3 (Nat.iter 10 (@publish_frequent demo_config) w) = 2
  /\ attempts (Nat.iter 10 (@publish_frequent demo_config) w) = 9%nat.
Proof.
  intros w.
  assert (H1 : state_maj w = StateMajor_code STM_FREQ) by reflexivity.
  assert (H2 : state_min w = 0) by reflexivity.
  assert (H3 : model w !! addr w = Some demo_device) by reflexivity.
  assert (H4 : (Z.to_nat (addr w) < length (states w))%nat) by (simpl; lia).
  assert (H5 : Z.land (states_get (addr w) w) CHANGE_FREQUENT <> 0)
    by (vm_compute; discriminate).
  split; [repeat split; assumption |].
  destruct (@frequent_walk_completes demo_config w demo_device H1 H2 H3 H4 H5)
    as (Hc & Hg & _).
  split; [exact Hc | split; [exact Hg | reflexivity]].
Defined.

Lemma frequent_walk_publishes_field_witness :
  let w := demo 1 0 4 true (fun _ => true) in
  (Z.land (states_get (addr w) w) CHANGE_FREQUENT <> 0
   /\ model w !! addr w = Some demo_device
   /\ state_min w = field_state F_bat_avg
   /\ (String.length (@prefix demo_config) <= 100)%nat)
  /\ log (@publish_frequent demo_config w)
     = [EvPublish (Some "hr20/3/battery"%string) "2900" true true;
        EvEVENT_ARG MQTT_PUBLISH 67].
Proof.
  intros w.
  assert (H1 : Z.land (states_get (addr w) w) CHANGE_FREQUENT <> 0)
    by (vm_compute; discriminate).
  assert (H2 : model w !! addr w = Some demo_device) by reflexivity.
  assert (H3 : state_min w = field_state F_bat_avg) by reflexivity.
  assert (H4 : (String.length (@prefix demo_config) <= 100)%nat)
    by (simpl; lia).
  split; [repeat split; assumption |].
  destruct (@frequent_walk_publishes_field demo_config w demo_device F_bat_avg
              H1 H2 H3 H4) as (_ & Hlog & _).
  destruct (Hlog eq_refl eq_refl) as [Hl _]. exact Hl.
Defined.

Lemma device_service_completes_witness :
  let w := demo 3 0 0 true (fun _ => true) in
  (0 <= addr w /\ (Z.to_nat (addr w) < length (states w))%nat
   /\ connected (client w) = true /\ is_Some (model w !! addr w)
   /\ state_maj w = StateMajor_code STM_FREQ /\ state_min w = 0)
  /\ (exists k, (1 <= k <= 76)%nat
        /\ forall nows, length nows = k ->
             cursor (@ticks demo_config demo_ops nows w) = (4, 0, 0)
             /\ Z.land (states_get 3 (@ticks demo_config demo_ops nows w))
                  CHANGE_SERVED = 0)
  /\ cursor (@ticks demo_config demo_ops (replicate 19 100) w) = (4, 0, 0)
  /\ states_get 3 (@ticks demo_config demo_ops (replicate 19 100) w) = 0
  /\ attempts (@ticks demo_config demo_ops (replicate 19 100) w) = 25%nat.
Proof.
  intros w.
  assert (H1 : 0 <= addr w) by (simpl; lia).
  assert (H2 : (Z.to_nat (addr w) < length (states w))%nat) by (simpl; lia).
  assert (H3 : connected (client w) = true) by reflexivity.
  assert (H4 : is_Some (model w !! addr w)) by (exists demo_device; reflexivity).
  assert (H5 : state_maj w = StateMajor_code STM_FREQ) by reflexivity.
  assert (H6 : state_min w = 0) by reflexivity.
  split; [repeat split; assumption |].
  split; [exact (@device_service_completes demo_config demo_ops w
                   H1 H2 H3 H4 H5 H6) |].
  vm_compute. repeat split.
Defined.

(** ** What is published, and how often *)

Lemma insert_same_device (a : Z) (hr : HR20) (w : t) :
  model w !! a = Some hr -> with_model (<[a := hr]> (model w)) w = w.
Proof.
  intros H. rewrite insert_id by exact H. now destruct w.
Qed.

Lemma set_field_get (f : Field) (hr : HR20) : set_field f (get_field f hr) hr = hr.
Proof. destruct f, hr; reflexivity. Qed.

Section Publishing.
Context `{cfg : Config}.

(** X25: a cached value is sent at most once: [publish] makes at most one
    publish call and leaves the value published or not known, and a second
    [publish] of that value, under any path, changes nothing at all. *)
Theorem publish_sends_once (p p' : Path) (f : Field) (a : Z) (hr : HR20)
    (w : t) :
  let w1 := publish p f a hr w in
  (attempts w <= attempts w1 <= attempts w + 1)%nat
  /\ exists hr1,
       model w1 !! a = Some hr1
       /\ value_done (get_field f hr1)
       /\ publish p' f a hr1 w1 = w1.
Proof.
  intros w1.
  destruct (publish_effect p f a hr w) as (_ & _ & Hat).
  destruct (publish_device p f a hr w) as (v & Em & Ev & _).
  fold w1 in Hat, Em. split; [exact Hat |].
  exists (set_field f v hr).
  assert (Hl : model w1 !! a = Some (set_field f v hr))
    by (rewrite Em; apply lookup_insert_eq).
  split; [exact Hl |].
  assert (Hg : get_field f (set_field f v hr) = v)
    by (rewrite get_set_field; now destruct (decide (f = f))).
  split; [now rewrite Hg |].
  unfold publish, publish_value. rewrite Hg.
  replace (published v || negb (remote_valid v)) with true
    by (destruct Ev as [-> | ->]; [reflexivity | now rewrite orb_true_r]).
  rewrite <- Hg at 1. rewrite set_field_get.
  now apply insert_same_device.
Qed.

Lemma compose_text_timer (a d s : Z) (tt : TimerTopic) (sub : cstr) :
  timer_topic_str tt = Some sub ->
  compose_text prefix (Path_make a TIMER false tt d s)
  = prefix +:+ "/" +:+ dec_u8 a +:+ "/timer/" +:+ dec_u8 d +:+ "/"
    +:+ dec_u8 s +:+ "/" +:+ sub.
Proof.
  intros H. unfold compose_text.
  cbn [setter Path_addr topic day slot timer_topic Path_make].
  destruct (decide (TIMER = TIMER)); [| contradiction].
  rewrite H. unfold append_opt.
  rewrite append_nil_l, !append_assoc. reflexivity.
Qed.

(** X26: a timer slot that is known and not yet published is sent as two
    messages, first "<prefix>/<addr>/timer/<day>/<slot>/mode" with the mode,
    then ".../time" with the time, the second also when the first failed;
    one MQTT_PUBLISH follows when both succeeded, one MQTT_CANT_PUBLISH
    otherwise, and the slot is flagged published.  A slot that is published
    or not known is left alone and nothing is sent. *)
Theorem publish_timer_slot_sends_both (a d s : Z) (val : TimerSlot) (w : t) :
  (String.length prefix <= 100)%nat ->
  let p := Path_make a TIMER false TIMER_NONE d s in
  let r := publish_timer_slot p val w in
  let ok1 := publish_result (client w) (publish_calls (client w)) in
  let ok2 := publish_result (client w) (S (publish_calls (client w))) in
  let base := prefix +:+ "/" +:+ dec_u8 a +:+ "/timer/" +:+ dec_u8 d +:+ "/"
              +:+ dec_u8 s +:+ "/" in
  (slot_published val = false -> slot_remote_valid val = true ->
   log (snd r)
   = log w
     ++ [EvPublish (Some (base +:+ "mode")) (remote_mode val) MQTT_RETAIN ok1;
         EvPublish (Some (base +:+ "time")) (remote_time val) MQTT_RETAIN ok2;
         if ok1 && ok2 then EvEVENT_ARG MQTT_PUBLISH (as_uint p)
         else EvERR_ARG MQTT_CANT_PUBLISH (as_uint p)]
   /\ fst r = set_slot_published true val
   /\ publish_calls (client (snd r)) = S (S (publish_calls (client w))))
  /\ (slot_published val = true \/ slot_remote_valid val = false ->
      r = (val, w)).
Proof.
  intros Hlen p r ok1 ok2 base. subst r. unfold publish_timer_slot.
  assert (Hmode : compose prefix MAX_MQTT_PATH_LENGTH (with_timer_topic TIMER_MODE p)
                  = Some (base +:+ "mode")).
  { destruct (compose_fits prefix (with_timer_topic TIMER_MODE p) Hlen)
      as [_ E]. rewrite E. f_equal. subst base.
    rewrite !append_assoc.
    exact (compose_text_timer a d s TIMER_MODE "mode" eq_refl). }
  assert (Htime : compose prefix MAX_MQTT_PATH_LENGTH (with_timer_topic TIMER_TIME p)
                  = Some (base +:+ "time")).
  { destruct (compose_fits prefix (with_timer_topic TIMER_TIME p) Hlen)
      as [_ E]. rewrite E. f_equal. subst base.
    rewrite !append_assoc.
    exact (compose_text_timer a d s TIMER_TIME "time" eq_refl). }
  rewrite Hmode, Htime. split.
  - intros Hp Hv. rewrite Hp, Hv. cbn [negb andb].
    unfold client_publish.
    cbn [client with_client emit publish_result publish_calls fst snd].
    fold ok1 ok2.
    destruct ok1, ok2; cbn [negb orb andb fst snd log emit client with_client
                            publish_calls];
      rewrite <- !app_assoc; repeat split.
  - intros [H | H]; rewrite H; [reflexivity | now rewrite andb_false_r].
Qed.

End Publishing.

Lemma publish_sends_once_witness :
  let w := demo 1 0 0 true (fun _ => true) in
  let w1 := @publish demo_config (Path_make3 3 MODE false) F_auto_mode 3
              demo_device w in
  attempts w1 = 1%nat
  /\ exists hr1,
       model w1 !! 3 = Some hr1
       /\ value_done (get_field F_auto_mode hr1)
       /\ @publish demo_config (Path_make3 3 MODE false) F_auto_mode 3 hr1 w1
          = w1.
Proof.
  intros w w1.
  destruct (@publish_sends_once demo_config (Path_make3 3 MODE false)
              (Path_make3 3 MODE false) F_auto_mode 3 demo_device w) as [_ H].
  split; [reflexivity | exact H].
Defined.

Lemma publish_timer_slot_sends_both_witness :
  let w := demo 2 1 0 true (fun n => Nat.eqb n 0) in
  (String.length (@prefix demo_config) <= 100)%nat
  /\ log (snd (@publish_timer_slot demo_config
                 (Path_make 3 TIMER false TIMER_NONE 0 5)
                 (timers demo_device 0 5) w))
     = [EvPublish (Some "hr20/3/timer/0/5/mode"%string) "1" true true;
        EvPublish (Some "hr20/3/timer/0/5/time"%string) "06:30" true false;
        EvERR_ARG MQTT_CANT_PUBLISH 323].
Proof.
  intros w.
  assert (H : (String.length (@prefix demo_config) <= 100)%nat) by (simpl; lia).
  split; [exact H |].
  destruct (@publish_timer_slot_sends_both demo_config 3 0 5
              (timers demo_device 0 5) w H) as [Hs _].
  destruct (Hs eq_refl eq_refl) as [Hl _]. exact Hl.
Defined.

(** ** Inbound messages *)

Section Inbound.
Context `{cfg : Config} `{ops : DeviceOps}.

Lemma store_others (a b : Z) (hr : HR20) (w : t) :
  b <> a -> model (store a hr w) !! b = model w !! b.
Proof. intros H. simpl. now rewrite lookup_insert_ne by congruence. Qed.

Lemma callback_model (topic_ : cstr) (payload : string) (w : t) :
  model (callback topic_ payload w) = model w
  \/ exists hr',
       is_Some (model w !! Path_addr (parse prefix topic_))
       /\ model (callback topic_ payload w)
          = <[Path_addr (parse prefix topic_) := hr']> (model w).
Proof.
  unfold callback, callback_done, call_set_requested, call_set_timer_mode,
    call_set_timer_time, store.
  destruct (negb (valid _)); [now left |].
  destruct (negb (setter _)); [now left |].
  destruct (model w !! _) as [hr|] eqn:Em; [| now left].
  repeat match goal with
         | |- context [if ?b then _ else _] => destruct b
         | |- context [match topic ?p with _ => _ end] => destruct (topic p)
         | |- context [match timer_topic ?p with _ => _ end] =>
             destruct (timer_topic p)
         | |- context [set_requested_from_str ?v ?s] =>
             destruct (set_requested_from_str v s)
         | |- context [set_timer_mode ?h ?d ?s ?v] =>
             destruct (set_timer_mode h d s v)
         | |- context [set_timer_time ?h ?d ?s ?v] =>
             destruct (set_timer_time h d s v)
         end;
    first [now left | right; eexists; split; [eauto | reflexivity]].
Qed.

(** X27: an inbound message never moves the scheduler and reaches at most
    the device it addresses: [callback] leaves the masks, the cursor, the
    transport and the number of publish calls as they are, keeps the set of
    known devices, and changes no device but the one at the parsed
    address.  A topic that does not parse to a valid path or is outside
    the set branch is answered by MQTT_INVALID_TOPIC alone, an address
    without a device by MQTT_CALLBACK_BAD_ADDR alone, and a topic other
    than requested_temp, mode, lock and timer by MQTT_INVALID_TOPIC alone;
    so is every topic the publisher itself composes outside the set
    branch. *)
Theorem callback_rejects_and_confines (topic_ : cstr) (payload : string)
    (w : t) :
  let p := parse prefix topic_ in
  let w' := callback topic_ payload w in
  (states w' = states w /\ cursor w' = cursor w /\ client w' = client w
   /\ attempts w' = attempts w /\ dom (model w') = dom (model w)
   /\ forall b, b <> Path_addr p -> model w' !! b = model w !! b)
  /\ (valid p = false \/ setter p = false ->
      w' = emit (EvERR MQTT_INVALID_TOPIC) w)
  /\ (valid p = true -> setter p = true -> model w !! Path_addr p = None ->
      w' = emit (EvERR MQTT_CALLBACK_BAD_ADDR) w)
  /\ (valid p = true -> setter p = true ->
      topic p <> REQ_TMP -> topic p <> MODE -> topic p <> LOCK ->
      topic p <> TIMER ->
      is_Some (model w !! Path_addr p) ->
      w' = emit (EvERR MQTT_INVALID_TOPIC) w)
  /\ (forall q, good_prefix prefix -> Path_wf q -> setter q = false ->
        callback (compose_text prefix q) payload w
        = emit (EvERR MQTT_INVALID_TOPIC) w).
Proof.
  intros p w'. split; [| split; [| split; [| split]]].
  - destruct (callback_frame topic_ payload w) as (Hs & Hc & Ha & Hd).
    pose proof (callback_client topic_ payload w) as Hcl.
    repeat split; try assumption.
    intros b Hb. destruct (callback_model topic_ payload w) as [E | (hr' & _ & E)];
      fold w' in E; rewrite E; [reflexivity |].
    apply lookup_insert_ne. fold p. congruence.
  - intros H. subst w'. unfold callback. fold p.
    destruct H as [H | H]; rewrite H; [reflexivity |].
    destruct (negb (valid p)); reflexivity.
  - intros Hv Hs Hm. subst w'. unfold callback. fold p.
    rewrite Hv, Hs, Hm. reflexivity.
  - intros Hv Hs H1 H2 H3 H4 [hr Hm]. subst w'. unfold callback. fold p.
    rewrite Hv, Hs, Hm. cbn [negb].
    destruct (topic p); try reflexivity; contradiction.
  - intros q Hg Hq Hs. unfold callback.
    rewrite (parse_compose_text prefix q Hg Hq), Hs.
    destruct (negb (valid q)); reflexivity.
Qed.

(** X28: a valid set message for requested_temp, mode or lock of a known
    device hands the payload to the setter of temp_wanted, auto_mode or
    menu_locked of that device, stores what the setter leaves, and logs
    MQTT_CALLBACK, followed by MQTT_INVALID_TOPIC_VALUE when the setter
    did not accept the text. *)
Theorem callback_sets_requested_value (topic_ : cstr) (payload : string)
    (w : t) (hr : HR20) (f : Field) :
  let p := parse prefix topic_ in
  valid p = true -> setter p = true -> model w !! Path_addr p = Some hr ->
  (topic p = REQ_TMP /\ f = F_temp_wanted)
  \/ (topic p = MODE /\ f = F_auto_mode)
  \/ (topic p = LOCK /\ f = F_menu_locked) ->
  let r := set_requested_from_str (get_field f hr) payload in
  model (callback topic_ payload w)
  = <[Path_addr p := set_field f (snd r) hr]> (model w)
  /\ log (callback topic_ payload w)
     = log w
       ++ EvSetRequested f payload
          :: EvEVENT_ARG MQTT_CALLBACK (as_uint p)
          :: (if fst r then []
              else [EvERR_ARG MQTT_INVALID_TOPIC_VALUE (as_uint p)]).
Proof.
  intros p Hv Hs Hm Hf r. subst r. unfold callback. fold p.
  rewrite Hv, Hs, Hm. cbn [negb].
  destruct Hf as [[Ht ->] | [[Ht ->] | [Ht ->]]]; rewrite Ht;
    unfold call_set_requested, callback_done;
    destruct (set_requested_from_str _ payload) as [ok v];
    destruct ok; cbn [negb fst snd model log store emit with_model];
    rewrite <- ?app_assoc; split; reflexivity.
Qed.

End Inbound.

Lemma callback_sets_requested_value_witness :
  let w := demo 0 0 0 true (fun _ => true) in
  let p := parse (@prefix demo_config) "hr20/set/3/requested_temp" in
  (valid p = true /\ setter p = true
   /\ model w !! Path_addr p = Some demo_device
   /\ topic p = REQ_TMP)
  /\ log (@callback demo_config demo_ops "hr20/set/3/requested_temp" "21.5" w)
     = [EvSetRequested F_temp_wanted "21.5"; EvEVENT_ARG MQTT_CALLBACK 195].
Proof.
  intros w p.
  assert (H1 : valid p = true) by reflexivity.
  assert (H2 : setter p = true) by reflexivity.
  assert (H3 : model w !! Path_addr p = Some demo_device) by reflexivity.
  split; [repeat split; assumption |].
  destruct (@callback_sets_requested_value demo_config demo_ops
              "hr20/set/3/requested_temp" "21.5" w demo_device F_temp_wanted
              H1 H2 H3 (or_introl (conj eq_refl eq_refl))) as [_ Hl].
  exact Hl.
Defined.

(** ** What a tick writes to the log *)

Section Log.
Context `{cfg : Config} `{ops : DeviceOps}.

Lemma log_extends_refl (P : Event -> Prop) (w : t) : log_extends P w w.
Proof. exists []. split; [now rewrite app_nil_r | constructor]. Qed.

Lemma log_extends_same (P : Event -> Prop) (w w' : t) :
  log w' = log w -> log_extends P w w'.
Proof. intros H. exists []. split; [now rewrite app_nil_r | constructor]. Qed.

Lemma log_extends_trans (P : Event -> Prop) (a b c : t) :
  log_extends P a b -> log_extends P b c -> log_extends P a c.
Proof.
  intros (l1 & E1 & F1) (l2 & E2 & F2). exists (l1 ++ l2).
  split; [now rewrite E2, E1, app_assoc | now apply Forall_app].
Qed.

Lemma log_extends_emit (P : Event -> Prop) (e : Event) (w w' : t) :
  P e -> log w' = log w -> log_extends P w (emit e w').
Proof.
  intros H E. exists [e]. split; [simpl; now rewrite E | now repeat constructor].
Qed.

Lemma log_extends_log (P : Event -> Prop) (w w1 w2 : t) :
  log w2 = log w1 -> log_extends P w w1 -> log_extends P w w2.
Proof. intros E (l & H & F). exists l. split; [congruence | exact F]. Qed.

Lemma about_device_other (a : Z) (e : Event) :
  is_publish e = false -> about_device a e.
Proof. destruct e; simpl; (discriminate || trivial). Qed.

Lemma about_device_publish (p : Path) (payload : string) (ok : bool) :
  setter p = false ->
  about_device (Path_addr p)
    (EvPublish (compose prefix MAX_MQTT_PATH_LENGTH p) payload MQTT_RETAIN ok).
Proof. intros H. simpl. split; [reflexivity |]. now exists p. Qed.

Lemma reconnect_log (a now : Z) (w : t) :
  log_extends (about_device a) w (snd (reconnect now w)).
Proof.
  unfold reconnect. destruct (negb _); [| apply log_extends_refl].
  destruct (_ <? _); [apply log_extends_refl |].
  destruct (_ && _); unfold client_connect, client_subscribe;
    cbn [fst snd client with_last_conn];
    destruct (connect_result (client w)); cbn [fst snd negb];
    repeat (eapply log_extends_trans;
            [| apply log_extends_emit; [exact I | reflexivity]]);
    apply log_extends_same; reflexivity.
Qed.

Lemma callback_log (a : Z) (topic_ : cstr) (payload : string) (w : t) :
  log_extends (about_device a) w (callback topic_ payload w).
Proof.
  unfold callback, callback_done, call_set_requested, call_set_timer_mode,
    call_set_timer_time, store.
  repeat match goal with
         | |- context [if ?b then _ else _] => destruct b
         | |- context [match model w !! ?a with _ => _ end] =>
             destruct (model w !! a)
         | |- context [match topic ?p with _ => _ end] => destruct (topic p)
         | |- context [match timer_topic ?p with _ => _ end] =>
             destruct (timer_topic p)
         | |- context [set_requested_from_str ?v ?s] =>
             destruct (set_requested_from_str v s)
         | |- context [set_timer_mode ?h ?d ?s ?v] =>
             destruct (set_timer_mode h d s v)
         | |- context [set_timer_time ?h ?d ?s ?v] =>
             destruct (set_timer_time h d s v)
         end;
    repeat (eapply log_extends_trans;
            [| apply log_extends_emit; [exact I | reflexivity]]);
    first [apply log_extends_refl | apply log_extends_same; reflexivity].
Qed.

Lemma client_loop_log (a : Z) (w : t) :
  log_extends (about_device a) w (client_loop w).
Proof.
  unfold client_loop.
  set (w0 := with_client _ w).
  assert (H0 : log_extends (about_device a) w w0)
    by (apply log_extends_same; reflexivity).
  clearbody w0. revert w0 H0.
  induction (inbox (client w)) as [|m l IH]; intros w0 H0; simpl; [exact H0 |].
  apply IH. eapply log_extends_trans; [exact H0 | apply callback_log].
Qed.

Lemma publish_log (p : Path) (f : Field) (hr : HR20) (w : t) :
  setter p = false ->
  log_extends (about_device (Path_addr p)) w (publish p f (Path_addr p) hr w).
Proof.
  intros Hs. unfold publish, publish_value, client_publish.
  destruct (_ || _); [apply log_extends_same; reflexivity |].
  destruct (publish_result _ _);
    (eexists; split;
     [cbn [log with_model emit with_client]; rewrite <- app_assoc; reflexivity |]);
    repeat constructor; try exact Hs; now exists p.
Qed.

Lemma publish_str_log (p : Path) (val : string) (w : t) :
  setter p = false ->
  log_extends (about_device (Path_addr p)) w (publish_str p val w).
Proof.
  intros Hs. unfold publish_str, client_publish.
  destruct (publish_result _ _);
    (eexists; split;
     [cbn [log with_model emit with_client]; rewrite <- app_assoc; reflexivity |]);
    repeat constructor; try exact Hs; now exists p.
Qed.

Lemma publish_timer_slot_log (p : Path) (val : TimerSlot) (w : t) :
  setter p = false ->
  log_extends (about_device (Path_addr p)) w (snd (publish_timer_slot p val w)).
Proof.
  intros Hs. unfold publish_timer_slot, client_publish.
  destruct (_ && _); [| apply log_extends_refl].
  cbn [fst snd client with_client emit publish_result publish_calls].
  destruct (publish_result _ _), (publish_result _ _);
    (eexists; split;
     [cbn [negb orb snd log emit with_client]; rewrite <- !app_assoc;
      reflexivity |]);
    repeat constructor;
    first [exists (with_timer_topic TIMER_MODE p); now repeat split
          | exists (with_timer_topic TIMER_TIME p); now repeat split].
Qed.

Lemma publish_frequent_log (w : t) :
  log_extends (about_device (addr w)) w (publish_frequent w).
Proof.
  unfold publish_frequent, publish_synced.
  destruct (_ =? 0); [apply log_extends_same; rewrite ?next_major_log; reflexivity |].
  cbv zeta. destruct (model w !! addr w) as [hr|];
    [| apply log_extends_emit; [exact I | reflexivity]].
  repeat match goal with
         | |- context [if ?b then _ else _] => destruct b
         end;
    first
      [ apply (log_extends_log _ _ _ _ eq_refl),
          (publish_log (with_topic _ (Path_make3 (addr w) INVALID_TOPIC false)));
        reflexivity
      | apply (log_extends_log _ _ _ _ eq_refl),
          (publish_str_log (with_topic _ (Path_make3 (addr w) INVALID_TOPIC false)));
        reflexivity
      | apply log_extends_same; rewrite ?next_major_log; reflexivity ].
Qed.

Lemma publish_timers_log (w : t) :
  log_extends (about_device (addr w)) w (publish_timers w).
Proof.
  unfold publish_timers. cbv zeta.
  destruct (model w !! addr w) as [hr|];
    [| apply log_extends_emit; [exact I | reflexivity]].
  destruct (_ =? 0); [apply log_extends_same; rewrite ?next_major_log; reflexivity |].
  destruct (8 <=? _); [apply log_extends_same; rewrite ?next_major_log; reflexivity |].
  destruct (_ =? 0); [apply log_extends_same; rewrite ?next_major_log; reflexivity |].
  match goal with
  | |- context [publish_timer_slot ?p ?v ?x] =>
      pose proof (publish_timer_slot_log p v x eq_refl) as H;
      destruct (publish_timer_slot p v x) as [val w3]
  end.
  cbn [snd Path_addr Path_make] in H.
  apply (log_extends_log _ _ w3); [reflexivity |].
  eapply log_extends_trans; [| exact H].
  apply log_extends_same. destruct (_ =? 7); reflexivity.
Qed.

(** X29: the log only grows, and what a tick publishes is about the device
    at the cursor: every publish call of [update] is retained as
    configured and goes to the topic composed for a path with the address
    of the cursor outside the set branch; there are at most two of them. *)
Theorem tick_publishes_for_cursor_device_only (now : Z) (w : t) :
  exists l,
    log (update now w) = log w ++ l
    /\ Forall (about_device (addr w)) l
    /\ (publishes l <= 2)%nat.
Proof.
  assert (H : log_extends (about_device (addr w)) w (update now w)).
  { rewrite update_schedule.
    destruct (negb (fst (reconnect now w))); [apply reconnect_log |].
    set (w1 := client_loop (snd (reconnect now w))).
    assert (H1 : log_extends (about_device (addr w)) w w1).
    { eapply log_extends_trans; [apply reconnect_log | apply client_loop_log]. }
    assert (Ha : addr w1 = addr w).
    { assert (F1 : frame w w1)
        by (eapply frame_trans; [apply reconnect_frame | apply client_loop_frame]).
      now apply frame_fields in F1. }
    clearbody w1.
    eapply log_extends_trans; [exact H1 |]. rewrite <- Ha.
    unfold schedule.
    destruct (_ =? 0); [apply log_extends_same; reflexivity |].
    destruct (_ =? _); [apply publish_frequent_log |].
    destruct (_ =? _); [apply publish_timers_log |].
    apply log_extends_same; reflexivity. }
  destruct H as (l & E & F). exists l. split; [exact E | split; [exact F |]].
  assert (Hat : (attempts (update now w) <= attempts w + 2)%nat).
  { destruct (update_frame now w) as [E' | (w2 & F2 & E')]; rewrite E'.
    - destruct (reconnect_frame now w) as (_ & _ & Ha & _). lia.
    - destruct F2 as (_ & _ & Ha & _). rewrite <- Ha. unfold schedule.
      destruct (_ =? 0); [simpl; unfold attempts; simpl; lia |].
      destruct (state_maj w2 =? StateMajor_code STM_FREQ) eqn:Ej.
      + apply Z.eqb_eq in Ej.
        destruct (publish_frequent_effect w2 Ej) as (H & _). lia.
      + destruct (state_maj w2 =? StateMajor_code STM_TIMER) eqn:Et.
        * apply Z.eqb_eq in Et.
          destruct (publish_timers_effect w2 Et) as (H & _). lia.
        * unfold attempts. simpl. lia. }
  unfold attempts in Hat. rewrite E, publishes_app in Hat. lia.
Qed.

End Log.

(** ** The timer walk over one day *)

Lemma timer_cursor_at (d k : Z) :
  0 <= d < 8 -> 0 <= k < 8 ->
  Z.shiftr (8 * d + k) 3 = d /\ Z.land (8 * d + k) 7 = k
  /\ 0 <= 8 * d + k < 64.
Proof.
  intros Hd Hk. change (Z.land (8 * d + k) 7) with (Z.land (8 * d + k) (Z.ones 3)).
  rewrite Z.land_ones, Z.shiftr_div_pow2 by lia. change (2 ^ 3) with 8.
  repeat split; try lia; Z.div_mod_to_equations; lia.
Qed.

Lemma get_field_set_timer (f : Field) (d s : Z) (v : TimerSlot) (hr : HR20) :
  get_field f (set_timer d s v hr) = get_field f hr.
Proof. destruct f; reflexivity. Qed.

Section TimerDay.
Context `{cfg : Config}.

Lemma publish_timer_slot_done (p : Path) (val : TimerSlot) (w : t) :
  slot_done (fst (publish_timer_slot p val w)).
Proof.
  destruct (publish_timer_slot_effect p val w) as (_ & _ & _ & H).
  destruct (negb (slot_published val) && slot_remote_valid val) eqn:E.
  - left. apply H.
  - destruct H as [_ ->]. unfold slot_done.
    destruct (slot_published val); [now left |].
    destruct (slot_remote_valid val); [discriminate | now right].
Qed.

(** The step of the timer walk at slot [s] of a day [d] whose bit is
    set. *)
Lemma timer_slot_step (w : t) (hr : HR20) (d s : Z) :
  0 <= d < 8 -> 0 <= s < 8 ->
  state_min w = 8 * d + s ->
  model w !! addr w = Some hr ->
  Z.testbit (states_get (addr w) w) (d + 1) = true ->
  let w' := publish_timers w in
  states w'
  = (if s =? 7
     then <[Z.to_nat (addr w)
            := Z.land (states_get (addr w) w) (Z.lnot (timer_day_2_change d))]>
            (states w)
     else states w)
  /\ cursor w' = (addr w, state_maj w, 8 * d + s + 1)
  /\ (attempts w <= attempts w' <= attempts w + 2)%nat
  /\ exists v, slot_done v
       /\ model w' = <[addr w := set_timer d s v hr]> (model w).
Proof.
  intros Hd Hs Hn Hm Hb.
  destruct (timer_cursor_at d s Hd Hs) as (Ed & Es & Hr).
  assert (Hbit : Z.land (Z.shiftl 1 (Z.shiftr (state_min w) 3))
                   (change_get_timer_mask (states_get (addr w) w)) <> 0).
  { rewrite Hn, Ed. apply day_bit_set; [lia |]. now rewrite timer_mask_bit. }
  pose proof (publish_timers_step w hr Hm ltac:(rewrite Hn; exact Hr) Hbit)
    as Hstep.
  cbv zeta in Hstep |- *. rewrite Hstep. rewrite Hn, Ed, Es.
  set (w2 := if s =? 7 then _ else _).
  set (p := Path_make _ _ _ _ _ _).
  destruct (publish_timer_slot_effect p (timers hr d s) w2)
    as (Rs & Rc & Rm & Ra).
  pose proof (publish_timer_slot_done p (timers hr d s) w2) as Rd.
  destruct (publish_timer_slot p (timers hr d s) w2) as [v w3].
  cbn [fst snd] in *.
  assert (Hw2 : states w2
                = (if s =? 7
                   then <[Z.to_nat (addr w)
                          := Z.land (states_get (addr w) w)
                               (Z.lnot (timer_day_2_change d))]> (states w)
                   else states w)
                /\ cursor w2 = (addr w, state_maj w, 8 * d + s + 1)
                /\ model w2 = model w /\ attempts w2 = attempts w).
  { subst w2. unfold cursor, next_min_state, u8.
    destruct (s =? 7);
      cbn [states addr state_maj state_min model with_state_min states_set
           with_states];
      rewrite Hn, Z.mod_small by lia; repeat split. }
  destruct Hw2 as (S2 & C2 & M2 & A2).
  split; [cbn [states with_model]; congruence |].
  split; [unfold cursor in *; cbn [addr state_maj state_min with_model];
          congruence |].
  split.
  { unfold attempts in *. cbn [log with_model].
    destruct (negb _ && _); destruct Ra as [Ra _]; lia. }
  exists v. split; [exact Rd |].
  cbn [model with_model]. now rewrite Rm, M2.
Qed.

Lemma timer_walk_slots (w0 : t) (hr0 : HR20) (d : Z) (k : nat) :
  (k <= 7)%nat -> 0 <= d < 8 ->
  state_min w0 = 8 * d ->
  model w0 !! addr w0 = Some hr0 ->
  Z.testbit (states_get (addr w0) w0) (d + 1) = true ->
  let w := Nat.iter k publish_timers w0 in
  states w = states w0
  /\ cursor w = (addr w0, state_maj w0, 8 * d + Z.of_nat k)
  /\ (attempts w0 <= attempts w <= attempts w0 + 2 * k)%nat
  /\ exists hr,
       model w !! addr w0 = Some hr
       /\ (forall s, 0 <= s < Z.of_nat k -> slot_done (timers hr d s))
       /\ (forall d' s', d' <> d -> timers hr d' s' = timers hr0 d' s')
       /\ (forall f, get_field f hr = get_field f hr0).
Proof.
  intros Hk Hd Hn Hm Hb. induction k as [|k IH].
  - simpl. split; [reflexivity |].
    split; [unfold cursor; rewrite Hn; f_equal; lia |]. split; [lia |].
    exists hr0. split; [exact Hm |]. split; [intros s Hs; lia |].
    split; reflexivity.
  - destruct IH as (Hs & Hc & Ha & hr & Hm' & Hdone & Hoth & Hfld); [lia |].
    cbv zeta. rewrite Nat.iter_succ.
    set (w := Nat.iter k publish_timers w0) in *.
    unfold cursor in Hc. injection Hc as Haddr Hmaj Hmin.
    destruct (timer_slot_step w hr d (Z.of_nat k)) as (Ss & Sc & Sa & v & Sd & Sm);
      [exact Hd | lia | exact Hmin | now rewrite Haddr
      | unfold states_get; now rewrite Hs, Haddr |].
    replace (Z.of_nat k =? 7) with false in Ss
      by (symmetry; apply Z.eqb_neq; lia).
    split; [congruence |].
    split; [rewrite Sc, Haddr, Hmaj; f_equal; lia |].
    split; [lia |].
    exists (set_timer d (Z.of_nat k) v hr).
    split; [rewrite Sm, Haddr; apply lookup_insert_eq |].
    split; [| split].
    + intros s Hs'. cbn [timers set_timer]. rewrite Z.eqb_refl. cbn [andb].
      destruct (s =? Z.of_nat k) eqn:E; [exact Sd |].
      apply Z.eqb_neq in E. apply Hdone. lia.
    + intros d' s' Hne. cbn [timers set_timer].
      replace (d' =? d) with false by (symmetry; now apply Z.eqb_neq).
      cbn [andb]. now apply Hoth.
    + intros f. rewrite get_field_set_timer. apply Hfld.
Qed.

(** The eighth step, behind the seven of [timer_walk_slots]. *)
Lemma timer_day_last_step (w w7 : t) (hr hr7 : HR20) (d : Z) :
  0 <= d < 8 ->
  (Z.to_nat (addr w) < length (states w))%nat ->
  Z.testbit (states_get (addr w) w) (d + 1) = true ->
  states w7 = states w ->
  cursor w7 = (addr w, state_maj w, 8 * d + 7) ->
  (attempts w <= attempts w7 <= attempts w + 14)%nat ->
  model w7 !! addr w = Some hr7 ->
  (forall s, 0 <= s < 7 -> slot_done (timers hr7 d s)) ->
  (forall d' s', d' <> d -> timers hr7 d' s' = timers hr d' s') ->
  (forall f, get_field f hr7 = get_field f hr) ->
  let w' := publish_timers w7 in
  cursor w' = (addr w, state_maj w, 8 * d + 8)
  /\ states_get (addr w) w'
     = Z.land (states_get (addr w) w) (Z.lnot (timer_day_2_change d))
  /\ Z.testbit (states_get (addr w) w') (d + 1) = false
  /\ (attempts w <= attempts w' <= attempts w + 16)%nat
  /\ exists hr',
       model w' !! addr w = Some hr'
       /\ (forall s, 0 <= s < 8 -> slot_done (timers hr' d s))
       /\ (forall d' s', d' <> d -> timers hr' d' s' = timers hr d' s')
       /\ (forall f, get_field f hr' = get_field f hr).
Proof.
  intros Hd Hl Hb Hs Hc Ha Hm7 Hdone Hoth Hfld w'.
  unfold cursor in Hc. injection Hc as Haddr Hmaj Hmin.
  assert (Hg : states_get (addr w7) w7 = states_get (addr w) w)
    by (unfold states_get; now rewrite Hs, Haddr).
  destruct (timer_slot_step w7 hr7 d 7) as (Ss & Sc & Sa & v & Sd & Sm);
    [exact Hd | lia | exact Hmin | now rewrite Haddr | now rewrite Hg |].
  fold w' in Ss, Sc, Sa, Sm. clearbody w'. cbn [Z.eqb Pos.eqb] in Ss.
  rewrite Haddr, Hg, Hs in *.
  assert (Hget : states_get (addr w) w'
                 = Z.land (states_get (addr w) w)
                     (Z.lnot (timer_day_2_change d))).
  { unfold states_get at 1. rewrite Ss. now rewrite list_lookup_insert_eq. }
  split; [rewrite Sc, Hmaj; f_equal; lia |].
  split; [exact Hget |].
  split; [rewrite Hget; now apply timer_day_cleared |].
  split; [lia |].
  exists (set_timer d 7 v hr7).
  split; [rewrite Sm; apply lookup_insert_eq |].
  split; [| split].
  - intros s Hs'. cbn [timers set_timer]. rewrite Z.eqb_refl. cbn [andb].
    destruct (s =? 7) eqn:E; [exact Sd |].
    apply Z.eqb_neq in E. apply Hdone. lia.
  - intros d' s' Hne. cbn [timers set_timer].
    replace (d' =? d) with false by (symmetry; now apply Z.eqb_neq).
    cbn [andb]. now apply Hoth.
  - intros f. rewrite get_field_set_timer. apply Hfld.
Qed.

(** X30: the timer walk over a day completes: from the first slot of a day
    whose change bit is set, on a device that exists, eight calls of
    [publish_timers] bring the minor state to the first slot of the next
    day, clear the bit of the day and no other, make at most sixteen
    publish calls, and leave every slot of the day published or not known;
    the slots of the other days and the cached values are as before. *)
Theorem timer_day_walk_completes (w : t) (hr : HR20) (d : Z) :
  0 <= d < 8 ->
  state_min w = 8 * d ->
  model w !! addr w = Some hr ->
  (Z.to_nat (addr w) < length (states w))%nat ->
  Z.testbit (states_get (addr w) w) (d + 1) = true ->
  let w' := Nat.iter 8 publish_timers w in
  cursor w' = (addr w, state_maj w, 8 * d + 8)
  /\ states_get (addr w) w'
     = Z.land (states_get (addr w) w) (Z.lnot (timer_day_2_change d))
  /\ Z.testbit (states_get (addr w) w') (d + 1) = false
  /\ (attempts w <= attempts w' <= attempts w + 16)%nat
  /\ exists hr',
       model w' !! addr w = Some hr'
       /\ (forall s, 0 <= s < 8 -> slot_done (timers hr' d s))
       /\ (forall d' s', d' <> d -> timers hr' d' s' = timers hr d' s')
       /\ (forall f, get_field f hr' = get_field f hr).
Proof.
  intros Hd Hn Hm Hl Hb.
  pose proof (timer_walk_slots w hr d 7 (Nat.le_refl 7) Hd Hn Hm Hb) as H7.
  cbv zeta in H7 |- *. rewrite (Nat.iter_succ 7).
  revert H7. generalize (Nat.iter 7 publish_timers w). intros w7 H7.
  destruct H7 as (Hs & Hc & Ha & hr7 & Hm7 & Hdone & Hoth & Hfld).
  apply (timer_day_last_step w w7 hr hr7 d); assumption.
Qed.

End TimerDay.

Lemma timer_day_walk_completes_witness :
  let w := demo 8 1 16 true (fun _ => true) in
  (0 <= 2 < 8 /\ state_min w = 8 * 2
   /\ model w !! addr w = Some demo_device
   /\ (Z.to_nat (addr w) < length (states w))%nat
   /\ Z.testbit (states_get (addr w) w) (2 + 1) = true)
  /\ cursor (Nat.iter 8 (@publish_timers demo_config) w) = (3, 1, 24)
  /\ states_get 3 (Nat.iter 8 (@publish_timers demo_config) w) = 0
  /\ attempts (Nat.iter 8 (@publish_timers demo_config) w) = 16%nat.
Proof.
  intros w.
  assert (H1 : 0 <= 2 < 8) by lia.
  assert (H2 : state_min w = 8 * 2) by reflexivity.
  assert (H3 : model w !! addr w = Some demo_device) by reflexivity.
  assert (H4 : (Z.to_nat (addr w) < length (states w))%nat) by (simpl; lia).
  assert (H5 : Z.testbit (states_get (addr w) w) (2 + 1) = true) by reflexivity.
  split; [repeat split; try assumption; lia |].
  destruct (@timer_day_walk_completes demo_config w demo_device 2
              H1 H2 H3 H4 H5) as (Hc & Hg & _).
  split; [exact Hc | split; [exact Hg | vm_compute; reflexivity]].
Defined.

(** ** A change mask without a device *)

Section Stall.

Context `{cfg : Config} `{ops : DeviceOps}.

(** The walks have a mask to serve at the cursor and no device to read. *)
Lemma update_without_device (now : Z) (w : t) :
  connected (client w) = true ->
  model w !! addr w = None ->
  states_get (addr w) w <> 0 ->
  state_maj w = StateMajor_code STM_TIMER
  \/ (state_maj w = StateMajor_code STM_FREQ
      /\ Z.land (states_get (addr w) w) CHANGE_FREQUENT <> 0) ->
  let w' := update now w in
  cursor w' = cursor w /\ states w' = states w /\ attempts w' = attempts w
  /\ connected (client w') = true /\ model w' !! addr w' = None
  /\ log w' = log (client_loop w) ++ [EvERR MQTT_INVALID_CLIENT].
Proof.
  intros Hc Hnone Hmask Hm w'. subst w'.
  rewrite update_schedule, (connected_reconnect now w Hc). cbn [fst snd negb].
  pose proof (client_loop_frame w) as F.
  pose proof (client_loop_client w) as (Hconn & _).
  cbn [connected] in Hconn.
  set (w2 := client_loop w) in *. clearbody w2.
  pose proof (frame_states_get w w2 (addr w) F) as Hget.
  pose proof (frame_lookup w w2 (addr w) F) as Hlook.
  destruct F as (Hst & Hcur & Hat & Hdom).
  assert (Hc3 : addr w2 = addr w /\ state_maj w2 = state_maj w
                /\ state_min w2 = state_min w).
  { unfold cursor in Hcur. injection Hcur as H1 H2 H3. auto. }
  destruct Hc3 as (Ha & Hmj & Hmn).
  assert (Hnone2 : model w2 !! addr w2 = None).
  { rewrite Ha. destruct (model w2 !! addr w) eqn:E; [| reflexivity].
    assert (Hs : is_Some (model w !! addr w)) by (apply Hlook; eauto).
    rewrite Hnone in Hs. destruct Hs as [x Hx]. discriminate. }
  assert (Hstuck : schedule w2 = emit (EvERR MQTT_INVALID_CLIENT) w2).
  { unfold schedule. rewrite Ha, Hget, Hmj.
    replace (states_get (addr w) w =? 0) with false
      by (symmetry; now apply Z.eqb_neq).
    destruct Hm as [Hm | [Hm Hbit]]; rewrite Hm; cbn [StateMajor_code Z.eqb Pos.eqb].
    - destruct (publish_timers_effect w2) as (_ & _ & H); [congruence |].
      now apply H.
    - destruct (publish_frequent_effect w2) as (_ & _ & H); [congruence |].
      apply H; [exact Hnone2 | now rewrite Ha, Hget]. }
  rewrite Hstuck.
  split; [exact Hcur |]. split; [exact Hst |].
  split; [rewrite attempts_emit; simpl; lia |].
  split; [cbn [client emit]; congruence |].
  split; [exact Hnone2 | reflexivity].
Qed.

End Stall.

Section StallTheorem.

Context `{cfg : Config} `{ops : DeviceOps}.

(** C1: the claim fails where a change mask is set for an address at
    which the device model has no device.  [publish_frequent] (with the
    frequent bit set) and [publish_timers] then report MQTT_INVALID_CLIENT
    and return before [next_major] and before the minor state is
    incremented, unlike every other return of the two walks.  With the
    transport connected the tick repeats: after any number of ticks the
    cursor is where it was, which is not the successor position, no change
    mask has changed, so the masks of all other addresses are still
    pending, nothing has been published, and the last entry of the log is
    the error. *)
Theorem tick_stalls_without_device (nows : list Z) (w : t) :
  connected (client w) = true ->
  model w !! addr w = None ->
  states_get (addr w) w <> 0 ->
  state_maj w = StateMajor_code STM_TIMER
  \/ (state_maj w = StateMajor_code STM_FREQ
      /\ Z.land (states_get (addr w) w) CHANGE_FREQUENT <> 0) ->
  cursor (ticks nows w) = cursor w
  /\ (nows <> [] -> cursor (ticks nows w) <> successor w)
  /\ states (ticks nows w) = states w
  /\ attempts (ticks nows w) = attempts w
  /\ (nows <> [] ->
      exists l, log (ticks nows w) = l ++ [EvERR MQTT_INVALID_CLIENT]).
Proof.
  intros Hc Hnone Hmask Hm.
  assert (Hsucc : successor w <> cursor w).
  { apply successor_moves. destruct Hm as [Hm | [Hm _]]; auto. }
  enough (H : cursor (ticks nows w) = cursor w
              /\ states (ticks nows w) = states w
              /\ attempts (ticks nows w) = attempts w
              /\ (nows <> [] ->
                  exists l, log (ticks nows w)
                            = l ++ [EvERR MQTT_INVALID_CLIENT])).
  { destruct H as (H1 & H2 & H3 & H4).
    repeat split; try assumption. intros _. congruence. }
  clear Hsucc. unfold ticks.
  revert w Hc Hnone Hmask Hm.
  induction nows as [|now nows IH]; intros w Hc Hnone Hmask Hm.
  - simpl. repeat split. congruence.
  - cbn [fold_left].
    destruct (update_without_device now w Hc Hnone Hmask Hm)
      as (Hcur & Hst & Hat & Hc' & Hnone' & Hlog).
    set (w1 := update now w) in *. clearbody w1.
    assert (Hc3 : addr w1 = addr w /\ state_maj w1 = state_maj w
                  /\ state_min w1 = state_min w).
    { unfold cursor in Hcur. injection Hcur as H1 H2 H3. auto. }
    destruct Hc3 as (Ha & Hmj & Hmn).
    assert (Hget : states_get (addr w1) w1 = states_get (addr w) w).
    { unfold states_get. now rewrite Hst, Ha. }
    destruct (IH w1) as (G1 & G2 & G3 & G4);
      [exact Hc' | exact Hnone' | now rewrite Hget | now rewrite Hmj, Hget |].
    split; [congruence |]. split; [congruence |]. split; [congruence |].
    intros _. destruct nows as [|n2 nows'].
    + simpl. eexists. exact Hlog.
    + apply G4. discriminate.
Qed.

End StallTheorem.

Lemma tick_stalls_without_device_witness :
  let w := @change_callback 1 CHANGE_FREQUENT (demo_no_device 3 0 0) in
  let w' := @ticks demo_config demo_ops [100; 101; 102] w in
  (connected (client w) = true /\ model w !! addr w = None
   /\ states_get (addr w) w <> 0 /\ state_maj w = StateMajor_code STM_FREQ
   /\ Z.land (states_get (addr w) w) CHANGE_FREQUENT <> 0)
  /\ cursor w' = (3, 0, 0)
  /\ cursor w' <> @successor demo_config w
  /\ @successor demo_config w = (3, 0, 1)
  /\ states_get 1 w' = CHANGE_FREQUENT
  /\ is_Some (model w' !! 1)
  /\ attempts w' = 0%nat
  /\ log w' = [EvERR MQTT_INVALID_CLIENT; EvERR MQTT_INVALID_CLIENT;
               EvERR MQTT_INVALID_CLIENT].
Proof.
  intros w w'.
  assert (H1 : connected (client w) = true) by reflexivity.
  assert (H2 : model w !! addr w = None) by reflexivity.
  assert (H3 : states_get (addr w) w <> 0) by (vm_compute; discriminate).
  assert (H4 : state_maj w = StateMajor_code STM_FREQ) by reflexivity.
  assert (H5 : Z.land (states_get (addr w) w) CHANGE_FREQUENT <> 0)
    by (vm_compute; discriminate).
  split; [repeat split; assumption |].
  destruct (@tick_stalls_without_device demo_config demo_ops
              [100; 101; 102] w H1 H2 H3 (or_intror (conj H4 H5)))
    as (Hcur & Hne & _ & Hat & _).
  split; [exact Hcur |].
  split; [apply Hne; discriminate |].
  split; [reflexivity |].
  split; [reflexivity |].
  split; [exists demo_device; reflexivity |].
  split; [exact Hat | reflexivity].
Defined.
